(** * Document outline generator: hierarchy assembly, depth filter,
      analyzer registry and tabular inference

    A shallow embedding of [src/generators/OutlineGenerator.ts],
    [src/index.ts], [src/generators/CsvGenerator.ts] and the helper
    functions of [src/grammars/csv.pegjs].

    Conventions used throughout:
    - a JavaScript object that is mutated in place lives in a heap
      ([gmap] from references to objects); arrays of objects are lists of
      references;
    - values that are only read or freshly built are plain inductive values;
    - an optional field [f?: T] is an [option T]; [None] is [undefined];
    - a JavaScript stack array (push/pop at the end) is a list whose head
      is the top. *)

From Stdlib Require Import ZArith QArith Ascii String List Lia Bool.
From Stdlib Require Import DecimalString Permutation Sorted SpecFloat.
From stdpp Require Import base option list gmap strings.
Import ListNotations.

Set Warnings "-register-all".

Local Open Scope Z_scope.
Local Open Scope list_scope.

(* ===================================================================== *)
(** ** JavaScript primitives used by the tabular analyzers

    Strings are sequences of ASCII characters.  Numbers are IEEE 754
    binary64 values with the arithmetic of [SpecFloat]: every operation
    rounds to nearest, ties to even, overflows to an infinity, and zero
    has a sign. *)
(* ===================================================================== *)

Module Js.

Definition code (c : ascii) : nat := nat_of_ascii c.

Definition between (lo hi : nat) (c : ascii) : bool :=
  ((lo <=? code c) && (code c <=? hi))%nat.

Definition is_char (x : ascii) (c : ascii) : bool := Ascii.eqb x c.

(** [\d], [\s], [[a-zA-Z]] and JavaScript white space, on ASCII. *)
Definition is_digit (c : ascii) : bool := between 48 57 c.
Definition is_space (c : ascii) : bool := between 9 13 c || is_char " " c.
Definition is_letter (c : ascii) : bool := between 65 90 c || between 97 122 c.
Definition is_hex (c : ascii) : bool :=
  is_digit c || between 65 70 c || between 97 102 c.
Definition is_line_end (c : ascii) : bool := (code c =? 10)%nat || (code c =? 13)%nat.

Definition chars (s : string) : list ascii := list_ascii_of_string s.
Definition str (l : list ascii) : string := string_of_list_ascii l.

(** [String.prototype.length] *)
Definition length (s : string) : Z := Z.of_nat (String.length s).

Fixpoint drop_space (l : list ascii) : list ascii :=
  match l with
  | c :: l' => if is_space c then drop_space l' else l
  | [] => []
  end.

(** [String.prototype.trim] *)
Definition trim (s : string) : string :=
  str (rev (drop_space (rev (drop_space (chars s))))).

(** A character of the ASCII range.  A string of such characters has
    one character per code unit of the string of the code. *)
Definition is_ascii (c : ascii) : bool := (code c <? 128)%nat.

(** [String.prototype.toLowerCase] on the ASCII range. *)
Definition lower_ascii (c : ascii) : ascii :=
  let n := nat_of_ascii c in
  if ((65 <=? n) && (n <=? 90))%nat then ascii_of_nat (n + 32) else c.

Fixpoint toLowerCase (s : string) : string :=
  match s with
  | EmptyString => EmptyString
  | String c s' => String (lower_ascii c) (toLowerCase s')
  end.

(** *** Regular expressions, matched by derivatives *)
Inductive regex :=
| Void
| Eps
| Chr (p : ascii -> bool)
| Cat (r1 r2 : regex)
| Alt (r1 r2 : regex)
| Star (r : regex).

Fixpoint nullable (r : regex) : bool :=
  match r with
  | Void => false
  | Eps => true
  | Chr _ => false
  | Cat r1 r2 => nullable r1 && nullable r2
  | Alt r1 r2 => nullable r1 || nullable r2
  | Star _ => true
  end.

Definition cat (r1 r2 : regex) : regex :=
  match r1, r2 with
  | Void, _ => Void
  | _, Void => Void
  | Eps, _ => r2
  | _, Eps => r1
  | _, _ => Cat r1 r2
  end.

Definition alt (r1 r2 : regex) : regex :=
  match r1, r2 with
  | Void, _ => r2
  | _, Void => r1
  | _, _ => Alt r1 r2
  end.

Fixpoint deriv (c : ascii) (r : regex) : regex :=
  match r with
  | Void => Void
  | Eps => Void
  | Chr p => if p c then Eps else Void
  | Cat r1 r2 =>
      if nullable r1
      then alt (cat (deriv c r1) r2) (deriv c r2)
      else cat (deriv c r1) r2
  | Alt r1 r2 => alt (deriv c r1) (deriv c r2)
  | Star r1 => cat (deriv c r1) (Star r1)
  end.

(** [/^r$/.test(s)] *)
Definition matches (r : regex) (s : string) : bool :=
  nullable (fold_left (fun r c => deriv c r) (chars s) r).

(** The words of a regular expression. *)
Inductive lang : regex -> list ascii -> Prop :=
| lang_eps : lang Eps []
| lang_chr p c : p c = true -> lang (Chr p) [c]
| lang_cat r1 r2 l1 l2 : lang r1 l1 -> lang r2 l2 -> lang (Cat r1 r2) (l1 ++ l2)
| lang_alt_l r1 r2 l : lang r1 l -> lang (Alt r1 r2) l
| lang_alt_r r1 r2 l : lang r2 l -> lang (Alt r1 r2) l
| lang_star_nil r : lang (Star r) []
| lang_star_cons r l1 l2 :
    lang r l1 -> lang (Star r) l2 -> lang (Star r) (l1 ++ l2).

Definition opt (r : regex) : regex := Alt Eps r.
Definition plus (r : regex) : regex := Cat r (Star r).
Definition lit (c : ascii) : regex := Chr (is_char c).
Definition any : regex := Chr (fun _ => true).

Fixpoint word (l : list ascii) : regex :=
  match l with
  | [] => Eps
  | c :: l' => Cat (lit c) (word l')
  end.

(** [r{n}] and [r{n,m}] with [m = n + extra]. *)
Fixpoint times (n : nat) (r : regex) : regex :=
  match n with
  | O => Eps
  | S n' => Cat r (times n' r)
  end.

Fixpoint upto (n : nat) (r : regex) : regex :=
  match n with
  | O => Eps
  | S n' => opt (Cat r (upto n' r))
  end.

Definition range (n extra : nat) (r : regex) : regex :=
  Cat (times n r) (upto extra r).

(** [/r/.test(s)]: a match anywhere in [s]. *)
Definition found (r : regex) (s : string) : bool :=
  matches (Cat (Star any) (Cat r (Star any))) s.

(** *** [Number(s)] and [isNaN]

    The StringNumericLiteral grammar: optional white space around an
    optional literal, which is a signed decimal literal or [Infinity], or an
    unsigned binary, octal or hexadecimal integer.  The empty literal
    converts to [0]. *)
Definition digits : regex := plus (Chr is_digit).
Definition sign : regex := opt (Alt (lit "+") (lit "-")).
Definition exponent : regex :=
  opt (Cat (Alt (lit "e") (lit "E")) (Cat sign digits)).

Definition StrUnsignedDecimalLiteral : regex :=
  Alt (word (chars "Infinity"))
 (Alt (Cat digits (Cat (opt (Cat (lit ".") (Star (Chr is_digit)))) exponent))
      (Cat (lit ".") (Cat digits exponent))).

Definition NonDecimalIntegerLiteral : regex :=
  Cat (lit "0")
   (Alt (Cat (Alt (lit "x") (lit "X")) (plus (Chr is_hex)))
   (Alt (Cat (Alt (lit "b") (lit "B")) (plus (Chr (between 48 49))))
        (Cat (Alt (lit "o") (lit "O")) (plus (Chr (between 48 55)))))).

Definition StringNumericLiteral : regex :=
  Cat (Star (Chr is_space))
   (Cat (opt (Alt (Cat sign StrUnsignedDecimalLiteral) NonDecimalIntegerLiteral))
        (Star (Chr is_space))).

(** [isNaN(Number(s))] *)
Definition isNaN_Number (s : string) : bool :=
  negb (matches StringNumericLiteral s).

(** *** Numbers

    A number is a binary64 value: 53 bits of precision, infinities at
    exponent 1024. *)
Definition number : Type := spec_float.

Abbreviation NaN := S754_nan.
Abbreviation PosInf := (S754_infinity false).
Abbreviation NegInf := (S754_infinity true).

Definition precision : Z := 53.
Definition emax : Z := 1024.

(** The number value of an integer. *)
Definition of_Z (z : Z) : number := binary_normalize precision emax z 0 false.
Definition of_nat (n : nat) : number := of_Z (Z.of_nat n).

(** The number value of the quotient [n / d] of two integers, with the
    sign given: the quotient is rounded once. *)
Definition ratio (negative : bool) (n d : positive) : number :=
  let '(q, e, l) := SFdiv_core_binary precision emax (Zpos n) 0 (Zpos d) 0 in
  binary_round_aux precision emax negative q e l.

(** The number nearest to a rational. *)
Definition Fin (q : Q) : number :=
  match Qnum q with
  | Z0 => S754_zero false
  | Zpos n => ratio false n (Qden q)
  | Zneg n => ratio true n (Qden q)
  end.


(** [a + b], [a - b], [a * b], [a / b] *)
Definition add (a b : number) : number := SFadd precision emax a b.
Definition sub (a b : number) : number := SFsub precision emax a b.
Definition mul (a b : number) : number := SFmul precision emax a b.
Definition div (a b : number) : number := SFdiv precision emax a b.

(** [Math.pow(a, 2)]: the square, rounded once. *)
Definition pow2 (a : number) : number := mul a a.

(** [a < b] and [a <= b]; a comparison with [NaN] is false. *)
Definition lt (a b : number) : bool := SFltb a b.
Definition le (a b : number) : bool := SFleb a b.

Definition isNaN (a : number) : bool :=
  match a with NaN => true | _ => false end.

(** [a || b] on numbers: [NaN] and both zeros are falsy. *)
Definition or_else (a b : number) : number :=
  match a with
  | NaN => b
  | S754_zero _ => b
  | _ => a
  end.

(** [Math.min] and [Math.max] of two numbers: [-0] is below [+0]. *)
Definition min2 (a b : number) : number :=
  match a, b with
  | NaN, _ | _, NaN => NaN
  | S754_zero sa, S754_zero sb => S754_zero (sa || sb)
  | _, _ => if lt b a then b else a
  end.

Definition max2 (a b : number) : number :=
  match a, b with
  | NaN, _ | _, NaN => NaN
  | S754_zero sa, S754_zero sb => S754_zero (sa && sb)
  | _, _ => if lt a b then b else a
  end.

(** [Math.min(...l)] and [Math.max(...l)]; on no argument they are
    [Infinity] and [-Infinity]. *)
Definition Math_min (l : list number) : number := fold_left min2 l PosInf.
Definition Math_max (l : list number) : number := fold_left max2 l NegInf.

(** [Math.round(a)]: the integer nearest to [a], the upper one of two;
    a result of zero keeps the sign of [a]. *)
Definition Math_round (a : number) : number :=
  match a with
  | S754_finite s m e =>
      if 0 <=? e then a
      else
        let twice := 2 * (if s then Zneg m else Zpos m) in
        binary_normalize precision emax
          ((twice + 2 ^ (- e)) / 2 ^ (1 - e)) 0 s
  | _ => a
  end.

(** [l.reduce((a, b) => a + b, 0)] *)
Definition sum (l : list number) : number := fold_left add l (of_Z 0).

(** [Array.prototype.sort((a, b) => a - b)]: a stable sort by the
    comparator; [x] goes before the first element it is smaller than. *)
Fixpoint insert (x : number) (l : list number) : list number :=
  match l with
  | [] => [x]
  | y :: l' => if lt x y then x :: l else y :: insert x l'
  end.

Definition sort (l : list number) : list number :=
  fold_left (fun acc x => insert x acc) l [].

(** [a] may stand before [b] in ascending order. *)
Definition ascending (a b : number) : Prop := lt b a = false.

(** The place of a number in the order of [<]: the class of its sign,
    then the exponent, then the mantissa, compared in this order; both
    zeros have the same place and [NaN] has none. *)
Definition rank (a : number) : option (Z * Z * Z) :=
  match a with
  | NaN => None
  | S754_infinity true => Some (-2, 0, 0)
  | S754_finite true m e => Some (-1, - e, Zneg m)
  | S754_zero _ => Some (0, 0, 0)
  | S754_finite false m e => Some (1, e, Zpos m)
  | S754_infinity false => Some (2, 0, 0)
  end.

Definition below (x y : Z * Z * Z) : Prop :=
  let '(x1, x2, x3) := x in
  let '(y1, y2, y3) := y in
  x1 < y1 \/ (x1 = y1 /\ (x2 < y2 \/ (x2 = y2 /\ x3 < y3))).

(** [NaN], [+0] or a positive number: the sign bit is not set. *)
Definition positive_sign (a : number) : bool :=
  match a with
  | S754_zero true | S754_finite true _ _ | S754_infinity true => false
  | _ => true
  end.

(** *** [parseFloat] *)
Fixpoint span_digits (l : list ascii) : list ascii * list ascii :=
  match l with
  | c :: l' =>
      if is_digit c
      then let '(ds, r) := span_digits l' in (c :: ds, r)
      else ([], l)
  | [] => ([], [])
  end.

Definition digits_value (l : list ascii) : Z :=
  fold_left (fun acc c => 10 * acc + (Z.of_nat (code c) - 48)) l 0.

Definition take_sign (l : list ascii) : bool * list ascii :=
  match l with
  | c :: r =>
      if is_char "-" c then (true, r)
      else if is_char "+" c then (false, r)
      else (false, l)
  | [] => (false, [])
  end.

(** The exponent part, when it is complete; [0] otherwise. *)
Definition exponent_value (l : list ascii) : Z :=
  match l with
  | c :: r =>
      if is_char "e" c || is_char "E" c then
        let '(neg, r') := take_sign r in
        let '(ds, _) := span_digits r' in
        match ds with
        | [] => 0
        | _ => if neg then - digits_value ds else digits_value ds
        end
      else 0
  | [] => 0
  end.

Fixpoint starts_with (p l : list ascii) : bool :=
  match p, l with
  | [], _ => true
  | a :: p', b :: l' => Ascii.eqb a b && starts_with p' l'
  | _ :: _, [] => false
  end.

(** The longest prefix that is a decimal literal, after leading white
    space; [NaN] when there is none.  The decimal value is rounded once
    to the nearest number. *)
Definition parseFloat (s : string) : number :=
  let '(neg, l1) := take_sign (drop_space (chars s)) in
  if starts_with (chars "Infinity") l1 then (if neg then NegInf else PosInf)
  else
    let '(ip, l2) := span_digits l1 in
    let '(fp, l3) :=
      match l2 with
      | c :: r => if is_char "." c then span_digits r else ([], l2)
      | [] => ([], l2)
      end in
    match ip ++ fp with
    | [] => NaN
    | ds =>
        let e := exponent_value l3 - Z.of_nat (List.length fp) in
        match digits_value ds with
        | Zpos m =>
            if 0 <=? e then ratio neg (m * Z.to_pos (10 ^ e)) 1
            else ratio neg m (Z.to_pos (10 ^ (- e)))
        | _ => S754_zero neg
        end
    end.

(** What a numeric literal starts with: [Infinity], a digit, or a point
    and a digit. *)
Definition numeric_start (l : list ascii) : Prop :=
  starts_with (chars "Infinity") l = true \/
  (exists d r, l = d :: r /\ is_digit d = true) \/
  (exists d r, l = "."%char :: d :: r /\ is_digit d = true).

(** *** Values stored in [metadata] records *)
Inductive value :=
| VUndefined
| VNum (n : number)
| VStr (s : string)
| VBool (b : bool)
| VStrs (l : list string).

(** An object literal: keys in source order. *)
Definition object := list (string * value).

(** [o[key]]; a key that was never written reads as [undefined]. *)
Fixpoint get (key : string) (o : object) : value :=
  match o with
  | [] => VUndefined
  | (k, v) :: o' => if String.eqb k key then v else get key o'
  end.

End Js.

(* ===================================================================== *)
(** ** The element model ([src/types]) *)
(* ===================================================================== *)

Module Model.

(** Every field of [OutlineNode] except [children]. *)
Record NodeData := mkData {
  title : string;
  type : string;
  depth : Z;
  line : option Z;
  column : option Z;
  metadata : option Js.object;
  id : option string;
  anchor : option string
}.

(** An outline node as a value: the payload and the optional [children]
    field.  [D] is the payload; [Outline NodeData] is [OutlineNode]. *)
Inductive Outline (D : Type) : Type :=
| Node (d : D) (children : option (list (Outline D))).
Arguments Node {D} d children.

Definition payload {D} (t : Outline D) : D :=
  match t with Node d _ => d end.

Definition children {D} (t : Outline D) : option (list (Outline D)) :=
  match t with Node _ c => c end.

Abbreviation OutlineNode := (Outline NodeData).

Definition node_depth (t : OutlineNode) : Z := depth (payload t).

Record GeneratorOptions := mkOptions {
  includeLineNumbers : option bool;
  maxDepth : option Z;
  fileName : option string;
  includePrivate : option bool;
  includeComments : option bool
}.

Record Position := mkPosition { pos_line : Z; pos_column : Z }.

(** [createNode]: a fresh node whose [children] is the empty array. *)
Definition createNode (title type : string) (depth : Z)
    (position : option Position) (metadata : option Js.object)
  : OutlineNode :=
  Node (mkData title type depth
               (pos_line <$> position) (pos_column <$> position)
               metadata None None)
       (Some []).

(** Assignments to fields of a node that was just created. *)
Definition set_id (n : OutlineNode) (new_id : string) : OutlineNode :=
  match n with
  | Node d c =>
      Node (mkData (title d) (type d) (depth d) (line d) (column d)
                   (metadata d) (Some new_id) (anchor d)) c
  end.

Definition set_children (n : OutlineNode) (c : list OutlineNode) : OutlineNode :=
  Node (payload n) (Some c).

(** Pre-order (node first, then its children left to right). *)
Fixpoint preorder {D} (t : Outline D) : list D :=
  match t with
  | Node d c =>
      d :: match c with
           | None => []
           | Some l => flat_map preorder l
           end
  end.

Definition preorder_forest {D} (f : list (Outline D)) : list D :=
  flat_map preorder f.

(** Every node of a forest, nested ones included, satisfies [P]. *)
Definition all_nodes {D} (P : D -> Prop) (f : list (Outline D)) : Prop :=
  Forall P (preorder_forest f).

End Model.
Export Model.

(* ===================================================================== *)
(** ** Hierarchy assembler ([OutlineGenerator.buildHierarchy]) *)
(* ===================================================================== *)

Module Hierarchy.

(** A heap object: the payload and the [children] array, which holds
    references.  [buildHierarchy] mutates [children] in place. *)
Record OutlineObj := mkObj {
  obj_data : NodeData;
  obj_children : option (list nat)
}.

Abbreviation heap := (gmap nat OutlineObj).

(** [node.depth]; a reference always designates an object, the default is
    never reached on a well-formed heap. *)
Definition depth_at (h : heap) (r : nat) : Z :=
  match h !! r with
  | Some o => depth (obj_data o)
  | None => 0
  end.

(** [while (stack.length > 0 && stack[stack.length - 1].depth >= node.depth)
      stack.pop();] *)
Fixpoint pop_stack (h : heap) (d : Z) (stack : list nat) : list nat :=
  match stack with
  | top :: rest => if depth_at h top >=? d then pop_stack h d rest else stack
  | [] => []
  end.

(** [if (!parent.children) parent.children = []; parent.children.push(node);] *)
Definition push_child (h : heap) (parent node : nat) : heap :=
  match h !! parent with
  | Some o =>
      <[parent := mkObj (obj_data o)
                        (Some (default [] (obj_children o) ++ [node]))]> h
  | None => h
  end.

(** The loop state: the [result] array, the [stack] array and the heap. *)
Record state := mkState {
  result : list nat;
  stack : list nat;
  store : heap
}.

(** One iteration of [for (const node of nodes)]. *)
Definition step (st : state) (node : nat) : state :=
  let stack' := pop_stack (store st) (depth_at (store st) node) (stack st) in
  match stack' with
  | [] =>
      mkState (result st ++ [node]) (node :: stack') (store st)
  | parent :: _ =>
      mkState (result st) (node :: stack') (push_child (store st) parent node)
  end.

Definition buildHierarchy (h : heap) (nodes : list nat) : list nat * heap :=
  let st := fold_left step nodes (mkState [] [] h) in
  (result st, store st).

(** Depth-first traversal of the heap from a list of roots; [fuel] bounds
    the nesting that is followed. *)
Fixpoint preorder_heap (fuel : nat) (h : heap) (roots : list nat) : list nat :=
  match fuel with
  | O => []
  | S fuel' =>
      flat_map
        (fun r => r :: match h !! r with
                       | Some o => preorder_heap fuel' h (default [] (obj_children o))
                       | None => []
                       end)
        roots
  end.

(** *** The depth-stack rule on values

    The rule of the specification, stated on outline values.  The stack
    holds the open items, each with the children it has received so far; an
    item that leaves the stack is complete and is handed to the item below
    it as its last child, or to the top-level result when nothing is below
    it.  What is still on the stack after the last item is handed over the
    same way.  The item below is the one that was on top when the item
    arrived, and it receives nothing else while the item is above it, so
    handing over on leaving yields the children in the order of appending
    on arrival; values cannot be appended to in place. *)
Section Rule.
Context {D : Type} (depth_of : D -> Z).

Definition add_child (p x : Outline D) : Outline D :=
  match p with
  | Node d c => Node d (Some (default [] c ++ [x]))
  end.

(** Close [top] and the items below it for as long as [stay] is false. *)
Fixpoint close_from (stay : Outline D -> bool) (res : list (Outline D))
    (top : Outline D) (rest : list (Outline D))
  : list (Outline D) * list (Outline D) :=
  if stay top then (res, top :: rest)
  else match rest with
       | [] => (res ++ [top], [])
       | p :: rest' => close_from stay res (add_child p top) rest'
       end.

Definition close_while (stay : Outline D -> bool) (res stk : list (Outline D))
  : list (Outline D) * list (Outline D) :=
  match stk with
  | [] => (res, [])
  | top :: rest => close_from stay res top rest
  end.

(** Pop while the top's depth is [>=] the incoming depth, then push. *)
Definition rule_step (st : list (Outline D) * list (Outline D)) (x : Outline D)
  : list (Outline D) * list (Outline D) :=
  let d := depth_of (payload x) in
  let '(res, stk) :=
    close_while (fun t => negb (depth_of (payload t) >=? d)) (fst st) (snd st) in
  (res, x :: stk).

Definition depth_stack_rule (items : list (Outline D)) : list (Outline D) :=
  let st := fold_left rule_step items ([], []) in
  fst (close_while (fun _ => false) (fst st) (snd st)).

End Rule.

(** *** Objects as values

    An item of the input sequence is the object together with its
    reference: the payload of such a value is [(reference, data)]. *)
Abbreviation Item := (Outline (nat * NodeData)).

Definition root_ref (t : Item) : nat := fst (payload t).
Definition item_depth (p : nat * NodeData) : Z := depth (snd p).

(** [repr h t]: the heap holds the tree [t] at [root_ref t], children
    included. *)
Fixpoint repr (h : heap) (t : Item) : Prop :=
  match t with
  | Node (r, d) c =>
      h !! r = Some (mkObj d (option_map (map root_ref) c)) /\
      match c with
      | None => True
      | Some l => (fix all (l : list Item) : Prop :=
                     match l with
                     | [] => True
                     | t' :: l' => repr h t' /\ all l'
                     end) l
      end
  end.

(** The input item behind a reference: defined when the object exists and
    is flat ([children] absent or empty). *)
Definition item_at (h : heap) (r : nat) : option Item :=
  match h !! r with
  | Some (mkObj d None) => Some (Node (r, d) None)
  | Some (mkObj d (Some [])) => Some (Node (r, d) (Some []))
  | _ => None
  end.

(** The flat input sequence behind an array of references. *)
Definition items_at (h : heap) (nodes : list nat) : option (list Item) :=
  mapM (item_at h) nodes.

(** Objects for an array of freshly built flat nodes, at references
    [0, 1, ...] in array order. *)
Definition alloc_flat (l : list OutlineNode) : heap :=
  list_to_map
    (imap (fun i t => (i, mkObj (payload t) (option_map (fun _ => []) (children t))))
          l).

(** A flat item has no descendants: [children] is absent or empty. *)
Definition is_flat (t : Item) : Prop :=
  children t = None \/ children t = Some [].


Definition refs_of (t : Item) : list nat := map fst (preorder t).

(** All references of a rule state in pre-order: the closed roots, then the
    open items from the bottom of the stack to its top. *)
Definition zip_refs (res stk : list Item) : list nat :=
  flat_map refs_of res ++ flat_map refs_of (rev stk).

(** An open item [p] whose last child in the heap is the open item above
    it, [above]; that child is not yet part of the value [p]. *)
Definition open_repr (h : heap) (p : Item) (above : nat) : Prop :=
  h !! root_ref p =
    Some (mkObj (snd (payload p))
                (Some (map root_ref (default [] (children p)) ++ [above]))) /\
  Forall (repr h) (default [] (children p)).

Fixpoint below (h : heap) (above : nat) (rest : list Item) : Prop :=
  match rest with
  | [] => True
  | p :: rest' => open_repr h p above /\ below h (root_ref p) rest'
  end.

Definition frames_ok (h : heap) (stk : list Item) : Prop :=
  match stk with
  | [] => True
  | top :: rest => repr h top /\ below h (root_ref top) rest
  end.

(** The reference at the bottom of the stack, if any: it is the last
    top-level root. *)
Definition bottom (stk : list Item) : list nat :=
  match last (map root_ref stk) with
  | Some b => [b]
  | None => []
  end.

(** The simulation invariant between the loop state of [buildHierarchy]
    and the state of the rule. *)
Record Inv (h : heap) (cres : list nat) (res stk : list Item) : Prop := {
  inv_result :
    cres = map root_ref res ++ bottom stk;
  inv_closed : Forall (repr h) res;
  inv_frames : frames_ok h stk
}.

(** The scenario of the specification: [A] and [D] at depth 1, [B] and [C]
    at depth 2, all made by [createNode]. *)
Definition scenario_nodes : list OutlineNode :=
  [ createNode "A" "heading" 1 None None;
    createNode "B" "heading" 2 None None;
    createNode "C" "heading" 2 None None;
    createNode "D" "heading" 1 None None ].

Definition scenario_heap : heap := alloc_flat scenario_nodes.

Definition heading (t : string) (d : Z) : NodeData :=
  mkData t "heading" d None None None None None.

End Hierarchy.

(* ===================================================================== *)
(** ** Depth filter ([OutlineGenerator.filterByDepth]) *)
(* ===================================================================== *)

Module DepthFilter.

(** [node => node.depth <= maxDepth] *)
Definition keeps (maxDepth : Z) (n : OutlineNode) : bool :=
  node_depth n <=? maxDepth.

(** The object built by [.map(node => ({...node, children: ...}))] for a
    non-zero [maxDepth]: every field is copied, and [children] is the
    recursive filter of [node.children] when that field is present
    (an array, even an empty one, is truthy) and [undefined] otherwise.
    The inner loop is [filter] followed by [map] on the children. *)
Fixpoint rebuild (maxDepth : Z) (n : OutlineNode) : OutlineNode :=
  match n with
  | Node d c =>
      Node d
        match c with
        | Some l =>
            Some ((fix go (l : list OutlineNode) : list OutlineNode :=
                     match l with
                     | [] => []
                     | k :: rest =>
                         if keeps maxDepth k
                         then rebuild maxDepth k :: go rest
                         else go rest
                     end) l)
        | None => None
        end
  end.

(** [filterByDepth(nodes, maxDepth)].  [!maxDepth] holds for [undefined]
    and for [0]; in both cases the input array itself is returned. *)
Definition filterByDepth (nodes : list OutlineNode) (maxDepth : option Z)
  : list OutlineNode :=
  match maxDepth with
  | None => nodes
  | Some m =>
      if m =? 0 then nodes
      else map (rebuild m) (List.filter (keeps m) nodes)
  end.

(** The tail of [MarkdownGenerator.generate]: the flat heading nodes are
    filtered, then assembled.  The filtered nodes are fresh objects, taken
    at references [0, 1, ...]. *)
Definition markdown_assemble (nodes : list OutlineNode) (maxDepth : option Z)
  : list nat * Hierarchy.heap :=
  let filteredNodes := filterByDepth nodes maxDepth in
  Hierarchy.buildHierarchy (Hierarchy.alloc_flat filteredNodes)
                           (seq 0 (length filteredNodes)).

(** The headings of the repository's [maxDepth] test,
    [# Level 1 / ## Level 2 / ### Level 3 / #### Level 4]. *)
Definition levels : list OutlineNode :=
  [ createNode "Level 1" "heading" 1 None None;
    createNode "Level 2" "heading" 2 None None;
    createNode "Level 3" "heading" 3 None None;
    createNode "Level 4" "heading" 4 None None ].

(** The same headings already nested, as an analyzer that builds the tree
    itself hands them to the filter. *)
Definition nested_levels : list OutlineNode :=
  [ Node (Hierarchy.heading "Level 1" 1)
      (Some [ Node (Hierarchy.heading "Level 2" 2)
                (Some [ Node (Hierarchy.heading "Level 3" 3)
                          (Some [ createNode "Level 4" "heading" 4 None None ]) ]) ]) ].

End DepthFilter.

(* ===================================================================== *)
(** ** Analyzer registry ([DocumentOutlineGenerator] in [src/index.ts]) *)
(* ===================================================================== *)

Module Registry.
Import Js.

(** What a promise of a forest settles to: a rejection message or the
    forest. *)
Definition Settled := (string + list OutlineNode)%type.

(** The [generate] method of an [OutlineGenerator]. *)
Definition OutlineGenerator := string -> GeneratorOptions -> Settled.

(** The outcome of the call itself: an exception thrown before any promise
    exists, or the promise returned by the generator. *)
Inductive Outcome :=
| Thrown (message : string)
| Returned (promise : Settled).

(** The generators that [registerDefaultGenerators] instantiates. *)
Record Defaults := mkDefaults {
  MarkdownGenerator : OutlineGenerator;
  JsonGenerator : OutlineGenerator;
  XmlGenerator : OutlineGenerator;
  YamlGenerator : OutlineGenerator;
  HtmlGenerator : OutlineGenerator;
  CsvGenerator : OutlineGenerator;
  JavaScriptGenerator : OutlineGenerator;
  TypeScriptGenerator : OutlineGenerator;
  PythonGenerator : OutlineGenerator;
  JavaGenerator : OutlineGenerator;
  CSharpGenerator : OutlineGenerator;
  CppGenerator : OutlineGenerator
}.

(** [this.generators.set(ext, ...)] for each default extension, in source
    order, starting from [generators]. *)
Definition registerDefaultGenerators (g : Defaults)
    (generators : gmap string OutlineGenerator) : gmap string OutlineGenerator :=
  let set k v (m : gmap string OutlineGenerator) := <[k := v]> m in
  set "cpp" (CppGenerator g)
  (set "cs" (CSharpGenerator g)
  (set "java" (JavaGenerator g)
  (set "py" (PythonGenerator g)
  (set "tsx" (TypeScriptGenerator g)
  (set "ts" (TypeScriptGenerator g)
  (set "jsx" (JavaScriptGenerator g)
  (set "js" (JavaScriptGenerator g)
  (set "csv" (CsvGenerator g)
  (set "htm" (HtmlGenerator g)
  (set "html" (HtmlGenerator g)
  (set "yml" (YamlGenerator g)
  (set "yaml" (YamlGenerator g)
  (set "xml" (XmlGenerator g)
  (set "json" (JsonGenerator g)
  (set "markdown" (MarkdownGenerator g)
  (set "md" (MarkdownGenerator g) generators)))))))))))))))).

(** The registry after [new DocumentOutlineGenerator()]. *)
Definition constructor (g : Defaults) : gmap string OutlineGenerator :=
  registerDefaultGenerators g ∅.

Definition registerGenerator (extension : string) (generator : OutlineGenerator)
    (generators : gmap string OutlineGenerator) : gmap string OutlineGenerator :=
  <[toLowerCase extension := generator]> generators.

Definition isSupported (generators : gmap string OutlineGenerator)
    (fileExtension : string) : bool :=
  bool_decide (is_Some (generators !! toLowerCase fileExtension)).

Definition generateFromContent (generators : gmap string OutlineGenerator)
    (content fileExtension : string) (options : GeneratorOptions) : Outcome :=
  match generators !! toLowerCase fileExtension with
  | None =>
      Thrown (String.append "No generator found for file extension: "
                            fileExtension)
  | Some generator => Returned (generator content options)
  end.

(** A registry fixture: every default generator resolves to the empty
    forest. *)
Definition empty_generator : OutlineGenerator := fun _ _ => inr [].

Definition empty_defaults : Defaults :=
  mkDefaults empty_generator empty_generator empty_generator empty_generator
             empty_generator empty_generator empty_generator empty_generator
             empty_generator empty_generator empty_generator empty_generator.

Definition no_options : GeneratorOptions := mkOptions None None None None None.

(** [message] contains [s]. *)
Definition mentions (message s : string) : Prop :=
  exists pre post, message = String.append pre (String.append s post).

End Registry.



(* ===================================================================== *)
(** ** Tabular inference, [src/generators/CsvGenerator.ts] *)
(* ===================================================================== *)

Module Csv.
Import Js.

(** What the host provides and the model leaves open: whether the URL
    parser accepts what follows a scheme, and whether [new Date(s)] is a
    valid date. *)
Record Runtime := mkRuntime {
  url_rest_ok : string -> bool;
  date_ok : string -> bool
}.

Definition quote : ascii := ascii_of_nat 34.
Definition tab : ascii := ascii_of_nat 9.

Inductive ColumnType :=
| string_t | number_t | boolean_t | date_t | email_t | url_t | phone_t | mixed_t.

Definition type_name (t : ColumnType) : string :=
  match t with
  | string_t => "string" | number_t => "number" | boolean_t => "boolean"
  | date_t => "date" | email_t => "email" | url_t => "url"
  | phone_t => "phone" | mixed_t => "mixed"
  end.

Record CsvColumn := mkColumn {
  name : string;
  index : nat;
  type : ColumnType;
  nullable : bool;
  uniqueValues : nat;
  sampleValues : list string;
  minLength : number;
  maxLength : number;
  min : option number;
  max : option number;
  avgLength : number
}.

Record CsvStats := mkStats {
  totalRows : nat;
  dataRows : nat;
  columns : list CsvColumn;
  delimiter : ascii;
  hasHeader : bool;
  encoding : string;
  emptyRows : nat
}.

(** *** [parseCsvLine] *)
Fixpoint parse_loop (delimiter : ascii) (line current : list ascii)
    (inQuotes : bool) (result : list string) : list string :=
  match line with
  | [] => result ++ [trim (str current)]
  | char :: rest =>
      if is_char quote char then
        match rest with
        | nextChar :: rest' =>
            if inQuotes && is_char quote nextChar
            then parse_loop delimiter rest' (current ++ [quote]) inQuotes result
            else parse_loop delimiter rest current (negb inQuotes) result
        | [] => parse_loop delimiter rest current (negb inQuotes) result
        end
      else if is_char delimiter char && negb inQuotes then
        parse_loop delimiter rest [] inQuotes (result ++ [trim (str current)])
      else parse_loop delimiter rest (current ++ [char]) inQuotes result
  end.

Definition parseCsvLine (line : string) (delimiter : ascii) : list string :=
  parse_loop delimiter (chars line) [] false [].

(** [content.split('\n')] *)
Fixpoint split_lines (l current : list ascii) : list string :=
  match l with
  | [] => [str current]
  | c :: l' =>
      if (code c =? 10)%nat
      then str current :: split_lines l' []
      else split_lines l' (current ++ [c])
  end.

Definition nonempty (s : string) : bool := 0 <? length s.

(** [content.split('\n').map(line => line.trim()).filter(line => line.length > 0)] *)
Definition lines_of (content : string) : list string :=
  List.filter nonempty (map trim (split_lines (chars content) [])).

(** *** [detectDelimiter] *)
Definition delimiters : list ascii := [","; ";"; tab; "|"; ":"]%char.

Definition rowLengths (lines : list string) (delimiter : ascii) : list number :=
  map (fun line => of_nat (List.length (parseCsvLine line delimiter)))
      (take 10 lines).

(** The score of one candidate, in the arithmetic of the code.  On an
    empty array the mean is [0 / 0], which is [NaN], and so is the
    score; it is not greater than [maxScore]. *)
Definition score (lines : list string) (delimiter : ascii) : number :=
  let rowLengths := rowLengths lines delimiter in
  let n := of_nat (List.length rowLengths) in
  let avgLength := div (fold_left add rowLengths (of_Z 0)) n in
  let variance :=
    div (fold_left (fun acc len => add acc (pow2 (sub len avgLength)))
                   rowLengths (of_Z 0))
        n in
  let consistency :=
    if lt (of_Z 1) avgLength then div (of_Z 1) (add (of_Z 1) variance)
    else of_Z 0 in
  let reasonableCount :=
    if le (of_Z 2) avgLength && le avgLength (of_Z 50) then of_Z 1
    else Fin (1 # 2) in
  mul (mul consistency reasonableCount) avgLength.

(** The body of the loop over the candidates: the pair is
    [(bestDelimiter, maxScore)]. *)
Definition consider (lines : list string) (st : ascii * number)
    (delimiter : ascii) : ascii * number :=
  let score := score lines delimiter in
  if lt (snd st) score then (delimiter, score) else st.

Definition detectDelimiter (lines : list string) : ascii :=
  fst (fold_left (consider lines) delimiters (","%char, of_Z 0)).

(** *** [detectHeader] *)
Definition has_letter (s : string) : bool := found (Chr is_letter) s.

(** A counting [for] loop: [body i] for [i = start, ..., start + n - 1]. *)
Fixpoint for_loop {S : Type} (n start : nat) (body : nat -> S -> S) (s : S) : S :=
  match n with
  | O => s
  | Datatypes.S n' => for_loop n' (Datatypes.S start) body (body start s)
  end.

Definition header_step (first second : string) (headerScore : Z) : Z :=
  let s1 := if isNaN_Number first && negb (isNaN_Number second)
            then headerScore + 2 else headerScore in
  let s2 := if (length second <? length first) && (3 <? length first)
            then s1 + 1 else s1 in
  let s3 := if has_letter first && negb (has_letter second)
            then s2 + 1 else s2 in
  if length first =? 0 then s3 - 2 else s3.

Definition detectHeader (rows : list (list string)) : bool :=
  match rows with
  | firstRow :: secondRow :: _ =>
      if negb (List.length firstRow =? List.length secondRow)%nat then false
      else
        let headerScore :=
          for_loop (List.length firstRow) 0
            (fun i s => header_step (nth i firstRow EmptyString)
                                    (nth i secondRow EmptyString) s)
            0 in
        0 <? headerScore
  | _ => false
  end.

(** *** [getColumnCount]: the [Map] keeps its keys in insertion order. *)
Fixpoint bump (count : nat) (counts : list (nat * nat)) : list (nat * nat) :=
  match counts with
  | [] => [(count, 1%nat)]
  | (k, v) :: counts' =>
      if (k =? count)%nat then (k, Datatypes.S v) :: counts'
      else (k, v) :: bump count counts'
  end.

Definition getColumnCount (rows : list (list string)) : nat :=
  let counts := fold_left (fun m row => bump (List.length row) m) rows [] in
  snd (fold_left
         (fun (st : nat * nat) (e : nat * nat) =>
            if (fst st <? snd e)%nat then (snd e, fst e) else st)
         counts (0%nat, 0%nat)).

(** *** Pattern tests *)
Definition not_space_at (c : ascii) : bool := negb (is_space c || is_char "@" c).

(** [/^[^\s@]+@[^\s@]+\.[^\s@]+$/] *)
Definition emailRegex : regex :=
  Cat (plus (Chr not_space_at))
 (Cat (lit "@")
 (Cat (plus (Chr not_space_at))
 (Cat (lit ".") (plus (Chr not_space_at))))).

Definition isEmail (value : string) : bool := matches emailRegex (trim value).

(** Without a base URL the parser fails unless the input, once its tabs
    and line breaks are removed and leading control characters and spaces
    are stripped, begins with a scheme and a colon. *)
Definition is_c0_or_space (c : ascii) : bool := (code c <=? 32)%nat.

Fixpoint drop_c0 (l : list ascii) : list ascii :=
  match l with
  | c :: l' => if is_c0_or_space c then drop_c0 l' else l
  | [] => []
  end.

Definition is_scheme_char (c : ascii) : bool :=
  is_letter c || is_digit c || is_char "+" c || is_char "-" c || is_char "." c.

Definition has_scheme (s : string) : bool :=
  let l := drop_c0 (List.filter (fun c => negb (is_char tab c || is_line_end c))
                                (chars s)) in
  matches (Cat (Chr is_letter)
          (Cat (Star (Chr is_scheme_char)) (Cat (lit ":") (Star any))))
          (str l).

Definition isUrl (rt : Runtime) (value : string) : bool :=
  has_scheme (trim value) && url_rest_ok rt (trim value).

Definition d2 : regex := times 2 (Chr is_digit).
Definition d4 : regex := times 4 (Chr is_digit).

Definition datePatterns : list regex :=
  [ Cat d4 (Cat (lit "-") (Cat d2 (Cat (lit "-") d2)));
    Cat d2 (Cat (lit "/") (Cat d2 (Cat (lit "/") d4)));
    Cat d2 (Cat (lit "-") (Cat d2 (Cat (lit "-") d4)));
    Cat d4 (Cat (lit "/") (Cat d2 (Cat (lit "/") d2)));
    Cat d2 (Cat (lit ".") (Cat d2 (Cat (lit ".") d4))) ].

Definition isDate (rt : Runtime) (value : string) : bool :=
  if length value <? 6 then false
  else if negb (date_ok rt value) then false
  else existsb (fun pattern => matches pattern (trim value)) datePatterns.

Definition isBoolean (value : string) : bool :=
  existsb (String.eqb (toLowerCase (trim value)))
          ["true"; "false"; "yes"; "no"; "1"; "0"; "y"; "n"]%string.

Definition isNumeric (value : string) : bool :=
  negb (isNaN_Number value) && negb (String.eqb (trim value) EmptyString).

(** *** [inferColumnType] *)
Record Counts := mkCounts {
  numericCount : nat;
  booleanCount : nat;
  dateCount : nat;
  emailCount : nat;
  urlCount : nat
}.

Definition add_if (b : bool) (n : nat) : nat := if b then Datatypes.S n else n.

(** The body of [for (const value of sample)]. *)
Definition tally (rt : Runtime) (c : Counts) (value : string) : Counts :=
  mkCounts (add_if (isNumeric value) (numericCount c))
           (add_if (isBoolean value) (booleanCount c))
           (add_if (isDate rt value) (dateCount c))
           (add_if (isEmail value) (emailCount c))
           (add_if (isUrl rt value) (urlCount c)).

Definition threshold : Q := 8 # 10.

(** [count / total >= threshold].  The counts are those of a sample of
    at most 100 values, where the quotient of the code, rounded, is at
    least the number [0.8] exactly when the quotient itself is at least
    [8/10]. *)
Definition reaches (count total : nat) : bool :=
  Qle_bool threshold (inject_Z (Z.of_nat count) / inject_Z (Z.of_nat total)).

Definition positive (n : nat) : bool := (0 <? n)%nat.

Definition inferColumnType (rt : Runtime) (values : list string) : ColumnType :=
  match values with
  | [] => string_t
  | _ =>
      let sample := take 100 values in
      let c := fold_left (tally rt) sample (mkCounts 0 0 0 0 0) in
      let total := List.length sample in
      if reaches (emailCount c) total then email_t
      else if reaches (urlCount c) total then url_t
      else if reaches (booleanCount c) total then boolean_t
      else if reaches (numericCount c) total then number_t
      else if reaches (dateCount c) total then date_t
      else
        let typeCount :=
          List.length
            (List.filter positive
               [numericCount c; booleanCount c; dateCount c;
                emailCount c; urlCount c]) in
        if (1 <? typeCount)%nat then mixed_t else string_t
  end.

(** *** [analyzeColumns] *)

(** [Array.from(new Set(l))]: first occurrences, in order. *)
Fixpoint unique_from (seen l : list string) : list string :=
  match l with
  | [] => []
  | x :: l' =>
      if existsb (String.eqb x) seen then unique_from seen l'
      else x :: unique_from (x :: seen) l'
  end.

Definition unique (l : list string) : list string := unique_from [] l.

Definition getSampleValues (values : list string) (count : nat) : list string :=
  take count (unique values).

(** [`${n}`] for a non-negative integer. *)
Definition decimal (n : nat) : string := NilEmpty.string_of_uint (Nat.to_uint n).

Definition default_name (colIndex : nat) : string :=
  String.append "Column_" (decimal (colIndex + 1)).

(** [row[colIndex] || ''] *)
Definition cell (row : list string) (colIndex : nat) : string :=
  nth colIndex row EmptyString.

(** [!row[colIndex] || row[colIndex].trim() === ''] *)
Definition blank (row : list string) (colIndex : nat) : bool :=
  match row !! colIndex with
  | None => true
  | Some s => String.eqb s EmptyString || String.eqb (trim s) EmptyString
  end.

Definition column_values (dataRows : list (list string)) (colIndex : nat)
  : list string :=
  List.filter nonempty (map (fun row => cell row colIndex) dataRows).

Definition lengths (values : list string) : list number :=
  map (fun v => of_Z (length v)) values.

Definition analyzeColumn (rt : Runtime) (headers : list string)
    (dataRows : list (list string)) (colIndex : nat) : CsvColumn :=
  let columnName :=
    match headers !! colIndex with
    | Some h => if nonempty h then h else default_name colIndex
    | None => default_name colIndex
    end in
  let values := column_values dataRows colIndex in
  let type := inferColumnType rt values in
  let numericValues :=
    List.filter (fun v => negb (isNaN v)) (map parseFloat values) in
  let with_numbers :=
    match type, numericValues with
    | number_t, _ :: _ => true
    | _, _ => false
    end in
  mkColumn columnName colIndex type
           (existsb (fun row => blank row colIndex) dataRows)
           (List.length (unique values))
           (getSampleValues values 5)
           (Math_min (lengths values))
           (Math_max (lengths values))
           (if with_numbers then Some (Math_min numericValues) else None)
           (if with_numbers then Some (Math_max numericValues) else None)
           (or_else (div (sum (lengths values)) (of_nat (List.length values)))
                    (of_Z 0)).

Definition analyzeColumns (rt : Runtime) (headers : list string)
    (dataRows : list (list string)) (columnCount : nat) : list CsvColumn :=
  for_loop columnCount 0
    (fun colIndex columns => columns ++ [analyzeColumn rt headers dataRows colIndex])
    [].

(** *** [analyzeCsv] *)
Definition analyzeCsv (rt : Runtime) (content : string) : CsvStats :=
  let lines := lines_of content in
  match lines with
  | [] => mkStats 0 0 [] ","%char false "UTF-8" 0
  | _ =>
      let delimiter := detectDelimiter lines in
      let rows := map (fun line => parseCsvLine line delimiter) lines in
      let hasHeader := detectHeader rows in
      let columnCount := getColumnCount rows in
      let headers :=
        match hasHeader, rows with
        | true, row0 :: _ => take columnCount row0
        | _, _ => map default_name (seq 0 columnCount)
        end in
      let dataRows := if hasHeader then drop 1 rows else rows in
      mkStats (List.length lines) (List.length dataRows)
              (analyzeColumns rt headers dataRows columnCount)
              delimiter hasHeader "UTF-8"
              (List.length (split_lines (chars content) []) - List.length lines)
  end.

(** *** [statsToOutline] *)
Definition replace_chars (keep : ascii -> bool) (by_ : ascii) (s : string) : string :=
  str (map (fun c => if keep c then c else by_) (chars s)).

(** [generateId]; a [line] of [0] is falsy and adds no suffix. *)
Definition generateId (title type : string) (line : option nat) : string :=
  let cleanTitle :=
    replace_chars (fun c => between 97 122 c || is_digit c) "-"
                  (toLowerCase title) in
  let suffix :=
    match line with
    | Some (Datatypes.S n) => String.append "-" (decimal (Datatypes.S n))
    | _ => EmptyString
    end in
  String.append type (String.append "-" (String.append cleanTitle suffix)).

(** [Math.round(a * 100) / 100] *)
Definition round2 (a : number) : number :=
  div (Math_round (mul a (of_Z 100))) (of_Z 100).

Definition opt_num (o : option number) : value :=
  match o with
  | Some n => VNum n
  | None => VUndefined
  end.

Definition column_metadata (column : CsvColumn) : object :=
  [ ("index", VNum (of_nat (index column)));
    ("type", VStr (type_name (type column)));
    ("nullable", VBool (nullable column));
    ("uniqueValues", VNum (of_nat (uniqueValues column)));
    ("sampleValues", VStrs (sampleValues column));
    ("minLength", VNum (minLength column));
    ("maxLength", VNum (maxLength column));
    ("avgLength", VNum (round2 (avgLength column)));
    ("min", opt_num (min column));
    ("max", opt_num (max column)) ]%string.

Definition columnNode (column : CsvColumn) : OutlineNode :=
  set_id (createNode (name column)
                     (String.append (type_name (type column)) " column")
                     2 None (Some (column_metadata column)))
         (generateId (name column) "column" (Some (index column))).

Definition statsToOutline (stats : CsvStats) (options : GeneratorOptions)
  : list OutlineNode :=
  let nodes :=
    match columns stats with
    | [] => []
    | _ =>
        let columnsNode :=
          set_id (createNode "Columns" "section" 1 None
                    (Some [("count"%string,
                            VNum (of_nat (List.length (columns stats))))]))
                 "csv-columns" in
        [set_children columnsNode (map columnNode (columns stats))]
    end in
  DepthFilter.filterByDepth nodes (maxDepth options).

Definition generate (rt : Runtime) (content : string) (options : GeneratorOptions)
  : list OutlineNode :=
  statsToOutline (analyzeCsv rt content) options.

(** The scenario of the specification as text and as rows. *)
Definition LF : string := String (ascii_of_nat 10) EmptyString.

Definition people_text : string :=
  String.append "Name,Age"
    (String.append LF (String.append "Alice,30" (String.append LF "Bob,25"))).

Definition people_rows : list (list string) :=
  [["Name"; "Age"]; ["Alice"; "30"]; ["Bob"; "25"]]%string.

Definition letters_text : string :=
  String.append "a,b,c"
    (String.append LF (String.append "1,2,3" (String.append LF "4,5,6"))).

(** A host in which every URL with a scheme parses and every string is a
    valid date; used where a concrete host is needed. *)
Definition permissive : Runtime := mkRuntime (fun _ => true) (fun _ => true).

End Csv.

(* ===================================================================== *)
(** ** Tabular inference, the functions of [src/grammars/csv.pegjs]

    The rows are the grammar's parse result; only the analysis functions
    of the grammar file are modelled. *)
(* ===================================================================== *)

Module CsvGrammar.
Import Js.
Import Csv (Runtime, url_rest_ok, date_ok, ColumnType, string_t, number_t,
            boolean_t, date_t, email_t, url_t, phone_t, mixed_t,
            for_loop, add_if, reaches, nonempty, cell, blank, column_values,
            unique, getSampleValues, default_name, has_letter, has_scheme).

Record Statistics := mkStatistics {
  minLength : option number;
  maxLength : option number;
  avgLength : option number;
  min : option number;
  max : option number;
  avg : option number;
  median : option number
}.

Record Column := mkColumn {
  name : string;
  type : ColumnType;
  nullable : bool;
  uniqueValues : nat;
  sampleValues : list string;
  statistics : Statistics
}.

Record Analysis := mkAnalysis {
  totalRows : nat;
  dataRows : nat;
  columnCount : nat;
  delimiter : ascii;
  hasHeader : bool;
  columns : list Column
}.

(** [sorted[i]]; an index outside the array reads [undefined], which is
    [NaN] in arithmetic. *)
Definition at_index (l : list number) (i : Z) : number :=
  if i <? 0 then NaN else nth (Z.to_nat i) l NaN.

Definition calculateMedian (numbers : list number) : number :=
  let sorted := sort numbers in
  let len := Z.of_nat (List.length sorted) in
  let mid := len / 2 in
  if len mod 2 =? 0
  then div (add (at_index sorted (mid - 1)) (at_index sorted mid)) (of_Z 2)
  else at_index sorted mid.

(** The pattern tests.  The grammar file writes its escapes with two
    backslashes; in a regular expression literal that is a literal
    backslash followed by an ordinary character. *)
Definition backslash : ascii := ascii_of_nat 92.

(** [[^\\s@]] *)
Definition email_atom (c : ascii) : bool :=
  negb (is_char backslash c || is_char "s" c || is_char "@" c).

(** [/^[^\\s@]+@[^\\s@]+\\.[^\\s@]+$/] *)
Definition emailRegex : regex :=
  Cat (plus (Chr email_atom))
 (Cat (lit "@")
 (Cat (plus (Chr email_atom))
 (Cat (lit backslash)
 (Cat (Chr (fun c => negb (is_line_end c))) (plus (Chr email_atom)))))).

Definition isEmail (value : string) : bool := matches emailRegex value.

(** [/^[\\+]?[1-9]?[0-9]{7,15}$/] *)
Definition phoneRegex : regex :=
  Cat (opt (Chr (fun c => is_char backslash c || is_char "+" c)))
 (Cat (opt (Chr (between 49 57)))
      (range 7 8 (Chr is_digit))).

(** [value.replace(/[\\s\\-\\(\\)]/g, '')]: the class holds the backslash,
    [s] and the two parentheses. *)
Definition phone_noise (c : ascii) : bool :=
  is_char backslash c || is_char "s" c || is_char "(" c || is_char ")" c.

Definition isPhone (value : string) : bool :=
  matches phoneRegex
          (str (List.filter (fun c => negb (phone_noise c)) (chars value))).

Definition isNumeric (value : string) : bool :=
  negb (isNaN_Number value) && negb (String.eqb (trim value) EmptyString).

Definition isBoolean (value : string) : bool :=
  existsb (String.eqb (toLowerCase value))
          ["true"; "false"; "yes"; "no"; "1"; "0"; "y"; "n"]%string.

Definition isDate (rt : Runtime) (value : string) : bool :=
  if length value <? 6 then false else date_ok rt value.

Definition isUrl (rt : Runtime) (value : string) : bool :=
  has_scheme value && url_rest_ok rt value.

Record Patterns := mkPatterns {
  numeric : nat;
  boolean : nat;
  date : nat;
  email : nat;
  url : nat;
  phone : nat
}.

(** The state of the loop over the sample: the counters, [numericValues]
    and [lengths]. *)
Record Loop := mkLoop {
  patterns : Patterns;
  numericValues : list number;
  lengths : list number
}.

Definition visit (rt : Runtime) (st : Loop) (value : string) : Loop :=
  let trimmed := trim value in
  let p := patterns st in
  mkLoop
    (mkPatterns (add_if (isNumeric trimmed) (numeric p))
                (add_if (isBoolean trimmed) (boolean p))
                (add_if (isDate rt trimmed) (date p))
                (add_if (isEmail trimmed) (email p))
                (add_if (isUrl rt trimmed) (url p))
                (add_if (isPhone trimmed) (phone p)))
    (if isNumeric trimmed
     then numericValues st ++ [parseFloat trimmed]
     else numericValues st)
    (lengths st ++ [of_Z (length trimmed)]).

Definition no_statistics : Statistics :=
  mkStatistics None None None None None None None.

Definition analyzeColumnValues (rt : Runtime) (values : list string)
  : ColumnType * Statistics :=
  match values with
  | [] => (string_t, no_statistics)
  | _ =>
      let sample := take 100 values in
      let st := fold_left (visit rt) sample
                          (mkLoop (mkPatterns 0 0 0 0 0 0) [] []) in
      let p := patterns st in
      let total := List.length sample in
      let type :=
        if reaches (email p) total then email_t
        else if reaches (url p) total then url_t
        else if reaches (phone p) total then phone_t
        else if reaches (boolean p) total then boolean_t
        else if reaches (numeric p) total then number_t
        else if reaches (date p) total then date_t
        else string_t in
      let with_numbers :=
        match type, numericValues st with
        | number_t, _ :: _ => true
        | _, _ => false
        end in
      let numbers (x : number) := if with_numbers then Some x else None in
      (type,
       mkStatistics
         (Some (Math_min (lengths st)))
         (Some (Math_max (lengths st)))
         (Some (div (sum (lengths st)) (of_nat (List.length (lengths st)))))
         (numbers (Math_min (numericValues st)))
         (numbers (Math_max (numericValues st)))
         (numbers (div (sum (numericValues st))
                       (of_nat (List.length (numericValues st)))))
         (numbers (calculateMedian (numericValues st))))
  end.

Definition analyzeColumn (rt : Runtime) (headers : list string)
    (dataRows : list (list string)) (colIndex : nat) : Column :=
  let columnName :=
    match headers !! colIndex with
    | Some h => if nonempty h then h else default_name colIndex
    | None => default_name colIndex
    end in
  let values := column_values dataRows colIndex in
  let analysis := analyzeColumnValues rt values in
  mkColumn columnName (fst analysis)
           (existsb (fun row => blank row colIndex) dataRows)
           (List.length (unique values))
           (getSampleValues values 5)
           (snd analysis).

Definition analyzeColumns (rt : Runtime) (headers : list string)
    (dataRows : list (list string)) (columnCount : nat) : list Column :=
  for_loop columnCount 0
    (fun colIndex columns => columns ++ [analyzeColumn rt headers dataRows colIndex])
    [].

Definition header_step (first second : string) (headerScore : Z) : Z :=
  let s1 := if isNaN_Number first && negb (isNaN_Number second)
            then headerScore + 2 else headerScore in
  let s2 := if (length second <? length first) && (3 <? length first)
            then s1 + 1 else s1 in
  if has_letter first && negb (has_letter second) then s2 + 1 else s2.

Definition detectHeader (rows : list (list string)) (columnCount : nat) : bool :=
  match rows with
  | row0 :: row1 :: _ =>
      let firstRow := take columnCount row0 in
      let secondRow := take columnCount row1 in
      let headerScore :=
        for_loop (Nat.min (List.length firstRow) (List.length secondRow)) 0
          (fun i s => header_step (cell firstRow i) (cell secondRow i) s)
          0 in
      0 <? headerScore
  | _ => false
  end.

(** [Object.keys(columnCounts)] lists the integer keys in ascending order;
    the reduction keeps the later key unless the earlier one is strictly
    more frequent. *)
Definition frequency (rows : list (list string)) (k : nat) : nat :=
  List.length (List.filter (fun row => (List.length row =? k)%nat) rows).

Definition modal_length (rows : list (list string)) : nat :=
  let longest := fold_left Nat.max (map (@List.length string) rows) 0%nat in
  let keys := List.filter (fun k => (0 <? frequency rows k)%nat)
                          (seq 0 (Datatypes.S longest)) in
  match keys with
  | [] => 0%nat
  | k :: keys' =>
      fold_left (fun a b => if (frequency rows b <? frequency rows a)%nat
                            then a else b)
                keys' k
  end.

Definition analyzeCSV (rt : Runtime) (rows : list (list string)) : Analysis :=
  let nonEmptyRows := List.filter (fun row => (0 <? List.length row)%nat) rows in
  match nonEmptyRows with
  | [] => mkAnalysis 0 0 0 ","%char false []
  | _ =>
      let columnCount := modal_length nonEmptyRows in
      let hasHeader := detectHeader nonEmptyRows columnCount in
      let headers :=
        match hasHeader, nonEmptyRows with
        | true, row0 :: _ => take columnCount row0
        | _, _ => map default_name (seq 0 columnCount)
        end in
      let dataRows := if hasHeader then drop 1 nonEmptyRows else nonEmptyRows in
      mkAnalysis (List.length rows) (List.length dataRows) columnCount ","%char
                 hasHeader (analyzeColumns rt headers dataRows columnCount)
  end.

End CsvGrammar.

(* ===================================================================== *)
(** ** The tabular rules as the specification words them

    These definitions follow the sentences of the specification, not the
    source; the theorems compare them with the source's functions. *)
(* ===================================================================== *)

Module Claimed.
Import Js.
Import Csv (Runtime, ColumnType, string_t, number_t, boolean_t, date_t,
            email_t, url_t, phone_t, mixed_t, reaches, positive, has_letter).

(** *** Delimiter score: mean, variance, consistency, bonus

    The quantities of the specification, in the arithmetic of numbers:
    sums run from the left, starting at [0]. *)
Definition total (l : list number) : number := fold_left add l (of_Z 0).

Definition mean (l : list number) : number :=
  div (total l) (of_nat (List.length l)).

Definition variance (l : list number) : number :=
  mean (map (fun x => pow2 (sub x (mean l))) l).

(** Consistency times reasonableness bonus times mean. *)
Definition score_of (mu sigma2 : number) : number :=
  let consistency :=
    if lt (of_Z 1) mu then div (of_Z 1) (add (of_Z 1) sigma2) else of_Z 0 in
  let bonus :=
    if le (of_Z 2) mu && le mu (of_Z 50) then of_Z 1 else Fin (1 # 2) in
  mul (mul consistency bonus) mu.

Definition delimiter_score (rowLengths : list number) : number :=
  score_of (mean rowLengths) (variance rowLengths).

(** [best] has the strictly highest score among the candidates before
    it, and no candidate after it scores higher: the highest score wins
    and a tie keeps the earliest candidate.  A score that is [NaN]
    compares with nothing: such a candidate before [best] counts as
    lower, and next to such a score no candidate counts as higher. *)
Definition earliest_best (f : ascii -> number) (candidates : list ascii)
    (best : ascii) : Prop :=
  exists before after,
    candidates = before ++ best :: after /\
    (forall d, In d before -> lt (f d) (f best) = true \/ isNaN (f d) = true) /\
    (forall d, In d after ->
       le (f d) (f best) = true \/ isNaN (f d) = true \/ isNaN (f best) = true).

(** The state of the loop of [detectDelimiter] after the candidates
    [processed]: [best] is among them, every candidate before it scores
    lower, none after it scores above [maxScore], and [maxScore] is the
    score of [best] unless no candidate has scored above [0] yet. *)
Definition running_best (f : ascii -> number) (processed : list ascii)
    (best : ascii) (maxScore : number) : Prop :=
  exists before after,
    processed = before ++ best :: after /\
    (forall d, In d before -> lt (f d) (f best) = true \/ isNaN (f d) = true) /\
    (forall d, In d after -> lt maxScore (f d) = false) /\
    isNaN maxScore = false /\
    (maxScore = f best \/
     (before = [] /\ maxScore = of_Z 0 /\ lt maxScore (f best) = false)).

(** *** Header score: [+2], [+1], [+1] per compared pair of cells *)
Definition header_points (cell0 cell1 : string) : Z :=
  (if isNaN_Number cell0 && negb (isNaN_Number cell1) then 2 else 0) +
  (if (length cell1 <? length cell0) && (3 <? length cell0) then 1 else 0) +
  (if has_letter cell0 && negb (has_letter cell1) then 1 else 0).

Definition header_score (row0 row1 : list string) : Z :=
  fold_right Z.add 0 (zip_with header_points row0 row1).

Definition header_present (rows : list (list string)) : bool :=
  match rows with
  | row0 :: row1 :: _ => 0 <? header_score row0 row1
  | _ => false
  end.

(** The points of [CsvGenerator.detectHeader]: the same, less [2] when the
    first cell is empty. *)
Definition header_points_penalised (cell0 cell1 : string) : Z :=
  header_points cell0 cell1 - (if length cell0 =? 0 then 2 else 0).

(** *** Type inference: hit counts and the threshold *)
Definition hits (test : string -> bool) (sample : list string) : nat :=
  List.length (List.filter test sample).

(** The type of the first test, in priority order, whose hit ratio reaches
    the threshold. *)
Definition first_reaching (tests : list ((string -> bool) * ColumnType))
    (sample : list string) : option ColumnType :=
  match List.find (fun t => reaches (hits (fst t) sample) (List.length sample))
                  tests with
  | Some t => Some (snd t)
  | None => None
  end.

(** How many of the tests have at least one hit. *)
Definition kinds_hit (tests : list ((string -> bool) * ColumnType))
    (sample : list string) : nat :=
  List.length (List.filter (fun t => positive (hits (fst t) sample)) tests).

Definition mixed_or_string (tests : list ((string -> bool) * ColumnType))
    (sample : list string) : ColumnType :=
  if (1 <? kinds_hit tests sample)%nat then mixed_t else string_t.

(** The six tests of the specification, in its priority order. *)
Definition six_tests (rt : Runtime) : list ((string -> bool) * ColumnType) :=
  [ (Csv.isEmail, email_t); (Csv.isUrl rt, url_t); (CsvGrammar.isPhone, phone_t);
    (Csv.isBoolean, boolean_t); (Csv.isNumeric, number_t);
    (Csv.isDate rt, date_t) ].

Definition inferred_type (rt : Runtime) (values : list string) : ColumnType :=
  let sample := take 100 values in
  match first_reaching (six_tests rt) sample with
  | Some t => t
  | None => mixed_or_string (six_tests rt) sample
  end.

(** The five tests of [CsvGenerator.inferColumnType]. *)
Definition five_tests (rt : Runtime) : list ((string -> bool) * ColumnType) :=
  [ (Csv.isEmail, email_t); (Csv.isUrl rt, url_t);
    (Csv.isBoolean, boolean_t); (Csv.isNumeric, number_t);
    (Csv.isDate rt, date_t) ].

(** The six tests of the grammar's [analyzeColumnValues]. *)
Definition grammar_tests (rt : Runtime) : list ((string -> bool) * ColumnType) :=
  [ (CsvGrammar.isEmail, email_t); (CsvGrammar.isUrl rt, url_t);
    (CsvGrammar.isPhone, phone_t); (CsvGrammar.isBoolean, boolean_t);
    (CsvGrammar.isNumeric, number_t); (CsvGrammar.isDate rt, date_t) ].

End Claimed.

(* ===================================================================== *)
(** ** The heading-aware assembler of [src/grammars/markdown.pegjs] *)
(* ===================================================================== *)

Module HeadingHierarchy.
Import Hierarchy.

(** [node.type] *)
Definition type_at (h : heap) (r : nat) : string :=
  match h !! r with
  | Some o => type (obj_data o)
  | None => EmptyString
  end.

(** One iteration of the loop of the grammar's [buildHierarchy]: a heading
    closes the items that are not shallower, is attached and is pushed;
    any other node is attached to the current top, or to the result when
    the stack is empty, and the stack is left alone. *)
Definition step (st : state) (node : nat) : state :=
  if String.eqb (type_at (store st) node) "heading" then
    let stack' := pop_stack (store st) (depth_at (store st) node) (stack st) in
    match stack' with
    | [] => mkState (result st ++ [node]) (node :: stack') (store st)
    | parent :: _ =>
        mkState (result st) (node :: stack') (push_child (store st) parent node)
    end
  else
    match stack st with
    | parent :: _ =>
        mkState (result st) (stack st) (push_child (store st) parent node)
    | [] => mkState (result st ++ [node]) (stack st) (store st)
    end.

Definition buildHierarchy (h : heap) (nodes : list nat) : list nat * heap :=
  let st := fold_left step nodes (mkState [] [] h) in
  (result st, store st).

(** [after] is [before] with the references [added] appended; a field that
    receives nothing keeps its state, absent or not. *)
Definition appended (before after : option (list nat)) (added : list nat) : Prop :=
  match added with
  | [] => after = before
  | _ => after = Some (default [] before ++ added)
  end.

End HeadingHierarchy.

(* ===================================================================== *)
(** ** The utility methods of [OutlineGenerator]: [createAnchor],
       [getPosition] *)
(* ===================================================================== *)

Module Utilities.
Import Js.

Definition hyphen : ascii := "-"%char.

(** [\w] *)
Definition is_word (c : ascii) : bool :=
  is_letter c || is_digit c || is_char "_" c.

(** [l.replace(/p+/g, by_)]: every maximal run of characters in [p] becomes
    one [by_]; [in_run] tells that the previous character was in [p]. *)
Fixpoint squeeze (p : ascii -> bool) (by_ : ascii) (in_run : bool)
    (l : list ascii) : list ascii :=
  match l with
  | [] => []
  | c :: l' =>
      if p c then
        if in_run then squeeze p by_ true l' else by_ :: squeeze p by_ true l'
      else c :: squeeze p by_ false l'
  end.

(** [l.replace(/^-|-$/g, '')]: the first match is a hyphen at the start,
    the next one a hyphen at the end of what follows. *)
Definition strip_first (l : list ascii) : list ascii :=
  match l with
  | c :: r => if is_char hyphen c then r else l
  | [] => []
  end.

Definition strip_last (l : list ascii) : list ascii :=
  match rev l with
  | c :: r => if is_char hyphen c then rev r else l
  | [] => []
  end.

Definition createAnchor (title : string) : string :=
  let lowered := chars (toLowerCase title) in
  let kept :=
    List.filter (fun c => is_word c || is_space c || is_char hyphen c) lowered in
  let dashed := squeeze is_space hyphen false kept in
  let single := squeeze (is_char hyphen) hyphen false dashed in
  str (strip_last (strip_first single)).

(** The characters an anchor is made of. *)
Definition anchor_char (c : ascii) : bool :=
  between 97 122 c || is_digit c || is_char "_" c || is_char hyphen c.

Fixpoint no_double_hyphen (l : list ascii) : bool :=
  match l with
  | a :: (b :: _) as l' =>
      negb (is_char hyphen a && is_char hyphen b) && no_double_hyphen l'
  | _ => true
  end.

Definition head_not_hyphen (l : list ascii) : bool :=
  match l with
  | c :: _ => negb (is_char hyphen c)
  | [] => true
  end.

Definition no_edge_hyphen (l : list ascii) : bool :=
  head_not_hyphen l && head_not_hyphen (rev l).

(** Lower-case letters, digits, underscores and single inner hyphens. *)
Definition well_formed_anchor (s : string) : bool :=
  forallb anchor_char (chars s) && no_double_hyphen (chars s) &&
  no_edge_hyphen (chars s).

(** The characters of the cleaned title inside an identifier. *)
Definition id_char (c : ascii) : bool :=
  between 97 122 c || is_digit c || is_char hyphen c.

(** [content.substring(0, index)]: an index below zero counts as zero and
    one beyond the end as the end. *)
Definition prefix (content : string) (index : Z) : list ascii :=
  take (Z.to_nat index) (chars content).

(** [getPosition(content, index)] *)
Definition getPosition (content : string) (index : Z) : Position :=
  let lines := Csv.split_lines (prefix content index) [] in
  mkPosition (Z.of_nat (List.length lines))
             (Js.length (List.last lines EmptyString) + 1).

(** The index that a line and column designate in [content]: the lengths
    of the lines before, each with its line break, and the column. *)
Definition offset_of (content : string) (position : Position) : Z :=
  fold_right Z.add 0
    (map (fun l => Js.length l + 1)
         (take (Z.to_nat (pos_line position - 1))
               (Csv.split_lines (chars content) []))) +
  (pos_column position - 1).

End Utilities.


(** Vocabulary for the row-length statistics of [getColumnCount]. *)
Module RowLengths.

(** How often [n] occurs in [l]. *)
Definition occurrences (n : nat) (l : list nat) : nat :=
  List.length (List.filter (Nat.eqb n) l).

(** The distinct elements of [l] in the order of their first occurrence:
    the key order of a [Map] filled by going through [l]. *)
Definition first_seen (l : list nat) : list nat :=
  fold_left (fun keys n => if existsb (Nat.eqb n) keys then keys else keys ++ [n])
            l [].

Definition entry (l : list nat) (n : nat) : nat * nat := (n, occurrences n l).

End RowLengths.

(** * Switching between the hand-written and the grammar-based analyzers
    ([src/index.ts], [usePeggyGenerators] and [setPeggyGenerators]) *)
Module PeggySwitch.
Import Registry.

(** The generator classes of the module: the defaults and the two
    grammar-based replacements. *)
Record Classes := mkClasses {
  plain : Defaults;
  PeggyMarkdownGenerator : OutlineGenerator;
  PeggyCsvGenerator : OutlineGenerator
}.

(** What [registerDefaultGenerators] instantiates for a given value of
    [this.usePeggyGenerators].  This version of the method sets [md],
    [markdown] and [csv] before the other extensions; the keys are
    distinct, so the resulting map is that of the same [set] calls in
    the order of [Registry.registerDefaultGenerators]. *)
Definition defaults_for (classes : Classes) (usePeggyGenerators : bool) : Defaults :=
  if usePeggyGenerators then
    mkDefaults (PeggyMarkdownGenerator classes)
               (JsonGenerator (plain classes))
               (XmlGenerator (plain classes))
               (YamlGenerator (plain classes))
               (HtmlGenerator (plain classes))
               (PeggyCsvGenerator classes)
               (JavaScriptGenerator (plain classes))
               (TypeScriptGenerator (plain classes))
               (PythonGenerator (plain classes))
               (JavaGenerator (plain classes))
               (CSharpGenerator (plain classes))
               (CppGenerator (plain classes))
  else plain classes.

(** The fields of a [DocumentOutlineGenerator]. *)
Record Instance := mkInstance {
  generators : gmap string OutlineGenerator;
  usePeggyGenerators : bool
}.

(** [new DocumentOutlineGenerator(options)]; a missing option is [false]. *)
Definition create (classes : Classes) (option : option bool) : Instance :=
  let usePeggyGenerators := default false option in
  mkInstance (registerDefaultGenerators (defaults_for classes usePeggyGenerators) ∅)
             usePeggyGenerators.

(** [setPeggyGenerators(enabled)]: the flag is stored and the defaults
    are registered again, on top of the current map. *)
Definition setPeggyGenerators (classes : Classes) (enabled : bool)
    (this : Instance) : Instance :=
  mkInstance (registerDefaultGenerators (defaults_for classes enabled)
                                        (generators this))
             enabled.

(** [registerGenerator] on an instance. *)
Definition register (extension : string) (generator : OutlineGenerator)
    (this : Instance) : Instance :=
  mkInstance (registerGenerator extension generator (generators this))
             (usePeggyGenerators this).

Definition default_extension_names : list string :=
  ["md"; "markdown"; "json"; "xml"; "yaml"; "yml"; "html"; "htm"; "csv";
   "js"; "jsx"; "ts"; "tsx"; "py"; "java"; "cs"; "cpp"]%string.

End PeggySwitch.

(* ===================================================================== *)
(** ** Markdown headings ([MarkdownGenerator.generate]) *)
(* ===================================================================== *)

Module Markdown.
Import Js Model.

(** [.] without the [s] flag: any character but a line terminator. *)
Definition is_dot (c : ascii) : bool := negb (is_line_end c).

Definition is_hash (c : ascii) : bool := is_char "#" c.

(** The length of the longest prefix of [l] made of characters in [p]. *)
Fixpoint leading (p : ascii -> bool) (l : list ascii) : nat :=
  match l with
  | c :: l' => if p c then Datatypes.S (leading p l') else 0%nat
  | [] => 0%nat
  end.

(** The numbers of characters a greedy quantifier [p{lo,hi}] takes from
    the front of [l], in the order in which the matcher tries them: as
    many as possible first, one fewer each time it backtracks.  [None]
    is no upper bound. *)
Definition greedy (p : ascii -> bool) (lo : nat) (hi : option nat)
    (l : list ascii) : list nat :=
  let most :=
    match hi with
    | Some hi => Nat.min hi (leading p l)
    | None => leading p l
    end in
  rev (seq lo (most + 1 - lo)).

(** The first attempt that succeeds. *)
Fixpoint first_some {A B : Type} (f : A -> option B) (l : list A) : option B :=
  match l with
  | [] => None
  | x :: l' =>
      match f x with
      | Some y => Some y
      | None => first_some f l'
      end
  end.

(** [line.match(/^(#{1,6})\s+(.+)$/)]: the captures [hashes] and [title]
    of the first successful attempt, on ASCII. *)
Definition headingMatch (line : string) : option (string * string) :=
  let l := chars line in
  first_some
    (fun k =>
       first_some
         (fun w =>
            first_some
              (fun t =>
                 match drop (k + w + t) l with
                 | [] => Some (str (take k l), str (take t (drop (k + w) l)))
                 | _ :: _ => None
                 end)
              (greedy is_dot 1 None (drop (k + w) l)))
         (greedy is_space 1 None (drop k l)))
    (greedy is_hash 1 (Some 6%nat) l).

(** What [matter(content)] returns: the text after the front matter, the
    front-matter data as the metadata value it becomes, and whether the
    data has a key. *)
Record Matter := mkMatter {
  content : string;
  data : value;
  has_keys : bool
}.

Definition set_anchor (n : OutlineNode) (new_anchor : string) : OutlineNode :=
  match n with
  | Node d c =>
      Node (mkData (title d) (type d) (depth d) (line d) (column d)
                   (metadata d) (id d) (Some new_anchor)) c
  end.

(** The body of the loop for line [i] (counted from [0]): the node that
    is pushed, if the line is a heading. *)
Definition heading_node (parsed : Matter) (options : GeneratorOptions)
    (i : nat) (line : string) : option OutlineNode :=
  match headingMatch line with
  | Some (hashes, title) =>
      let depth := length hashes in
      let cleanTitle := trim title in
      let node :=
        createNode cleanTitle "heading" depth
          (match includeLineNumbers options with
           | Some true => Some (mkPosition (Z.of_nat i + 1) 1)
           | _ => None
           end)
          (Some [("level", VNum (of_Z depth));
                 ("rawTitle", VStr title);
                 ("frontmatter",
                  if (i =? 0)%nat && has_keys parsed then data parsed
                  else VUndefined)]%string) in
      Some (set_anchor
              (set_id node (Csv.generateId cleanTitle "heading" (Some (i + 1)%nat)))
              (Utilities.createAnchor cleanTitle))
  | None => None
  end.

(** [for (let i = 0; i < lines.length; i++)], from line [i] on. *)
Fixpoint heading_nodes (parsed : Matter) (options : GeneratorOptions)
    (i : nat) (lines : list string) : list OutlineNode :=
  match lines with
  | [] => []
  | line :: rest =>
      match heading_node parsed options i line with
      | Some node => node :: heading_nodes parsed options (Datatypes.S i) rest
      | None => heading_nodes parsed options (Datatypes.S i) rest
      end
  end.

(** [generate], after the call of [matter]: the roots and the heap of
    the nodes. *)
Definition generate (parsed : Matter) (options : GeneratorOptions)
  : list nat * Hierarchy.heap :=
  let lines := Csv.split_lines (chars (content parsed)) [] in
  let nodes := heading_nodes parsed options 0 lines in
  DepthFilter.markdown_assemble nodes (maxDepth options).

(** The shape of a heading line: one to six hashes, white space, and a
    title without a line terminator. *)
Definition heading_shape (hashes space title : list ascii) : Prop :=
  (1 <= List.length hashes <= 6)%nat /\ forallb is_hash hashes = true /\
  space <> [] /\ forallb is_space space = true /\
  title <> [] /\ forallb is_dot title = true.

(** The nodes that pass the depth filter, as [filterByDepth] selects
    them at the top level. *)
Definition within (maxDepth : option Z) (nodes : list OutlineNode)
  : list OutlineNode :=
  match maxDepth with
  | None => nodes
  | Some m => if m =? 0 then nodes else List.filter (DepthFilter.keeps m) nodes
  end.

Definition CR : string := String (ascii_of_nat 13) EmptyString.

End Markdown.

(* ===================================================================== *)
(** ** XML outlines ([XmlGenerator.xmlToOutline]) *)
(* ===================================================================== *)

Module Xml.
Import Js Model.

(** The values that [xmlToOutline] distinguishes.  The entries of an
    object are in the order of [Object.entries]. *)
Inductive data :=
| DString (s : string)
| DPrimitive
| DNull
| DObject (entries : list (string * data))
| DArray (items : list data).

(** [key.startsWith('@_')] *)
Definition is_attribute (key : string) : bool := String.prefix "@_" key.

(** [typeof d === 'object'], which holds for [null] too. *)
Definition is_object (d : data) : bool :=
  match d with
  | DObject _ | DArray _ | DNull => true
  | _ => false
  end.

Definition isArray (d : data) : bool :=
  match d with
  | DArray _ => true
  | _ => false
  end.

(** [hasAttributes]: the keys of an array are its indices. *)
Definition hasAttributes (value : data) : bool :=
  match value with
  | DObject entries => existsb (fun e => is_attribute (fst e)) entries
  | _ => false
  end.

(** [isArray ? 'array' : hasChildren ? 'element' : 'text'] *)
Definition node_type (value : data) : string :=
  match value with
  | DArray _ => "array"
  | DObject _ => "element"
  | _ => "text"
  end.

(** [parentPath ? `${parentPath}.${key}` : key] *)
Definition path_of (parentPath key : string) : string :=
  if String.eqb parentPath EmptyString then key
  else String.append parentPath (String.append "." key).

(** [`${currentPath}[${i}]`] *)
Definition item_path (currentPath : string) (i : nat) : string :=
  String.append currentPath
    (String.append "[" (String.append (Csv.decimal i) "]")).

(** The node as created, with its [id]. *)
Definition new_node (key : string) (value : data) (depth : Z)
    (currentPath : string) : OutlineNode :=
  set_id
    (createNode key (node_type value) depth None
       (Some [("path", VStr currentPath);
              ("hasAttributes", VBool (hasAttributes value));
              ("isArray", VBool (isArray value));
              ("textContent",
               match value with
               | DString s => VStr s
               | _ => VUndefined
               end)]%string))
    (Csv.generateId key (node_type value) None).

(** The loop over the first three items of an array value, from item
    [i] on: what is pushed onto [node.children].  [recurse] is
    [xmlToOutline] itself. *)
Fixpoint first_items (recurse : data -> Z -> string -> list OutlineNode)
    (depth : Z) (currentPath : string) (i : nat) (rest : list data)
  : list OutlineNode :=
  match rest with
  | [] => []
  | arrayItem :: rest' =>
      if (i <? 3)%nat then
        (if is_object arrayItem
         then recurse arrayItem (depth + 1) (item_path currentPath i)
         else [])
        ++ first_items recurse depth currentPath (Datatypes.S i) rest'
      else []
  end.

(** The body of the loop over the entries, for one entry that is not an
    attribute.  The [children] of a new node are an empty array, so the
    items of an array are pushed onto it. *)
Definition entry_node (recurse : data -> Z -> string -> list OutlineNode)
    (depth : Z) (parentPath key : string) (value : data) : OutlineNode :=
  let currentPath := path_of parentPath key in
  let node := new_node key value depth currentPath in
  match value with
  | DObject _ => set_children node (recurse value (depth + 1) currentPath)
  | DArray items =>
      set_children node (first_items recurse depth currentPath 0 items)
  | _ => node
  end.

(** [for (const [key, value] of Object.entries(data))] on an object. *)
Fixpoint object_entries (recurse : data -> Z -> string -> list OutlineNode)
    (depth : Z) (parentPath : string) (rest : list (string * data))
  : list OutlineNode :=
  match rest with
  | [] => []
  | (key, value) :: rest' =>
      if is_attribute key then object_entries recurse depth parentPath rest'
      else entry_node recurse depth parentPath key value
           :: object_entries recurse depth parentPath rest'
  end.

(** The same loop on an array: its entries are its items under their
    indices, from index [i] on. *)
Fixpoint array_entries (recurse : data -> Z -> string -> list OutlineNode)
    (depth : Z) (parentPath : string) (i : nat) (rest : list data)
  : list OutlineNode :=
  match rest with
  | [] => []
  | value :: rest' =>
      entry_node recurse depth parentPath (Csv.decimal i) value
      :: array_entries recurse depth parentPath (Datatypes.S i) rest'
  end.

(** [xmlToOutline(data, options, depth, parentPath)] *)
Fixpoint xmlToOutline (options : GeneratorOptions) (d : data) (depth : Z)
    (parentPath : string) {struct d} : list OutlineNode :=
  let nodes :=
    match d with
    | DObject entries =>
        object_entries (xmlToOutline options) depth parentPath entries
    | DArray items =>
        array_entries (xmlToOutline options) depth parentPath 0 items
    | _ => []
    end in
  DepthFilter.filterByDepth nodes (maxDepth options).

(** The options without a depth limit. *)
Definition unlimited (options : GeneratorOptions) : GeneratorOptions :=
  mkOptions (includeLineNumbers options) None (fileName options)
            (includePrivate options) (includeComments options).

(** The outline of [d] is the outline without a depth limit, filtered
    once; for an array, the same of each of its items. *)
Definition filtered_once (options : GeneratorOptions) (d : data) : Prop :=
  forall depth parentPath,
    xmlToOutline options d depth parentPath
    = DepthFilter.filterByDepth
        (xmlToOutline (unlimited options) d depth parentPath)
        (maxDepth options).

Definition filtered_once_within (options : GeneratorOptions) (d : data) : Prop :=
  filtered_once options d /\
  match d with
  | DArray items => Forall (filtered_once options) items
  | _ => True
  end.

(** [P] holds of every node of the tree together with the depth of its
    nesting: [d] for the root, [d + 1] for its children, and so on. *)
Fixpoint nested (P : Z -> NodeData -> Prop) (d : Z) (n : OutlineNode) : Prop :=
  match n with
  | Node p c =>
      P d p /\
      match c with
      | None => True
      | Some l =>
          (fix all (l : list OutlineNode) : Prop :=
             match l with
             | [] => True
             | k :: l' => nested P (d + 1) k /\ all l'
             end) l
      end
  end.

(** What holds of a node made for an entry at nesting depth [d]. *)
Definition entry_payload (d : Z) (p : NodeData) : Prop :=
  depth p = d /\ is_attribute (title p) = false /\
  In (Model.type p) ["array"; "element"; "text"]%string.

End Xml.

(* ===================================================================== *)
(** ** JSON outlines ([JsonGenerator]) *)
(* ===================================================================== *)

Module Json.
Import Js Model.

(** What [JSON.parse] returns.  The entries of an object are in the
    order of [Object.entries]. *)
Inductive json :=
| JNull
| JBool (b : bool)
| JNumber (n : number)
| JString (s : string)
| JArray (items : list json)
| JObject (entries : list (string * json)).

(** [JsonSchema] and [SchemaProperty]; an absent field is [None]. *)
Inductive schema :=
| Schema (type : string) (properties : option (list (string * schema)))
         (items : option schema) (required : option (list string))
         (description : option string).

Definition schema_type (s : schema) : string :=
  match s with Schema t _ _ _ _ => t end.
Definition schema_properties (s : schema) : option (list (string * schema)) :=
  match s with Schema _ p _ _ _ => p end.
Definition schema_items (s : schema) : option schema :=
  match s with Schema _ _ i _ _ => i end.
Definition schema_required (s : schema) : option (list string) :=
  match s with Schema _ _ _ r _ => r end.
Definition schema_description (s : schema) : option string :=
  match s with Schema _ _ _ _ d => d end.

(** [getType] *)
Definition getType (value : json) : string :=
  match value with
  | JNull => "null"
  | JArray _ => "array"
  | JBool _ => "boolean"
  | JNumber _ => "number"
  | JString _ => "string"
  | JObject _ => "object"
  end.

Definition is_null (value : json) : bool :=
  match value with
  | JNull => true
  | _ => false
  end.

(** The own properties of the record [properties], in the order of
    [Object.entries].  Writing an own property: the value of an existing
    key is replaced where it stands, a new key is added at the end. *)
Fixpoint put (key : string) (s : schema) (properties : list (string * schema))
  : list (string * schema) :=
  match properties with
  | [] => [(key, s)]
  | (k, s') :: rest =>
      if String.eqb k key then (k, s) :: rest
      else (k, s') :: put key s rest
  end.

(** [properties[key] = s] on a record created by [{}].  The key
    [__proto__] is the accessor of [Object.prototype]: its setter makes
    the object [s] the prototype of the record and adds no own property,
    and [Object.entries] lists own properties only. *)
Definition assign (key : string) (s : schema) (properties : list (string * schema))
  : list (string * schema) :=
  if String.eqb key "__proto__" then properties else put key s properties.

(** The keys that [assign] turns into own properties. *)
Definition own_key (key : string) : bool := negb (String.eqb key "__proto__").

(** [`${path}[0]`] and [`${path}.${key}`] *)
Definition first_path (path : string) : string := String.append path "[0]".
Definition key_path (path key : string) : string :=
  String.append path (String.append "." key).

(** [generateSchema(data, path)] *)
Fixpoint generateSchema (data : json) (path : string) {struct data} : schema :=
  match data with
  | JArray items =>
      Schema "array" None
             (Some match items with
                   | first :: _ => generateSchema first (first_path path)
                   | [] => Schema "any" None None None None
                   end)
             None None
  | JObject entries =>
      let properties :=
        (fix loop (rest : list (string * json)) (properties : list (string * schema))
           : list (string * schema) :=
           match rest with
           | [] => properties
           | (key, value) :: rest' =>
               loop rest' (assign key (generateSchema value (key_path path key))
                                  properties)
           end) entries [] in
      let required :=
        map fst (List.filter (fun e : string * json => negb (is_null (snd e)))
                             entries) in
      Schema "object" (Some properties) None
             (match required with
              | [] => None
              | _ => Some required
              end)
             None
  | _ => Schema (getType data) None None None None
  end.

(** [s.type === 'object' && s.properties] *)
Definition is_object_schema (s : schema) : bool :=
  String.eqb (schema_type s) "object" &&
  match schema_properties s with
  | Some _ => true
  | None => false
  end.

(** [`${path}[]`] *)
Definition items_path (path : string) : string := String.append path "[]".

(** The body of the loop over the properties.  [recurse] is
    [schemaToOutline] itself; the schema literal built for each
    recursive call has the type, the properties and the required keys of
    the schema it is built from, which is all the callee reads of an
    object schema, so the call is made on that schema. *)
Definition property_node (recurse : schema -> Z -> string -> list OutlineNode)
    (required : option (list string)) (depth : Z) (parentPath key : string)
    (property : schema) : OutlineNode :=
  let currentPath := Xml.path_of parentPath key in
  let isRequired :=
    match required with
    | Some keys => existsb (String.eqb key) keys
    | None => false
    end in
  let node :=
    set_id
      (createNode key "property" depth None
         (Some [("dataType", VStr (schema_type property));
                ("required", VBool isRequired);
                ("path", VStr currentPath);
                ("description",
                 match schema_description property with
                 | Some d => VStr d
                 | None => VUndefined
                 end)]%string))
      (Csv.generateId key "property" None) in
  if is_object_schema property then
    set_children node (recurse property (depth + 1) currentPath)
  else if String.eqb (schema_type property) "array" then
    match schema_items property with
    | Some items =>
        if is_object_schema items
        then set_children node (recurse items (depth + 1) (items_path currentPath))
        else node
    | None => node
    end
  else node.

Fixpoint property_nodes (recurse : schema -> Z -> string -> list OutlineNode)
    (required : option (list string)) (depth : Z) (parentPath : string)
    (rest : list (string * schema)) : list OutlineNode :=
  match rest with
  | [] => []
  | (key, property) :: rest' =>
      property_node recurse required depth parentPath key property
      :: property_nodes recurse required depth parentPath rest'
  end.

(** [schemaToOutline(schema, options, depth, parentPath)] *)
Fixpoint schemaToOutline (options : GeneratorOptions) (s : schema) (depth : Z)
    (parentPath : string) {struct s} : list OutlineNode :=
  let nodes :=
    match s with
    | Schema type properties items required _ =>
        match String.eqb type "object", properties with
        | true, Some properties =>
            property_nodes (schemaToOutline options) required depth parentPath
                           properties
        | _, _ =>
            if String.eqb type "array" then
              match items with
              | Some items =>
                  if is_object_schema items
                  then schemaToOutline options items depth (items_path parentPath)
                  else []
              | None => []
              end
            else []
        end
    end in
  DepthFilter.filterByDepth nodes (maxDepth options).

(** [generate], after [JSON.parse]. *)
Definition generate (data : json) (options : GeneratorOptions) : list OutlineNode :=
  schemaToOutline options (generateSchema data "root") 1 EmptyString.

(** What the outline shows of a property: its key, its [dataType] and
    its [required] flag. *)
Definition summary (n : OutlineNode) : string * value * value :=
  (title (payload n),
   get "dataType" (default [] (metadata (payload n))),
   get "required" (default [] (metadata (payload n)))).

Definition person : list (string * json) :=
  [("name", JString "Ada"); ("age", JNumber (of_Z 36)); ("nick", JNull);
   ("tags", JArray [JString "x"])]%string.

Definition inherited : list (string * json) :=
  [("__proto__", JObject [("a", JNumber (of_Z 1))]); ("b", JNumber (of_Z 2))]%string.

End Json.
(* ===================================================================== *)
(** * Theorems *)
(* ===================================================================== *)

Module ModelFacts.

(** Induction over outline values that reaches the nested children. *)
Lemma Outline_ind' {D} (P : Outline D -> Prop) :
  (forall d, P (Node d None)) ->
  (forall d l, Forall P l -> P (Node d (Some l))) ->
  forall t, P t.
Proof.
  intros HN HS.
  fix IH 1. intros [d [l|]]; [|apply HN].
  apply HS. induction l as [|t l IHl]; constructor; [apply IH | exact IHl].
Qed.

End ModelFacts.

Module HierarchyFacts.
Import Hierarchy ModelFacts.

Lemma repr_unfold h r d c :
  repr h (Node (r, d) c) <->
  h !! r = Some (mkObj d (option_map (map root_ref) c)) /\
  Forall (repr h) (default [] c).
Proof.
  simpl. split; intros [H1 H2]; split; auto.
  - destruct c as [l|]; simpl; [|constructor].
    clear H1. induction l as [|t l IH]; [constructor|].
    destruct H2 as [Ha Hb]. constructor; auto.
  - destruct c as [l|]; simpl in *; [|exact I].
    clear H1. induction H2; auto.
Qed.

Lemma repr_lookup h t :
  repr h t ->
  h !! root_ref t =
    Some (mkObj (snd (payload t)) (option_map (map root_ref) (children t))).
Proof. destruct t as [[r d] c]. rewrite repr_unfold. intros [H _]. exact H. Qed.

Lemma repr_depth h t :
  repr h t -> depth_at h (root_ref t) = item_depth (payload t).
Proof.
  intros H. unfold depth_at. rewrite (repr_lookup _ _ H). reflexivity.
Qed.

Lemma root_in_refs t : root_ref t ∈ refs_of t.
Proof. destruct t as [[r d] c]. unfold refs_of, root_ref. simpl. left. Qed.

Lemma refs_of_node r d c :
  refs_of (Node (r, d) c) = r :: flat_map refs_of (default [] c).
Proof.
  unfold refs_of. simpl. f_equal.
  destruct c as [l|]; simpl; [|reflexivity].
  induction l as [|t l IH]; simpl; [reflexivity|].
  rewrite map_app. f_equal. exact IH.
Qed.

(** Frame property: a tree only depends on the objects it mentions. *)
Lemma repr_frame h h' t :
  (forall r, r ∈ refs_of t -> h' !! r = h !! r) ->
  repr h t -> repr h' t.
Proof.
  induction t as [[r d]|[r d] l IH] using Outline_ind'; intros Hag.
  - rewrite !repr_unfold. simpl. intros [H _]. split; [|constructor].
    rewrite Hag; [exact H|]. rewrite refs_of_node. left.
  - rewrite !repr_unfold. simpl. intros [H Hl]. split.
    + rewrite Hag; [exact H|]. rewrite refs_of_node. left.
    + rewrite refs_of_node in Hag. simpl in Hag.
      assert (Hag' : forall r', r' ∈ flat_map refs_of l -> h' !! r' = h !! r').
      { intros r' Hr'. apply Hag. right. exact Hr'. }
      clear Hag H. induction IH as [|t l Ht _ IHl]; [constructor|].
      inversion Hl; subst. simpl in Hag'. constructor.
      * apply Ht; [|assumption]. intros r' Hr'. apply Hag'.
        apply elem_of_app. left. exact Hr'.
      * apply IHl; [assumption|]. intros r' Hr'. apply Hag'.
        apply elem_of_app. right. exact Hr'.
Qed.

Lemma reprs_frame h h' (l : list Item) :
  (forall r, r ∈ flat_map refs_of l -> h' !! r = h !! r) ->
  Forall (repr h) l -> Forall (repr h') l.
Proof.
  intros Hag Hl. induction Hl as [|t l Ht _ IH]; [constructor|].
  simpl in Hag. constructor.
  - apply (repr_frame h); [|assumption]. intros r Hr. apply Hag.
    apply elem_of_app. left. exact Hr.
  - apply IH. intros r Hr. apply Hag. apply elem_of_app. right. exact Hr.
Qed.

Lemma refs_of_flat t : is_flat t -> refs_of t = [root_ref t].
Proof.
  destruct t as [[r d] c]. unfold is_flat. simpl.
  intros [->| ->]; reflexivity.
Qed.

Lemma root_add_child (p x : Item) : root_ref (add_child p x) = root_ref p.
Proof. destruct p as [[r d] c]. reflexivity. Qed.

Lemma depth_add_child (p x : Item) :
  item_depth (payload (add_child p x)) = item_depth (payload p).
Proof. destruct p as [[r d] c]. reflexivity. Qed.

Lemma refs_add_child (p x : Item) :
  refs_of (add_child p x) = refs_of p ++ refs_of x.
Proof.
  destruct p as [[r d] c]. unfold add_child. rewrite !refs_of_node. simpl.
  rewrite flat_map_app. simpl. rewrite app_nil_r. reflexivity.
Qed.

Lemma elem_of_flat_map_rev (l : list Item) r :
  r ∈ flat_map refs_of (rev l) <-> r ∈ flat_map refs_of l.
Proof.
  rewrite !list_elem_of_In, !in_flat_map.
  split; intros [t [Ht Hr]]; exists t; split; auto.
  - apply in_rev. exact Ht.
  - apply in_rev in Ht. exact Ht.
Qed.

Lemma below_frame h h' above rest :
  (forall r, r ∈ flat_map refs_of rest -> h' !! r = h !! r) ->
  below h above rest -> below h' above rest.
Proof.
  revert above. induction rest as [|p rest IH]; intros above Hag; [auto|].
  simpl in *. intros [[Hp Hk] Hb]. split; [split|].
  - rewrite Hag; [exact Hp|]. apply elem_of_app. left. apply root_in_refs.
  - apply (reprs_frame h); [|exact Hk]. intros r Hr. apply Hag.
    apply elem_of_app. left. destruct p as [[rp dp] cp].
    rewrite refs_of_node. right. exact Hr.
  - apply IH; [|exact Hb]. intros r Hr. apply Hag.
    apply elem_of_app. right. exact Hr.
Qed.

(** Closing the top item onto the item below it keeps the stack
    represented in the heap: the heap already has the link. *)
Lemma frames_ok_close h top p rest :
  frames_ok h (top :: p :: rest) -> frames_ok h (add_child p top :: rest).
Proof.
  simpl. intros [Ht [[Hp Hk] Hb]]. rewrite root_add_child. split; [|exact Hb].
  destruct p as [[rp dp] cp]. unfold add_child. apply repr_unfold. simpl in *.
  split.
  - unfold root_ref in Hp at 1. simpl in Hp. rewrite Hp, map_app. reflexivity.
  - apply Forall_app. split; [exact Hk|]. constructor; [exact Ht|constructor].
Qed.

Lemma bottom_close top p rest :
  bottom (add_child p top :: rest) = bottom (top :: p :: rest).
Proof. unfold bottom. simpl. rewrite root_add_child. reflexivity. Qed.

Section Close.
Variables (h : heap) (cres : list nat) (stay : Item -> bool).

Lemma close_from_inv rest : forall top res,
  Inv h cres res (top :: rest) ->
  Inv h cres (fst (close_from stay res top rest))
             (snd (close_from stay res top rest)).
Proof.
  induction rest as [|p rest IH]; intros top res HI; simpl;
    destruct (stay top); simpl; try exact HI.
  - destruct HI as [Hr Hc Hf]. split.
    + rewrite Hr, map_app. unfold bottom. simpl. rewrite app_nil_r. done.
    + apply Forall_app. split; [exact Hc|].
      constructor; [apply Hf|constructor].
    + exact I.
  - apply IH. destruct HI as [Hr Hc Hf]. split.
    + rewrite bottom_close. exact Hr.
    + exact Hc.
    + apply frames_ok_close. exact Hf.
Qed.

Lemma close_from_refs rest : forall top res,
  zip_refs (fst (close_from stay res top rest))
           (snd (close_from stay res top rest)) =
  zip_refs res (top :: rest).
Proof.
  induction rest as [|p rest IH]; intros top res; simpl;
    destruct (stay top); simpl; try reflexivity.
  - unfold zip_refs. simpl. rewrite flat_map_app. simpl.
    rewrite !app_nil_r. reflexivity.
  - rewrite IH. unfold zip_refs. simpl. f_equal.
    rewrite !flat_map_app. simpl. rewrite refs_add_child, !app_nil_r.
    rewrite <- !app_assoc. reflexivity.
Qed.

Lemma close_while_inv res stk :
  Inv h cres res stk ->
  Inv h cres (fst (close_while stay res stk)) (snd (close_while stay res stk)).
Proof. destruct stk; [auto|]. apply close_from_inv. Qed.

Lemma close_while_refs res stk :
  zip_refs (fst (close_while stay res stk)) (snd (close_while stay res stk)) =
  zip_refs res stk.
Proof. destruct stk; [auto|]. apply close_from_refs. Qed.

End Close.

Lemma close_from_all res rest : forall top : Item,
  snd (close_from (fun _ => false) res top rest) = [].
Proof. induction rest as [|p rest IH]; intros top; simpl; auto. Qed.

(** [stack.pop()] in the loop of [buildHierarchy] removes exactly the
    items that the rule closes. *)
Lemma pop_stack_sim h d res rest : forall top,
  frames_ok h (top :: rest) ->
  pop_stack h d (map root_ref (top :: rest)) =
  map root_ref
    (snd (close_from (fun t => negb (item_depth (payload t) >=? d))
                     res top rest)).
Proof.
  induction rest as [|p rest IH]; intros top Hf.
  - simpl. rewrite (repr_depth h top) by apply Hf.
    destruct (item_depth (payload top) >=? d); reflexivity.
  - cbn [map pop_stack close_from].
    rewrite (repr_depth h top) by apply Hf.
    destruct (item_depth (payload top) >=? d); simpl; [|reflexivity].
    rewrite <- IH by (apply frames_ok_close; exact Hf).
    simpl. rewrite root_add_child. reflexivity.
Qed.

(** What distinctness of the references in a rule state gives for the
    object on top of the stack. *)
Lemma nodup_top res (p : Item) rest x :
  NoDup (zip_refs res (p :: rest) ++ [x]) ->
  root_ref p <> x /\
  (forall r, r ∈ flat_map refs_of res -> r <> root_ref p) /\
  (forall r, r ∈ flat_map refs_of rest -> r <> root_ref p) /\
  (forall r, r ∈ flat_map refs_of (default [] (children p)) -> r <> root_ref p).
Proof.
  unfold zip_refs. simpl. rewrite flat_map_app. simpl. rewrite app_nil_r.
  destruct p as [[rp dp] cp]. rewrite refs_of_node. unfold root_ref. simpl.
  rewrite !NoDup_app, NoDup_cons.
  intros [[Hres [Hd1 [Hrest [Hd2 [Hrp Hk]]]]] [Hd3 _]].
  repeat split.
  - intros ->. apply (Hd3 x); [|left].
    apply elem_of_app. right. apply elem_of_app. right. left.
  - intros r Hr ->. apply (Hd1 rp Hr). apply elem_of_app. right. left.
  - intros r Hr ->. apply elem_of_flat_map_rev in Hr.
    apply (Hd2 rp Hr). left.
  - intros r Hr ->. apply Hrp. exact Hr.
Qed.

(** One iteration of the loop against one step of the rule. *)
Lemma step_sim h cres res stk x :
  Inv h cres res stk ->
  NoDup (zip_refs res stk ++ [root_ref x]) ->
  is_flat x -> repr h x ->
  exists cres' h',
    step (mkState cres (map root_ref stk) h) (root_ref x) =
      mkState cres' (map root_ref (snd (rule_step item_depth (res, stk) x))) h' /\
    Inv h' cres' (fst (rule_step item_depth (res, stk) x))
                 (snd (rule_step item_depth (res, stk) x)) /\
    zip_refs (fst (rule_step item_depth (res, stk) x))
             (snd (rule_step item_depth (res, stk) x)) =
      zip_refs res stk ++ [root_ref x] /\
    (forall r, r ∉ zip_refs res stk -> h' !! r = h !! r).
Proof.
  intros HI Hnd Hflat Hx. unfold step, rule_step. cbn [store stack result fst snd].
  rewrite (repr_depth h x Hx).
  set (stay := fun t : Item =>
                 negb (item_depth (payload t) >=? item_depth (payload x))).
  pose proof (close_while_inv h cres stay res stk HI) as HI1.
  pose proof (close_while_refs stay res stk) as Hrefs.
  assert (Hpop : pop_stack h (item_depth (payload x)) (map root_ref stk) =
                 map root_ref (snd (close_while stay res stk))).
  { destruct stk as [|top rest]; [reflexivity|].
    apply pop_stack_sim. apply HI. }
  rewrite Hpop. rewrite <- Hrefs in Hnd |- *. clear Hpop Hrefs HI.
  destruct (close_while stay res stk) as [res1 stk1]. cbn [fst snd] in *.
  destruct stk1 as [|p rest1]; cbn [map].
  - exists (cres ++ [root_ref x]), h. split; [reflexivity|].
    destruct HI1 as [Hr Hc _]. repeat split; auto.
    + rewrite Hr. unfold bottom. simpl. rewrite app_nil_r. reflexivity.
    + unfold zip_refs. simpl. rewrite (refs_of_flat x Hflat), !app_nil_r.
      reflexivity.
  - destruct HI1 as [Hr Hc [Hp Hb]].
    destruct (nodup_top _ _ _ _ Hnd) as (Hpx & Dres & Drest & Dkids).
    unfold push_child. rewrite (repr_lookup h p Hp).
    eexists cres, _. split; [reflexivity|].
    assert (Hag : forall r, r <> root_ref p ->
              <[root_ref p := mkObj (snd (payload p))
                 (Some (default [] (option_map (map root_ref) (children p))
                        ++ [root_ref x]))]> h !! r = h !! r).
    { intros r Hne. apply lookup_insert_ne. congruence. }
    repeat split.
    + exact Hr.
    + apply (reprs_frame h); [|exact Hc]. intros r Hr'. apply Hag. auto.
    + apply (repr_frame h); [|exact Hx]. intros r Hr'.
      rewrite (refs_of_flat x Hflat) in Hr'. apply list_elem_of_singleton in Hr'.
      subst r. apply Hag. congruence.
    + rewrite lookup_insert_eq. do 3 f_equal.
      destruct (children p); reflexivity.
    + apply (reprs_frame h).
      * intros r Hr'. apply Hag. auto.
      * destruct p as [[rp dp] cp]. apply repr_unfold in Hp. apply Hp.
    + apply (below_frame h); [|exact Hb]. intros r Hr'. apply Hag. auto.
    + unfold zip_refs. simpl. rewrite !flat_map_app. simpl.
      rewrite (refs_of_flat x Hflat), !app_nil_r, <- !app_assoc. reflexivity.
    + intros r Hr'. apply Hag. intros ->. apply Hr'.
      unfold zip_refs. apply elem_of_app. right.
      apply elem_of_flat_map_rev. simpl. apply elem_of_app. left.
      apply root_in_refs.
Qed.

Lemma run_sim : forall todo h cres res stk,
  Inv h cres res stk ->
  NoDup (zip_refs res stk ++ map root_ref todo) ->
  Forall is_flat todo -> Forall (repr h) todo ->
  exists cres' h',
    fold_left step (map root_ref todo) (mkState cres (map root_ref stk) h) =
      mkState cres'
        (map root_ref (snd (fold_left (rule_step item_depth) todo (res, stk)))) h' /\
    Inv h' cres' (fst (fold_left (rule_step item_depth) todo (res, stk)))
                 (snd (fold_left (rule_step item_depth) todo (res, stk))) /\
    zip_refs (fst (fold_left (rule_step item_depth) todo (res, stk)))
             (snd (fold_left (rule_step item_depth) todo (res, stk))) =
      zip_refs res stk ++ map root_ref todo.
Proof.
  induction todo as [|x todo IH]; intros h cres res stk HI Hnd Hfl Hrp.
  - exists cres, h. simpl. rewrite app_nil_r. auto.
  - inversion Hfl as [|? ? Hfx Hfl']; subst.
    inversion Hrp as [|? ? Hx Hrp']; subst.
    cbn [map] in Hnd.
    assert (Hnd1 : NoDup (zip_refs res stk ++ [root_ref x])).
    { change (root_ref x :: map root_ref todo)
        with ([root_ref x] ++ map root_ref todo) in Hnd.
      rewrite app_assoc in Hnd. apply NoDup_app in Hnd. apply Hnd. }
    destruct (step_sim h cres res stk x HI Hnd1 Hfx Hx)
      as (cres1 & h1 & Hstep & HI1 & Hz1 & Hsame).
    cbn [map fold_left]. rewrite Hstep.
    destruct (rule_step item_depth (res, stk) x) as [res1 stk1].
    cbn [fst snd] in *.
    destruct (IH h1 cres1 res1 stk1) as (cres2 & h2 & Hrun & HI2 & Hz2); auto.
    + rewrite Hz1, <- app_assoc. exact Hnd.
    + apply NoDup_app in Hnd as (_ & Hdisj & Hnd2).
      apply NoDup_cons in Hnd2 as [_ Hnd2].
      clear IH Hfl Hrp. induction Hrp' as [|y todo Hy _ IHt]; [constructor|].
      inversion Hfl'; subst. constructor.
      * apply (repr_frame h); [|exact Hy]. intros r Hr.
        rewrite refs_of_flat in Hr by assumption.
        apply list_elem_of_singleton in Hr. subst r. apply Hsame.
        intros Hin. apply (Hdisj _ Hin). right. left.
      * apply IHt; auto.
        -- intros r Hr Hin. apply (Hdisj r Hr).
           apply elem_of_cons in Hin as [->|Hin]; [left|].
           right. right. exact Hin.
        -- apply NoDup_cons in Hnd2. apply Hnd2.
    + exists cres2, h2. rewrite Hz2, Hz1, <- app_assoc. auto.
Qed.

Lemma buildHierarchy_sim h items :
  NoDup (map root_ref items) -> Forall is_flat items -> Forall (repr h) items ->
  fst (buildHierarchy h (map root_ref items)) =
    map root_ref (depth_stack_rule item_depth items) /\
  Forall (repr (snd (buildHierarchy h (map root_ref items))))
         (depth_stack_rule item_depth items) /\
  flat_map refs_of (depth_stack_rule item_depth items) = map root_ref items.
Proof.
  intros Hnd Hfl Hrp.
  destruct (run_sim items h [] [] []) as (cres & h' & Hrun & HI & Hz); auto.
  { split; simpl; auto. }
  unfold buildHierarchy, depth_stack_rule.
  change (mkState [] [] h) with (mkState [] (map root_ref []) h).
  rewrite Hrun. cbn [result store fst snd].
  set (z := fold_left (rule_step item_depth) items ([], [])) in *.
  pose proof (close_while_inv h' cres (fun _ => false) _ _ HI) as HF.
  pose proof (close_while_refs (fun _ => false) (fst z) (snd z)) as HR.
  assert (Hs : snd (close_while (fun _ : Item => false) (fst z) (snd z)) = []).
  { destruct (snd z); [reflexivity|]. apply close_from_all. }
  rewrite Hs in HF, HR. destruct HF as [Hr Hc _].
  unfold bottom in Hr. simpl in Hr. rewrite app_nil_r in Hr.
  repeat split; auto.
  unfold zip_refs in HR at 1. simpl in HR. rewrite app_nil_r in HR.
  rewrite HR, Hz. reflexivity.
Qed.

Lemma item_at_facts h r t :
  item_at h r = Some t -> root_ref t = r /\ is_flat t /\ repr h t.
Proof.
  unfold item_at. destruct (h !! r) as [[d [[|? ?]|]]|] eqn:E;
    intros [= <-]; unfold is_flat; simpl; auto.
Qed.

Lemma items_at_facts h nodes items :
  items_at h nodes = Some items ->
  map root_ref items = nodes /\ Forall is_flat items /\ Forall (repr h) items.
Proof.
  unfold items_at. rewrite mapM_Some.
  induction 1 as [|r t nodes items Ht _ IH]; [simpl; auto|].
  destruct (item_at_facts _ _ _ Ht) as (<- & ? & ?).
  destruct IH as (<- & ? & ?). simpl. auto.
Qed.

(** The heap traversal reads back the pre-order of the trees it holds. *)
Lemma preorder_heap_repr h : forall fuel (l : list Item),
  Forall (repr h) l ->
  (length (flat_map refs_of l) <= fuel)%nat ->
  preorder_heap fuel h (map root_ref l) = flat_map refs_of l.
Proof.
  induction fuel as [|fuel IHf]; intros l Hl Hlen.
  - destruct l as [|t l]; [reflexivity|].
    simpl in Hlen. rewrite length_app in Hlen.
    destruct t as [[r d] c]. rewrite refs_of_node in Hlen. simpl in Hlen. lia.
  - induction Hl as [|t l Ht Hl IHl]; [reflexivity|].
    change (preorder_heap (S fuel) h (map root_ref (t :: l)))
      with ((root_ref t ::
               match h !! root_ref t with
               | Some o => preorder_heap fuel h (default [] (obj_children o))
               | None => []
               end) ++ preorder_heap (S fuel) h (map root_ref l)).
    simpl in Hlen. rewrite length_app in Hlen.
    rewrite IHl by lia. simpl. f_equal.
    rewrite (repr_lookup h t Ht). destruct t as [[r d] c].
    rewrite refs_of_node in *. simpl in *.
    apply repr_unfold in Ht as [_ Hk].
    replace (default [] (option_map (map root_ref) c))
      with (map root_ref (default [] c)) by (destruct c; reflexivity).
    rewrite IHf by (auto; lia). reflexivity.
Qed.

(** The rule on plain node values, on the scenario of the specification. *)
Example depth_stack_rule_scenario :
  depth_stack_rule depth scenario_nodes =
  [ Node (heading "A" 1)
      (Some [ Node (heading "B" 2) (Some []); Node (heading "C" 2) (Some []) ]);
    Node (heading "D" 1) (Some []) ].
Proof. reflexivity. Qed.

(** C1.  For a flat sequence of distinct node objects, [buildHierarchy]
    returns the roots of the forest that the depth-stack rule produces from
    the sequence, and the heap it leaves holds exactly that forest: pop the
    stack while its top has depth [>=] the incoming depth; attach the item at
    top level when the stack is empty and as last child of the top
    otherwise; push the item. *)
Theorem buildHierarchy_depth_stack_rule (h : heap) (nodes : list nat)
    (items : list Item) :
  NoDup nodes ->
  items_at h nodes = Some items ->
  fst (buildHierarchy h nodes) =
    map root_ref (depth_stack_rule item_depth items) /\
  Forall (repr (snd (buildHierarchy h nodes)))
         (depth_stack_rule item_depth items).
Proof.
  intros Hnd Hit.
  destruct (items_at_facts _ _ _ Hit) as (<- & Hfl & Hrp).
  destruct (buildHierarchy_sim h items Hnd Hfl Hrp) as (H1 & H2 & _).
  split; assumption.
Qed.

(** The scenario [(1,A) (2,B) (2,C) (1,D)]: the result is [[A; D]], and the
    heap holds [A{children: [B, C]}] and [D]. *)
Lemma buildHierarchy_scenario :
  NoDup [0; 1; 2; 3]%nat /\
  is_Some (items_at scenario_heap [0; 1; 2; 3]%nat) /\
  fst (buildHierarchy scenario_heap [0; 1; 2; 3]%nat) = [0; 3]%nat /\
  Forall (repr (snd (buildHierarchy scenario_heap [0; 1; 2; 3]%nat)))
    [ Node (0%nat, heading "A" 1)
        (Some [ Node (1%nat, heading "B" 2) (Some []);
                Node (2%nat, heading "C" 2) (Some []) ]);
      Node (3%nat, heading "D" 1) (Some []) ].
Proof.
  assert (Hnd : NoDup [0; 1; 2; 3]%nat) by (apply (bool_decide_unpack _); vm_compute; exact I).
  assert (Hit : items_at scenario_heap [0; 1; 2; 3]%nat =
                Some [ Node (0%nat, heading "A" 1) (Some []);
                       Node (1%nat, heading "B" 2) (Some []);
                       Node (2%nat, heading "C" 2) (Some []);
                       Node (3%nat, heading "D" 1) (Some []) ])
    by (vm_compute; reflexivity).
  split; [exact Hnd|]. split; [rewrite Hit; eexists; reflexivity|].
  exact (buildHierarchy_depth_stack_rule _ _ _ Hnd Hit).
Defined.

(** C2.  For a flat sequence of distinct node objects, walking the forest
    that [buildHierarchy] returns in pre-order visits the nodes in the
    order of the input. *)
Theorem buildHierarchy_preorder (h : heap) (nodes : list nat) :
  NoDup nodes ->
  is_Some (items_at h nodes) ->
  preorder_heap (length nodes)
                (snd (buildHierarchy h nodes)) (fst (buildHierarchy h nodes))
  = nodes.
Proof.
  intros Hnd [items Hit].
  destruct (items_at_facts _ _ _ Hit) as (<- & Hfl & Hrp).
  destruct (buildHierarchy_sim h items Hnd Hfl Hrp) as (H1 & H2 & H3).
  rewrite H1, (preorder_heap_repr _ _ _ H2); [exact H3|].
  rewrite H3. reflexivity.
Qed.

Lemma buildHierarchy_preorder_witness :
  NoDup [0; 1; 2; 3]%nat /\
  is_Some (items_at scenario_heap [0; 1; 2; 3]%nat) /\
  preorder_heap 4 (snd (buildHierarchy scenario_heap [0; 1; 2; 3]%nat))
                  (fst (buildHierarchy scenario_heap [0; 1; 2; 3]%nat))
  = [0; 1; 2; 3]%nat.
Proof.
  assert (Hnd : NoDup [0; 1; 2; 3]%nat)
    by (apply (bool_decide_unpack _); vm_compute; exact I).
  assert (Hit : is_Some (items_at scenario_heap [0; 1; 2; 3]%nat))
    by (vm_compute; eexists; reflexivity).
  split; [exact Hnd|]. split; [exact Hit|].
  exact (buildHierarchy_preorder scenario_heap [0; 1; 2; 3]%nat Hnd Hit).
Defined.

End HierarchyFacts.

Module DepthFilterFacts.
Import DepthFilter ModelFacts.

(** The children of a rebuilt node are the kept children, rebuilt. *)
Lemma rebuild_children m d l :
  rebuild m (Node d (Some l)) =
  Node d (Some (map (rebuild m) (List.filter (keeps m) l))).
Proof.
  simpl. do 2 f_equal.
  induction l as [|k l IH]; simpl; [reflexivity|].
  destruct (keeps m k); simpl; rewrite IH; reflexivity.
Qed.

Lemma rebuild_depth m n : node_depth (rebuild m n) = node_depth n.
Proof. destruct n as [d [l|]]; reflexivity. Qed.

Lemma rebuild_bound m n :
  node_depth n <= m ->
  Forall (fun d => depth d <= m) (preorder (rebuild m n)).
Proof.
  induction n as [d|d l IH] using Outline_ind'; intros Hd.
  - simpl. constructor; [exact Hd|constructor].
  - rewrite rebuild_children. simpl. constructor; [exact Hd|].
    clear Hd. induction IH as [|k l Hk _ IHl]; simpl; [constructor|].
    destruct (keeps m k) eqn:E; simpl; [|exact IHl].
    apply Forall_app. split; [|exact IHl].
    apply Hk. unfold keeps in E. lia.
Qed.

Lemma filterByDepth_bound forest m :
  m <> 0 ->
  all_nodes (fun d => depth d <= m) (filterByDepth forest (Some m)).
Proof.
  intros Hm. unfold filterByDepth, all_nodes, preorder_forest.
  destruct (Z.eqb_spec m 0) as [|_]; [contradiction|].
  induction forest as [|n forest IH]; simpl; [constructor|].
  destruct (keeps m n) eqn:E; simpl; [|exact IH].
  apply Forall_app. split; [|exact IH].
  apply rebuild_bound. unfold keeps in E. lia.
Qed.

(** C4.  For a positive [maxDepth = d], every node of the filtered forest,
    nested nodes included, has [depth <= d]; without [maxDepth] the filter
    returns its input. *)
Theorem filterByDepth_depth_bound_and_identity (forest : list OutlineNode) (d : Z) :
  0 < d ->
  all_nodes (fun n => depth n <= d) (filterByDepth forest (Some d)) /\
  filterByDepth forest None = forest.
Proof.
  intros Hd. split; [|reflexivity].
  apply filterByDepth_bound. lia.
Qed.

Lemma filterByDepth_depth_bound_witness :
  0 < 2 /\
  all_nodes (fun n => depth n <= 2) (filterByDepth nested_levels (Some 2)) /\
  filterByDepth nested_levels None = nested_levels.
Proof.
  split; [reflexivity|].
  apply (filterByDepth_depth_bound_and_identity nested_levels 2).
  reflexivity.
Defined.

(** C3 on the code.  [filterByDepth] with a depth limit gives a leaf made by
    [createNode] an empty [children] array, and gives a node whose children
    were all pruned an empty [children] array; on the headings of the
    repository's [maxDepth] test the node [Level 2] ends with
    [children = []], where the test expects the field to be undefined. *)
Theorem filterByDepth_leaves_empty_children :
  map children (filterByDepth [createNode "A" "heading" 1 None None] (Some 1))
    = [Some []] /\
  map children (filterByDepth nested_levels (Some 1)) = [Some []] /\
  fst (markdown_assemble levels (Some 2)) = [0%nat] /\
  Hierarchy.obj_children <$> snd (markdown_assemble levels (Some 2)) !! 0%nat
    = Some (Some [1%nat]) /\
  Hierarchy.obj_children <$> snd (markdown_assemble levels (Some 2)) !! 1%nat
    = Some (Some []).
Proof. repeat split; vm_compute; reflexivity. Qed.

End DepthFilterFacts.

Module RegistryFacts.
Import Js Registry.

Lemma mentions_suffix (pre s : string) : mentions (String.append pre s) s.
Proof.
  exists pre, EmptyString. f_equal.
  induction s as [|c s IH]; [reflexivity|].
  change (String c s = String c (String.append s EmptyString)).
  f_equal. exact IH.
Qed.

(** C9.  When no generator is registered for the (lower-cased)
    discriminator, the call throws before any generator runs; the message
    is the fixed prefix followed by the discriminator as given, so it
    contains the discriminator, and no forest is returned.  With the default
    registry and the discriminator [xyz] the message ends in [xyz]. *)
Theorem generateFromContent_unsupported
    (generators : gmap string OutlineGenerator)
    (content fileExtension : string) (options : GeneratorOptions) :
  isSupported generators fileExtension = false ->
  (exists message,
     generateFromContent generators content fileExtension options
       = Thrown message /\
     mentions message fileExtension) /\
  (forall g,
     isSupported (constructor g) "xyz" = false /\
     generateFromContent (constructor g) content "xyz" options
       = Thrown "No generator found for file extension: xyz").
Proof.
  intros Hsup. split.
  - unfold isSupported in Hsup. apply bool_decide_eq_false in Hsup.
    unfold generateFromContent.
    destruct (generators !! toLowerCase fileExtension) as [gen|] eqn:E.
    + exfalso. apply Hsup. eexists. reflexivity.
    + eexists. split; [reflexivity|]. apply mentions_suffix.
  - intros g. split; vm_compute; reflexivity.
Qed.

Lemma generateFromContent_unsupported_witness :
  isSupported (constructor empty_defaults) "xyz" = false /\
  exists message,
    generateFromContent (constructor empty_defaults) "content" "xyz" no_options
      = Thrown message /\
    mentions message "xyz".
Proof.
  assert (H : isSupported (constructor empty_defaults) "xyz" = false)
    by (vm_compute; reflexivity).
  split; [exact H|].
  exact (proj1 (generateFromContent_unsupported
                  (constructor empty_defaults) "content" "xyz" no_options H)).
Defined.

End RegistryFacts.


Module JsFacts.
Import Js.

Example number_tests :
  map isNaN_Number
      ["30"; "Age"; "Name"; "Alice"; "1e5"; "1e"; " 12.5 "; "."; "5.";
       ".5"; "-Infinity"; "0x1F"; "-0x1F"; "12px"; "+7"; "1 2"]
  = [false; true; true; true; false; true; false; true; false;
     false; false; false; true; true; false; true]
  /\ isNaN_Number EmptyString = false.
Proof. split; vm_compute; reflexivity. Qed.

Example trim_tests :
  trim "  a b  " = "a b" /\ trim "x" = "x" /\ trim "   " = EmptyString.
Proof. repeat split. Qed.

(** The comparisons of numbers are comparisons of their places. *)
Lemma lt_rank a b :
  lt a b = true <->
  match rank a, rank b with
  | Some x, Some y => below x y
  | _, _ => False
  end.
Proof.
  unfold lt, SFltb, SFcompare, rank, below.
  destruct a as [[]|[]| |[] m1 e1], b as [[]|[]| |[] m2 e2];
    try (split; [discriminate|intros H; exfalso; lia]);
    try (split; [discriminate|intros []]);
    try (split; [intros _; lia|reflexivity]);
    change (Pos.compare_cont Eq m1 m2) with (Pos.compare m1 m2);
    destruct (Z.compare_spec e1 e2), (Pos.compare_spec m1 m2); simpl;
    (split; [intros Hc; first [discriminate Hc|lia]
            |intros Hc; first [reflexivity|exfalso; lia]]).
Qed.

Lemma le_rank a b :
  le a b = true <->
  match rank a, rank b with
  | Some x, Some y => below x y \/ x = y
  | _, _ => False
  end.
Proof.
  unfold le, SFleb, SFcompare, rank, below.
  destruct a as [[]|[]| |[] m1 e1], b as [[]|[]| |[] m2 e2];
    try (split; [discriminate|intros [H|H]; [exfalso; lia|discriminate]]);
    try (split; [discriminate|intros []]);
    try (split; [intros _; first [right; reflexivity|left; lia]|reflexivity]);
    change (Pos.compare_cont Eq m1 m2) with (Pos.compare m1 m2);
    destruct (Z.compare_spec e1 e2), (Pos.compare_spec m1 m2); simpl;
    (split; [intros Hc; first [discriminate Hc
                   |subst; first [right; reflexivity|left; lia]]
            |intros Hc; first [reflexivity
                   |destruct Hc as [Hc|Hc]; exfalso;
                    [lia|injection Hc; intros; lia]]]).
Qed.

Lemma rank_isNaN a : rank a = None <-> isNaN a = true.
Proof. destruct a as [[]|[]| |[] m e]; simpl; split; congruence. Qed.

Ltac by_rank :=
  repeat match goal with
         | H : lt _ _ = true |- _ => apply lt_rank in H
         | H : le _ _ = true |- _ => apply le_rank in H
         | H : lt _ _ = false |- _ =>
             apply not_true_iff_false in H; rewrite lt_rank in H
         | H : le _ _ = false |- _ =>
             apply not_true_iff_false in H; rewrite le_rank in H
         | H : isNaN _ = false |- _ =>
             apply not_true_iff_false in H; rewrite <- rank_isNaN in H
         | H : isNaN _ = true |- _ => apply rank_isNaN in H
         | |- lt _ _ = true => apply lt_rank
         | |- le _ _ = true => apply le_rank
         | |- lt _ _ = false => apply not_true_iff_false; rewrite lt_rank
         | |- le _ _ = false => apply not_true_iff_false; rewrite le_rank
         | |- isNaN _ = false => apply not_true_iff_false; rewrite <- rank_isNaN
         | |- isNaN _ = true => apply rank_isNaN
         end;
  repeat match goal with
         | H : context [rank ?a] |- _ =>
             let x := fresh "x" in let y := fresh "y" in let z := fresh "z" in
             destruct (rank a) as [[[x y] z]|]
         | |- context [rank ?a] =>
             let x := fresh "x" in let y := fresh "y" in let z := fresh "z" in
             destruct (rank a) as [[[x y] z]|]
         end;
  unfold below in *;
  try congruence;
  try (intuition (try congruence; try lia; fail)).

Lemma lt_asym a b : lt a b = true -> lt b a = false.
Proof. intros H. by_rank. Qed.

Lemma lt_trans a b c : lt a b = true -> lt b c = true -> lt a c = true.
Proof. intros H1 H2. by_rank. Qed.

Lemma le_lt_trans a b c : le a b = true -> lt b c = true -> lt a c = true.
Proof.
  intros H1 H2. by_rank.
Qed.

Lemma lt_not_NaN a b : lt a b = true -> isNaN a = false /\ isNaN b = false.
Proof. intros H. split; by_rank. Qed.

(** Two numbers that are not [NaN] are comparable. *)
Lemma not_lt_le a b :
  lt a b = false -> isNaN a = false -> isNaN b = false -> le b a = true.
Proof.
  intros H Ha Hb. by_rank.
  destruct (Z.compare_spec x x0); [|left; lia|exfalso; apply H; lia].
  destruct (Z.compare_spec y y0); [|left; lia|exfalso; apply H; lia].
  destruct (Z.compare_spec z z0); [|left; lia|exfalso; apply H; lia].
  right. congruence.
Qed.

(** *** Signs *)
Lemma round_aux_positive_sign m e l :
  positive_sign (binary_round_aux precision emax false m e l) = true.
Proof.
  unfold binary_round_aux.
  destruct (shr_fexp precision emax m e l) as [mrs' e'].
  destruct (shr_fexp precision emax _ e' loc_Exact) as [mrs'' e''].
  destruct (shr_m mrs''); [reflexivity| |reflexivity].
  destruct (e'' <=? emax - precision); reflexivity.
Qed.

Lemma round_positive_sign m e :
  positive_sign (binary_round precision emax false m e) = true.
Proof.
  unfold binary_round. destruct (shl_align _ _ _) as [mz ez].
  apply round_aux_positive_sign.
Qed.

Lemma normalize_positive_sign z e :
  0 <= z -> positive_sign (binary_normalize precision emax z e false) = true.
Proof.
  intros H. destruct z as [|p|p]; [reflexivity|apply round_positive_sign|lia].
Qed.

Lemma of_nat_positive_sign n : positive_sign (of_nat n) = true.
Proof. apply normalize_positive_sign. lia. Qed.

Lemma add_positive_sign a b :
  positive_sign a = true -> positive_sign b = true ->
  positive_sign (add a b) = true.
Proof.
  destruct a as [[]|[]| |[] m1 e1], b as [[]|[]| |[] m2 e2];
    try discriminate; try reflexivity.
  intros _ _. unfold add, SFadd. apply normalize_positive_sign.
  unfold cond_Zopp. lia.
Qed.

Lemma mul_positive_sign a b :
  positive_sign a = true -> positive_sign b = true ->
  positive_sign (mul a b) = true.
Proof.
  destruct a as [[]|[]| |[] m1 e1], b as [[]|[]| |[] m2 e2];
    try discriminate; try reflexivity.
  intros _ _. apply round_aux_positive_sign.
Qed.

Lemma div_positive_sign a b :
  positive_sign a = true -> positive_sign b = true ->
  positive_sign (div a b) = true.
Proof.
  destruct a as [[]|[]| |[] m1 e1], b as [[]|[]| |[] m2 e2];
    try discriminate; try reflexivity.
  intros _ _. unfold div, SFdiv.
  destruct (SFdiv_core_binary _ _ _ _ _ _) as [[mz ez] lz].
  apply round_aux_positive_sign.
Qed.

Lemma pow2_positive_sign a : positive_sign (pow2 a) = true.
Proof.
  destruct a as [[]|[]| |[] m e]; try reflexivity;
    apply round_aux_positive_sign.
Qed.

(** A number with a positive sign is not below zero. *)
Lemma positive_sign_zero a : positive_sign a = true -> lt a (of_Z 0) = false.
Proof. destruct a as [[]|[]| |[] m e]; try discriminate; reflexivity. Qed.

Lemma insert_perm x l : Permutation (insert x l) (x :: l).
Proof.
  induction l as [|y l IH]; simpl; [reflexivity|].
  destruct (lt x y); [reflexivity|].
  rewrite IH. apply perm_swap.
Qed.

Lemma insert_sorted x l : Sorted ascending l -> Sorted ascending (insert x l).
Proof.
  induction 1 as [|y l Hl IH Hhd]; simpl.
  - repeat constructor.
  - destruct (lt x y) eqn:E.
    + constructor; [constructor; assumption|].
      constructor. unfold ascending. apply lt_asym. exact E.
    + constructor; [exact IH|].
      destruct l as [|z l]; simpl.
      * constructor. exact E.
      * destruct (lt x z); constructor; [exact E|].
        inversion Hhd; subst. assumption.
Qed.

Lemma sort_from_perm l : forall acc,
  Permutation (fold_left (fun acc x => insert x acc) l acc) (l ++ acc).
Proof.
  induction l as [|x l IH]; intros acc; simpl; [reflexivity|].
  rewrite IH, insert_perm. symmetry. apply Permutation_middle.
Qed.

Lemma sort_from_sorted l : forall acc,
  Sorted ascending acc ->
  Sorted ascending (fold_left (fun acc x => insert x acc) l acc).
Proof.
  induction l as [|x l IH]; intros acc H; simpl; [exact H|].
  apply IH. apply insert_sorted. exact H.
Qed.

Lemma sort_perm l : Permutation (sort l) l.
Proof. unfold sort. rewrite sort_from_perm, app_nil_r. reflexivity. Qed.

Lemma sort_sorted l : Sorted ascending (sort l).
Proof. apply sort_from_sorted. constructor. Qed.

Example parseFloat_tests :
  map parseFloat ["30"; "25"; "2.5"; "-1.5e2"; "12px"; "abc"; ".5"; "5e"; "0x1F"]
  = [Fin 30; Fin 25; Fin (5 # 2); Fin (-150); Fin 12; NaN; Fin (1 # 2); Fin 5; Fin 0]
  /\ parseFloat "-Infinity" = NegInf
  /\ parseFloat "1e400" = PosInf
  /\ parseFloat "-0" = S754_zero true
  /\ parseFloat "9007199254740993" = of_Z 9007199254740992
  /\ parseFloat "0.1" = S754_finite false 7205759403792794 (-56).
Proof. repeat split; vm_compute; reflexivity. Qed.

(** Sums and quotients round: [(0.1 + 0.2) / 2] is
    [0.15000000000000002], and [1.025] is published as [1.02]. *)
Example rounding_tests :
  div (add (parseFloat "0.1") (parseFloat "0.2")) (of_Z 2)
  = parseFloat "0.15000000000000002" /\
  parseFloat "0.15000000000000002" <> parseFloat "0.15" /\
  div (add PosInf NegInf) (of_Z 2) = NaN /\
  map Math_round [Fin (5 # 2); Fin (-5 # 2); Fin (-1 # 2); Fin (1 # 5)]
  = [of_Z 3; of_Z (-2); S754_zero true; S754_zero false].
Proof. repeat split; vm_compute; (reflexivity || discriminate). Qed.

Example sort_tests :
  sort [Fin 3; Fin 1; PosInf; Fin 2; NegInf] = [NegInf; Fin 1; Fin 2; Fin 3; PosInf].
Proof. vm_compute. reflexivity. Qed.

End JsFacts.


(* ===================================================================== *)
(** * Numeric texts parse to numbers *)
(* ===================================================================== *)

Module RegexFacts.
Import Js.

Lemma nullable_lang r : nullable r = true -> lang r [].
Proof.
  induction r; simpl; intros H; try discriminate.
  - constructor.
  - apply andb_true_iff in H as [H1 H2].
    change (@nil ascii) with (@nil ascii ++ []). constructor; auto.
  - apply orb_true_iff in H as [H|H]; [apply lang_alt_l|apply lang_alt_r]; auto.
  - constructor.
Qed.

Lemma lang_void l : ~ lang Void l.
Proof. intros H. inversion H. Qed.

Lemma cat_lang r1 r2 l : lang (cat r1 r2) l -> lang (Cat r1 r2) l.
Proof.
  assert (Hl : forall r, lang r l -> lang (Cat Eps r) l).
  { intros r H. change l with ([] ++ l). constructor; [constructor|exact H]. }
  assert (Hr : forall r, lang r l -> lang (Cat r Eps) l).
  { intros r H. rewrite <- (app_nil_r l). constructor; [exact H|constructor]. }
  destruct r1, r2; simpl; intros H;
    first [exact H | exfalso; exact (lang_void _ H) | apply Hl; exact H
          | apply Hr; exact H].
Qed.

Lemma alt_lang r1 r2 l : lang (alt r1 r2) l -> lang (Alt r1 r2) l.
Proof.
  destruct r1, r2; simpl; intros H;
    first [exact H | apply lang_alt_r; exact H | apply lang_alt_l; exact H].
Qed.

Lemma deriv_lang c r : forall l, lang (deriv c r) l -> lang r (c :: l).
Proof.
  induction r as [| |p|r1 IH1 r2 IH2|r1 IH1 r2 IH2|r IH]; simpl; intros l H.
  - inversion H.
  - inversion H.
  - destruct (p c) eqn:E; inversion H; subst. constructor. exact E.
  - assert (Hc : forall l, lang (cat (deriv c r1) r2) l -> lang (Cat r1 r2) (c :: l)).
    { intros l' H'. apply cat_lang in H'. inversion H'; subst.
      change (c :: l1 ++ l2) with ((c :: l1) ++ l2). constructor; auto. }
    destruct (nullable r1) eqn:N; [|apply Hc; exact H].
    apply alt_lang in H. inversion H; subst; [apply Hc; assumption|].
    change (c :: l) with ([] ++ c :: l).
    constructor; [apply nullable_lang; exact N|auto].
  - apply alt_lang in H. inversion H; subst;
      [apply lang_alt_l|apply lang_alt_r]; auto.
  - apply cat_lang in H. inversion H; subst.
    change (c :: l1 ++ l2) with ((c :: l1) ++ l2). constructor; auto.
Qed.

Lemma matches_lang r s : matches r s = true -> lang r (chars s).
Proof.
  unfold matches. generalize (chars s) as l. clear s. intros l. revert r.
  induction l as [|c l IH]; simpl; intros r H.
  - apply nullable_lang. exact H.
  - apply deriv_lang. apply IH. exact H.
Qed.

End RegexFacts.

Module ParseFloatFacts.
Import Js.

Lemma iter_pos_invariant {A : Type} (P : A -> Prop) (f : A -> A) :
  (forall x, P x -> P (f x)) ->
  forall n x, P x -> P (SpecFloat.iter_pos f n x).
Proof.
  intros Hf. induction n as [n IH|n IH|]; intros x Hx; simpl; auto.
Qed.

Lemma shr_1_nonneg mrs : 0 <= shr_m mrs -> 0 <= shr_m (shr_1 mrs).
Proof.
  destruct mrs as [m r s]. simpl. intros H.
  destruct m as [|[p|p|]|p]; simpl; lia.
Qed.

Lemma shr_fexp_nonneg m e l :
  0 <= m -> 0 <= shr_m (fst (shr_fexp precision emax m e l)).
Proof.
  intros H. unfold shr_fexp, shr.
  assert (H0 : 0 <= shr_m (shr_record_of_loc m l)).
  { destruct l as [|[]]; exact H. }
  destruct (fexp precision emax (Zdigits2 m + e) - e) as [|p|p]; simpl;
    [exact H0| |exact H0].
  apply (iter_pos_invariant (fun r => 0 <= shr_m r)); [|exact H0].
  apply shr_1_nonneg.
Qed.

Lemma round_nearest_even_nonneg m l : 0 <= m -> 0 <= round_nearest_even m l.
Proof.
  intros H. destruct l as [|[]]; simpl; try lia.
  destruct (Z.even m); lia.
Qed.

(** Rounding a magnitude gives a zero, a finite number or an infinity. *)
Lemma round_aux_not_NaN s m e l :
  0 <= m -> isNaN (binary_round_aux precision emax s m e l) = false.
Proof.
  intros H. unfold binary_round_aux.
  pose proof (shr_fexp_nonneg m e l H) as H1.
  destruct (shr_fexp precision emax m e l) as [mrs' e']. simpl in H1.
  pose proof (shr_fexp_nonneg _ e' loc_Exact
                (round_nearest_even_nonneg _ (loc_of_shr_record mrs') H1)) as H2.
  destruct (shr_fexp precision emax _ e' loc_Exact) as [mrs'' e''].
  simpl in H2. destruct (shr_m mrs'') as [|p|p]; [reflexivity| |lia].
  destruct (e'' <=? emax - precision); reflexivity.
Qed.

Lemma ratio_not_NaN s n d : isNaN (ratio s n d) = false.
Proof.
  unfold ratio, SFdiv_core_binary. cbv zeta.
  match goal with
  | |- context [Z.div_eucl ?a ?b] =>
      pose proof (Z.div_eucl_eq a b ltac:(discriminate)) as Hq;
      assert (Ha : 0 <= a);
      [|pose proof (Z_div_mod a b ltac:(reflexivity)) as Hr;
        destruct (Z.div_eucl a b) as [q r]]
  end.
  - destruct (0 - 0 - _) as [|p|p]; [lia| |lia].
    apply Z.shiftl_nonneg. lia.
  - apply round_aux_not_NaN. destruct Hr as [Hr1 Hr2]. nia.
Qed.

Lemma is_digit_not_sign c :
  is_digit c = true -> is_char "-" c = false /\ is_char "+" c = false /\
  is_char "." c = false /\ is_space c = false /\ is_char "I" c = false.
Proof.
  intros H. destruct c as [[] [] [] [] [] [] [] []]; try discriminate H;
    repeat split; reflexivity.
Qed.

(** [parseFloat] gives a number when the text, after white space and a
    sign, starts with [Infinity], with a digit, or with a point and a
    digit. *)
Lemma parseFloat_not_NaN s neg l1 :
  take_sign (drop_space (chars s)) = (neg, l1) -> numeric_start l1 ->
  isNaN (parseFloat s) = false.
Proof.
  intros Hs H. unfold parseFloat. rewrite Hs.
  destruct (starts_with (chars "Infinity") l1) eqn:Hinf;
    [destruct neg; reflexivity|].
  assert (Hnum : forall ds e,
            ds <> [] ->
            isNaN match ds with
                  | [] => NaN
                  | _ =>
                      match digits_value ds with
                      | Zpos m =>
                          if 0 <=? e then ratio neg (m * Z.to_pos (10 ^ e)) 1
                          else ratio neg m (Z.to_pos (10 ^ (- e)))
                      | _ => S754_zero neg
                      end
                  end = false).
  { intros ds e Hds. destruct ds as [|d ds]; [congruence|].
    destruct (digits_value (d :: ds)); try reflexivity.
    destruct (0 <=? e); apply ratio_not_NaN. }
  destruct H as [H|[(d & r & -> & Hd)|(d & r & -> & Hd)]]; [congruence| |].
  - cbn [span_digits]. rewrite Hd.
    destruct (span_digits r) as [ds l2].
    destruct (match l2 with
              | c :: r0 => if is_char "." c then span_digits r0 else ([], l2)
              | [] => ([], l2)
              end) as [fp l3].
    apply (Hnum ((d :: ds) ++ fp)). discriminate.
  - cbn [span_digits]. change (is_digit ".") with false. cbv iota.
    change (is_char "." ".") with true. cbv iota.
    cbn [span_digits]. rewrite Hd.
    destruct (span_digits r) as [ds l3].
    apply (Hnum ([] ++ d :: ds)). discriminate.
Qed.

End ParseFloatFacts.

Module NumericFacts.
Import Js RegexFacts ParseFloatFacts.

Ltac invert_lang :=
  repeat match goal with
         | H : lang (Cat _ _) _ |- _ => inversion H; subst; clear H
         | H : lang (Alt _ _) _ |- _ => inversion H; subst; clear H
         | H : lang Eps _ |- _ => inversion H; subst; clear H
         | H : lang (Chr _) _ |- _ => inversion H; subst; clear H
         end.

Lemma spaces_drop ws : lang (Star (Chr is_space)) ws ->
  forall rest, drop_space (ws ++ rest) = drop_space rest.
Proof.
  intros H. remember (Star (Chr is_space)) as r eqn:E.
  induction H as [| | | | | |r' l1 l2 H1 _ H2 IH2]; try discriminate;
    intros rest; [reflexivity|].
  injection E as ->. inversion H1; subst. simpl.
  match goal with Hc : is_space _ = true |- _ => rewrite Hc end.
  apply IH2. reflexivity.
Qed.

Lemma is_char_eq x c : is_char x c = true -> c = x.
Proof. unfold is_char. intros H. apply Ascii.eqb_eq in H. congruence. Qed.

Lemma decimal_start w rest :
  lang StrUnsignedDecimalLiteral w -> numeric_start (w ++ rest).
Proof.
  unfold StrUnsignedDecimalLiteral, digits, plus, lit. intros H.
  inversion H as [| | |r1 r2 l Hi|r1 r2 l Hd| |]; subst; clear H.
  - left. cbn [word chars list_ascii_of_string] in Hi. unfold lit in Hi.
    invert_lang.
    repeat match goal with Hc : is_char _ _ = true |- _ =>
             apply is_char_eq in Hc; subst end.
    reflexivity.
  - inversion Hd as [| | |r1 r2 l Hd1|r1 r2 l Hd2| |]; subst; clear Hd.
    + right. left. inversion Hd1; subst.
      match goal with Hc : lang (Cat (Chr is_digit) _) _ |- _ =>
        inversion Hc; subst end.
      match goal with Hc : lang (Chr is_digit) _ |- _ =>
        inversion Hc; subst end.
      simpl. eauto.
    + right. right. inversion Hd2; subst.
      match goal with Hc : lang (Chr (is_char ".")) _ |- _ =>
        inversion Hc; subst end.
      match goal with Hc : lang (Cat (Cat (Chr is_digit) _) _) _ |- _ =>
        inversion Hc; subst end.
      match goal with Hc : lang (Cat (Chr is_digit) _) _ |- _ =>
        inversion Hc; subst end.
      match goal with Hc : lang (Chr is_digit) _ |- _ =>
        inversion Hc; subst end.
      match goal with Hc : is_char _ _ = true |- _ =>
        apply is_char_eq in Hc; subst end.
      simpl. eauto.
Qed.

Lemma sign_cases sg :
  lang sign sg -> sg = [] \/ sg = ["+"%char] \/ sg = ["-"%char].
Proof.
  unfold sign, opt, lit. intros H. invert_lang; auto;
    match goal with Hc : is_char _ _ = true |- _ =>
      apply is_char_eq in Hc; subst end; auto.
Qed.

Lemma nondecimal_start w :
  lang NonDecimalIntegerLiteral w -> exists r, w = "0"%char :: r.
Proof.
  unfold NonDecimalIntegerLiteral, lit. intros H.
  inversion H; subst.
  match goal with Hc : lang (Chr (is_char "0")) _ |- _ =>
    inversion Hc; subst end.
  match goal with Hc : is_char _ _ = true |- _ =>
    apply is_char_eq in Hc; subst end.
  simpl. eauto.
Qed.

Lemma numeric_start_head l :
  numeric_start l ->
  exists c r, l = c :: r /\ is_space c = false /\
              is_char "-" c = false /\ is_char "+" c = false.
Proof.
  intros [H|[(d & r & -> & Hd)|(d & r & -> & Hd)]].
  - destruct l as [|c r]; [discriminate|].
    unfold chars in H. cbn [list_ascii_of_string starts_with] in H.
    apply andb_true_iff in H as [H _]. apply Ascii.eqb_eq in H. subst c.
    exists "I"%char, r. repeat split; reflexivity.
  - exists d, r. destruct (is_digit_not_sign d Hd) as (? & ? & ? & ? & ?).
    repeat split; assumption.
  - exists "."%char, (d :: r). repeat split; reflexivity.
Qed.

(** A text that converts to a number is white space only, or has after
    its leading white space and a sign the start of a numeric literal. *)
Lemma numeric_literal l :
  lang StringNumericLiteral l ->
  drop_space l = [] \/
  exists neg l1, take_sign (drop_space l) = (neg, l1) /\ numeric_start l1.
Proof.
  unfold StringNumericLiteral, opt. intros H.
  inversion H as [| |r1 r2 ws1 l' Hws1 H'| | | |]; subst; clear H.
  inversion H' as [| |r1 r2 body ws2 Hbody Hws2| | | |]; subst; clear H'.
  rewrite (spaces_drop ws1 Hws1).
  assert (Hstart : forall neg l1,
            numeric_start l1 ->
            (forall c r, l1 = c :: r -> is_space c = false ->
               is_char "-" c = false -> is_char "+" c = false ->
               neg = false) ->
            forall sg, sg = [] \/ (sg = ["+"%char] /\ neg = false)
                       \/ (sg = ["-"%char] /\ neg = true) ->
            take_sign (drop_space (sg ++ l1)) = (neg, l1)).
  { intros neg l1 Hl1 Hneg sg [->|[[-> ->]|[-> ->]]]; try reflexivity.
    destruct (numeric_start_head l1 Hl1) as (c & r & -> & Hsp & Hm & Hp).
    rewrite (Hneg c r eq_refl Hsp Hm Hp).
    cbn [app drop_space]. rewrite Hsp. unfold take_sign.
    rewrite Hm, Hp. reflexivity. }
  inversion Hbody as [| | |r1 r2 l Hnone|r1 r2 l Hsome| |]; subst; clear Hbody.
  - left. inversion Hnone; subst. simpl.
    rewrite <- (app_nil_r ws2). apply (spaces_drop ws2 Hws2).
  - right.
    inversion Hsome as [| | |r1 r2 l Hdec|r1 r2 l Hnon| |]; subst; clear Hsome.
    + inversion Hdec as [| |r1 r2 sg w Hsg Hw| | | |]; subst; clear Hdec.
      pose proof (decimal_start w ws2 Hw) as Hl1.
      rewrite <- app_assoc.
      destruct (sign_cases sg Hsg) as [-> | [-> | ->]].
      * exists false, (w ++ ws2). split; [|exact Hl1].
        apply (Hstart false _ Hl1 (fun _ _ _ _ _ _ => eq_refl) []). auto.
      * exists false, (w ++ ws2). split; [|exact Hl1].
        apply (Hstart false _ Hl1 (fun _ _ _ _ _ _ => eq_refl) ["+"%char]). auto.
      * exists true, (w ++ ws2). split; [|exact Hl1]. reflexivity.
    + destruct (nondecimal_start body Hnon) as [r ->].
      assert (Hl1 : numeric_start (("0"%char :: r) ++ ws2)).
      { right. left. exists "0"%char, (r ++ ws2). split; reflexivity. }
      exists false, (("0"%char :: r) ++ ws2). split; [|exact Hl1].
      reflexivity.
Qed.

(** A text that [isNumeric] accepts parses to a number. *)
Lemma isNumeric_parseFloat s :
  CsvGrammar.isNumeric s = true -> isNaN (parseFloat s) = false.
Proof.
  unfold CsvGrammar.isNumeric, isNaN_Number. rewrite negb_involutive.
  intros H. apply andb_true_iff in H as [Hm Ht].
  apply matches_lang, numeric_literal in Hm.
  destruct Hm as [Hm|(neg & l1 & Hs & Hl1)].
  - exfalso. unfold trim in Ht. rewrite Hm in Ht. discriminate Ht.
  - exact (parseFloat_not_NaN s neg l1 Hs Hl1).
Qed.

End NumericFacts.

Module LoopFacts.
Import Csv.

Lemma for_loop_ext {S} n : forall start (body body' : nat -> S -> S) s,
  (forall i x, body i x = body' i x) ->
  for_loop n start body s = for_loop n start body' s.
Proof.
  induction n as [|n IH]; intros start body body' s H; simpl; [reflexivity|].
  rewrite H. apply IH. exact H.
Qed.

Lemma for_loop_shift {S} n : forall start (body : nat -> S -> S) s,
  for_loop n (Datatypes.S start) body s =
  for_loop n start (fun i => body (Datatypes.S i)) s.
Proof.
  induction n as [|n IH]; intros start body s; simpl; [reflexivity|].
  apply IH.
Qed.

(** A loop that adds the points of the [i]-th pair of cells computes the
    sum over the zipped rows. *)
Lemma for_loop_zip (p : string -> string -> Z) : forall row0 row1 s,
  for_loop (Nat.min (List.length row0) (List.length row1)) 0
           (fun i x => x + p (cell row0 i) (cell row1 i)) s =
  s + fold_right Z.add 0 (zip_with p row0 row1).
Proof.
  induction row0 as [|a row0 IH]; intros row1 s; [simpl; lia|].
  destruct row1 as [|b row1]; [simpl; lia|].
  cbn [List.length Nat.min for_loop zip_with fold_right].
  rewrite for_loop_shift.
  change (for_loop (Nat.min (List.length row0) (List.length row1)) 0
            (fun i x => x + p (cell row0 i) (cell row1 i))
            (s + p a b) =
          s + (p a b + fold_right Z.add 0 (zip_with p row0 row1))).
  rewrite IH. lia.
Qed.

Lemma for_loop_snoc {A} (f : nat -> A) n : forall start (acc : list A),
  for_loop n start (fun i l => l ++ [f i]) acc = acc ++ map f (seq start n).
Proof.
  induction n as [|n IH]; intros start acc; simpl.
  - rewrite app_nil_r. reflexivity.
  - rewrite IH, <- app_assoc. reflexivity.
Qed.

End LoopFacts.

Module CsvFacts.
Import Js Csv.

Example parse_tests :
  parseCsvLine "a,b,c" ","%char = ["a"; "b"; "c"]%string /\
  parseCsvLine "a,b,c" ";"%char = ["a,b,c"]%string /\
  parseCsvLine "x, y ,," ","%char = ["x"; "y"; EmptyString; EmptyString]%string.
Proof. repeat split; vm_compute; reflexivity. Qed.

Example pipeline_test :
  let s := analyzeCsv permissive
             (String.append "Name,Age" (String.append (str [ascii_of_nat 10])
             (String.append "Alice,30" (String.append (str [ascii_of_nat 10]) "Bob,25")))) in
  hasHeader s = true /\ delimiter s = ","%char /\ totalRows s = 3%nat /\
  map type (columns s) = [string_t; number_t] /\
  map min (columns s) = [None; Some (Fin 25)] /\
  map max (columns s) = [None; Some (Fin 30)] /\
  map name (columns s) = ["Name"; "Age"]%string.
Proof. vm_compute. repeat split; reflexivity. Qed.

(** **** Counting in [inferColumnType] *)
Lemma add_if_hits (test : string -> bool) x n sample :
  (add_if (test x) n + Claimed.hits test sample)%nat =
  (n + Claimed.hits test (x :: sample))%nat.
Proof.
  unfold add_if, Claimed.hits. simpl. destruct (test x); simpl; lia.
Qed.

Lemma tally_counts rt sample : forall c,
  fold_left (tally rt) sample c =
  mkCounts (numericCount c + Claimed.hits isNumeric sample)
           (booleanCount c + Claimed.hits isBoolean sample)
           (dateCount c + Claimed.hits (isDate rt) sample)
           (emailCount c + Claimed.hits isEmail sample)
           (urlCount c + Claimed.hits (isUrl rt) sample).
Proof.
  induction sample as [|x sample IH]; intros c.
  - destruct c. unfold Claimed.hits. simpl. f_equal; lia.
  - cbn [fold_left]. rewrite IH. unfold tally. cbn [numericCount booleanCount
      dateCount emailCount urlCount]. rewrite !add_if_hits. reflexivity.
Qed.

Lemma reaches_zero_total n : reaches n 0 = false.
Proof.
  unfold reaches. simpl. unfold Qdiv, Qinv. simpl.
  rewrite Qmult_0_r. reflexivity.
Qed.

Lemma inferColumnType_spec rt values :
  inferColumnType rt values =
  match Claimed.first_reaching (Claimed.five_tests rt) (take 100 values) with
  | Some t => t
  | None => Claimed.mixed_or_string (Claimed.five_tests rt) (take 100 values)
  end.
Proof.
  destruct values as [|v values].
  - unfold Claimed.first_reaching, Claimed.five_tests. cbn [take List.find fst].
    unfold Claimed.hits. cbn [List.filter List.length].
    rewrite reaches_zero_total. reflexivity.
  - unfold inferColumnType. rewrite tally_counts.
    cbn [numericCount booleanCount dateCount emailCount urlCount Nat.add].
    set (sample := take 100 (v :: values)).
    unfold Claimed.first_reaching, Claimed.five_tests. cbn [List.find fst snd].
    destruct (reaches (Claimed.hits isEmail sample) (List.length sample));
      [reflexivity|].
    destruct (reaches (Claimed.hits (isUrl rt) sample) (List.length sample));
      [reflexivity|].
    destruct (reaches (Claimed.hits isBoolean sample) (List.length sample));
      [reflexivity|].
    destruct (reaches (Claimed.hits isNumeric sample) (List.length sample));
      [reflexivity|].
    destruct (reaches (Claimed.hits (isDate rt) sample) (List.length sample));
      [reflexivity|].
    unfold Claimed.mixed_or_string, Claimed.kinds_hit. cbn [List.filter fst].
    destruct (positive (Claimed.hits isNumeric sample));
    destruct (positive (Claimed.hits isBoolean sample));
    destruct (positive (Claimed.hits (isDate rt) sample));
    destruct (positive (Claimed.hits isEmail sample));
    destruct (positive (Claimed.hits (isUrl rt) sample)); reflexivity.
Qed.

(** **** Columns without values *)
Lemma lookup_map_seq {A} (f : nat -> A) n : forall s i,
  (i < n)%nat -> map f (seq s n) !! i = Some (f (s + i)%nat).
Proof.
  induction n as [|n IH]; intros s i Hi; [lia|].
  destruct i as [|i]; simpl.
  - rewrite Nat.add_0_r. reflexivity.
  - rewrite IH by lia. f_equal. f_equal. lia.
Qed.

Lemma analyzeColumns_lookup rt headers dataRows columnCount colIndex :
  (colIndex < columnCount)%nat ->
  analyzeColumns rt headers dataRows columnCount !! colIndex =
  Some (analyzeColumn rt headers dataRows colIndex).
Proof.
  intros H. unfold analyzeColumns. rewrite LoopFacts.for_loop_snoc.
  simpl. rewrite lookup_map_seq by exact H. reflexivity.
Qed.

Lemma column_values_empty (dataRows : list (list string)) colIndex :
  Forall (fun row : list string =>
            row !! colIndex = None \/ row !! colIndex = Some EmptyString)
         dataRows ->
  column_values dataRows colIndex = [].
Proof.
  unfold column_values. induction 1 as [|row rows Hrow _ IH]; [reflexivity|].
  simpl. replace (cell row colIndex) with EmptyString; [exact IH|].
  unfold cell. clear -Hrow. revert colIndex Hrow.
  induction row as [|c row IHr]; intros [|i] H; simpl in *; auto.
  - destruct H as [H|H]; congruence.
Qed.

Lemma header_step_points first second s :
  header_step first second s =
  s + Claimed.header_points_penalised first second.
Proof.
  unfold header_step, Claimed.header_points_penalised, Claimed.header_points.
  destruct (isNaN_Number first && negb (isNaN_Number second));
  destruct ((length second <? length first) && (3 <? length first));
  destruct (has_letter first && negb (has_letter second));
  destruct (length first =? 0); lia.
Qed.

Lemma detectHeader_spec rows :
  detectHeader rows =
  match rows with
  | row0 :: row1 :: _ =>
      (List.length row0 =? List.length row1)%nat &&
      (0 <? fold_right Z.add 0
              (zip_with Claimed.header_points_penalised row0 row1))
  | _ => false
  end.
Proof.
  destruct rows as [|row0 [|row1 rows]]; try reflexivity.
  unfold detectHeader.
  destruct (Nat.eqb_spec (List.length row0) (List.length row1)) as [E|E];
    [|reflexivity].
  cbn [negb andb].
  rewrite (LoopFacts.for_loop_ext _ _ _
             (fun i x => x + Claimed.header_points_penalised
                               (cell row0 i) (cell row1 i)))
    by (intros; apply header_step_points).
  replace (List.length row0)
    with (Nat.min (List.length row0) (List.length row1)) at 1 by lia.
  rewrite LoopFacts.for_loop_zip. reflexivity.
Qed.

End CsvFacts.

Module CsvGrammarFacts.
Import Js CsvGrammar.

Example grammar_pipeline_test :
  let a := analyzeCSV Csv.permissive
             [["Name"; "Age"]; ["Alice"; "30"]; ["Bob"; "25"]]%string in
  hasHeader a = true /\ columnCount a = 2%nat /\
  map type (columns a) = [Csv.string_t; Csv.number_t] /\
  map (fun c => median (statistics c)) (columns a) = [None; Some (Fin (55 # 2))] /\
  map (fun c => avg (statistics c)) (columns a) = [None; Some (Fin (55 # 2))] /\
  map (fun c => min (statistics c)) (columns a) = [None; Some (Fin 25)] /\
  map (fun c => max (statistics c)) (columns a) = [None; Some (Fin 30)].
Proof. vm_compute. repeat split; reflexivity. Qed.

Example median_tests :
  calculateMedian [Fin 1; Fin 2; Fin 3; Fin 4] = Fin (5 # 2) /\
  calculateMedian [Fin 1; Fin 2; Fin 3] = Fin 2 /\
  calculateMedian [] = NaN.
Proof. repeat split; vm_compute; reflexivity. Qed.

Example pattern_tests :
  isEmail "a@x.com" = false /\ isPhone "5551234567" = true /\
  isPhone "30" = false /\ Csv.isEmail "a@x.com" = true /\
  Csv.isEmail "a@x" = false /\ Csv.isEmail "a b@x.com" = false.
Proof. repeat split; vm_compute; reflexivity. Qed.

(** **** Counting in [analyzeColumnValues] *)
Lemma visit_loop rt sample : forall st,
  fold_left (visit rt) sample st =
  mkLoop
    (mkPatterns
       (numeric (patterns st) + Claimed.hits isNumeric (map trim sample))
       (boolean (patterns st) + Claimed.hits isBoolean (map trim sample))
       (date (patterns st) + Claimed.hits (isDate rt) (map trim sample))
       (email (patterns st) + Claimed.hits isEmail (map trim sample))
       (url (patterns st) + Claimed.hits (isUrl rt) (map trim sample))
       (phone (patterns st) + Claimed.hits isPhone (map trim sample)))
    (numericValues st ++
       map parseFloat (List.filter isNumeric (map trim sample)))
    (lengths st ++ map (fun v => of_Z (length v)) (map trim sample)).
Proof.
  induction sample as [|x sample IH]; intros st.
  - destruct st as [[] ? ?]. unfold Claimed.hits. simpl.
    rewrite !app_nil_r. do 2 f_equal; lia.
  - cbn [fold_left]. rewrite IH. unfold visit.
    cbn [patterns numericValues lengths numeric boolean date email url phone map].
    rewrite !CsvFacts.add_if_hits.
    f_equal.
    + cbn [List.filter]. destruct (isNumeric (trim x)); simpl;
        rewrite <- ?app_assoc; reflexivity.
    + rewrite <- app_assoc. reflexivity.
Qed.

Lemma analyzeColumnValues_type rt values :
  fst (analyzeColumnValues rt values) =
  match Claimed.first_reaching (Claimed.grammar_tests rt)
                               (map trim (take 100 values)) with
  | Some t => t
  | None => Csv.string_t
  end.
Proof.
  destruct values as [|v values].
  - unfold Claimed.first_reaching, Claimed.grammar_tests.
    cbn [take map List.find fst]. unfold Claimed.hits.
    cbn [List.filter List.length]. rewrite CsvFacts.reaches_zero_total.
    reflexivity.
  - unfold analyzeColumnValues. rewrite visit_loop.
    cbn [fst patterns numeric boolean date email url phone Nat.add].
    set (sample := take 100 (v :: values)).
    unfold Claimed.first_reaching, Claimed.grammar_tests.
    cbn [List.find fst snd]. rewrite !length_map.
    repeat match goal with
           | |- context [Csv.reaches ?c ?t] => destruct (Csv.reaches c t)
           end; reflexivity.
Qed.

Lemma at_index_of_nat l k : at_index l (Z.of_nat k) = nth k l NaN.
Proof.
  unfold at_index. destruct (Z.ltb_spec (Z.of_nat k) 0); [lia|].
  rewrite Nat2Z.id. reflexivity.
Qed.

(** The median in terms of positions of the sorted array. *)
Lemma calculateMedian_formula numbers :
  calculateMedian numbers =
  let sorted := sort numbers in
  let n := List.length numbers in
  if (n mod 2 =? 0)%nat
  then div (add (nth (n / 2 - 1) sorted NaN) (nth (n / 2) sorted NaN)) (of_Z 2)
  else nth (n / 2) sorted NaN.
Proof.
  unfold calculateMedian. cbv zeta.
  pose proof (Permutation_length (JsFacts.sort_perm numbers)) as Hlen.
  rewrite Hlen. set (n := List.length numbers) in *.
  change 2 with (Z.of_nat 2).
  rewrite <- Nat2Z.inj_mod, <- Nat2Z.inj_div.
  replace (Z.of_nat (n mod 2) =? 0) with (n mod 2 =? 0)%nat
    by (destruct (Nat.eqb_spec (n mod 2) 0), (Z.eqb_spec (Z.of_nat (n mod 2)) 0);
        lia || reflexivity).
  rewrite at_index_of_nat.
  destruct (Nat.eqb_spec (n mod 2) 0) as [E|E]; [|reflexivity].
  destruct (n / 2)%nat as [|k] eqn:Ek.
  - assert (n = 0)%nat as Hn.
    { pose proof (Nat.div_mod_eq n 2). lia. }
    destruct (sort numbers); [reflexivity|simpl in Hlen; lia].
  - replace (Z.of_nat (Datatypes.S k) - 1) with (Z.of_nat k) by lia.
    rewrite at_index_of_nat. simpl. rewrite Nat.sub_0_r. reflexivity.
Qed.

(** On a sample of at most 100 values the threshold test is the
    comparison of the code: the rounded quotient against the number
    nearest to [0.8]. *)
Lemma reaches_number c t :
  (c <= t <= 100)%nat ->
  Csv.reaches c t = le (Fin (8 # 10)) (div (of_nat c) (of_nat t)).
Proof.
  intros H.
  assert (Hall : forallb (fun t' =>
                   forallb (fun c' =>
                     Bool.eqb (Csv.reaches c' t')
                              (le (Fin (8 # 10)) (div (of_nat c') (of_nat t'))))
                     (seq 0 (Datatypes.S t')))
                   (seq 0 101) = true) by (vm_compute; reflexivity).
  rewrite forallb_forall in Hall.
  assert (Ht : In t (seq 0 101)) by (apply in_seq; lia).
  specialize (Hall t Ht). rewrite forallb_forall in Hall.
  assert (Hc : In c (seq 0 (Datatypes.S t))) by (apply in_seq; lia).
  apply Bool.eqb_prop. exact (Hall c Hc).
Qed.

Lemma reaches_positive c t : Csv.reaches c t = true -> (0 < c)%nat.
Proof.
  destruct c as [|c]; [|lia]. intros H. unfold Csv.reaches in H.
  apply Qle_bool_iff in H. exfalso.
  assert (inject_Z (Z.of_nat 0) / inject_Z (Z.of_nat t) == 0)%Q as E
    by (unfold Qdiv; apply Qmult_0_l).
  rewrite E in H. unfold Csv.threshold, Qle in H. simpl in H. lia.
Qed.

(** A column typed [number] by the grammar's analysis has at least one
    parsed value, and its statistics carry the four numeric entries. *)
Lemma number_statistics rt values :
  fst (analyzeColumnValues rt values) = Csv.number_t ->
  let numbers :=
    map parseFloat (List.filter isNumeric (map trim (take 100 values))) in
  numbers <> [] /\
  min (snd (analyzeColumnValues rt values)) = Some (Math_min numbers) /\
  max (snd (analyzeColumnValues rt values)) = Some (Math_max numbers) /\
  avg (snd (analyzeColumnValues rt values)) =
    Some (div (sum numbers) (of_nat (List.length numbers))) /\
  median (snd (analyzeColumnValues rt values)) = Some (calculateMedian numbers).
Proof.
  destruct values as [|v values]; [discriminate|].
  unfold analyzeColumnValues. rewrite visit_loop.
  cbn [fst snd patterns numericValues lengths numeric boolean date email url
       phone Nat.add app].
  set (sample := map trim (take 100 (v :: values))).
  set (numbers := map parseFloat (List.filter isNumeric sample)).
  intros Htype. cbv zeta.
  assert (Hnum : Csv.reaches (Claimed.hits isNumeric sample)
                             (List.length (take 100 (v :: values))) = true
                 /\ (if Csv.reaches (Claimed.hits isEmail sample)
                          (List.length (take 100 (v :: values)))
                     then Csv.email_t
                     else if Csv.reaches (Claimed.hits (isUrl rt) sample)
                               (List.length (take 100 (v :: values)))
                     then Csv.url_t
                     else if Csv.reaches (Claimed.hits isPhone sample)
                               (List.length (take 100 (v :: values)))
                     then Csv.phone_t
                     else if Csv.reaches (Claimed.hits isBoolean sample)
                               (List.length (take 100 (v :: values)))
                     then Csv.boolean_t
                     else if Csv.reaches (Claimed.hits isNumeric sample)
                               (List.length (take 100 (v :: values)))
                     then Csv.number_t
                     else if Csv.reaches (Claimed.hits (isDate rt) sample)
                               (List.length (take 100 (v :: values)))
                     then Csv.date_t
                     else Csv.string_t) = Csv.number_t).
  { split; [|exact Htype]. revert Htype.
    repeat match goal with
           | |- context [Csv.reaches ?c ?t] => destruct (Csv.reaches c t)
           end; congruence. }
  destruct Hnum as [Hreach Heq]. rewrite Heq.
  apply reaches_positive in Hreach.
  assert (Hne : numbers <> []).
  { unfold numbers, Claimed.hits in *.
    destruct (List.filter isNumeric sample); [simpl in Hreach; lia|discriminate]. }
  split; [exact Hne|].
  destruct numbers as [|x numbers']; [congruence|]. repeat split.
Qed.

Lemma grammar_header_step_points first second s :
  header_step first second s = s + Claimed.header_points first second.
Proof.
  unfold header_step, Claimed.header_points.
  destruct (isNaN_Number first && negb (isNaN_Number second));
  destruct ((length second <? length first) && (3 <? length first));
  destruct (Csv.has_letter first && negb (Csv.has_letter second)); lia.
Qed.

Lemma grammar_detectHeader_spec rows columnCount :
  detectHeader rows columnCount =
  Claimed.header_present (map (take columnCount) rows).
Proof.
  destruct rows as [|row0 [|row1 rows]]; try reflexivity.
  unfold detectHeader, Claimed.header_present, Claimed.header_score.
  cbn [map].
  rewrite (LoopFacts.for_loop_ext _ _ _
             (fun i x => x + Claimed.header_points
                               (Csv.cell (take columnCount row0) i)
                               (Csv.cell (take columnCount row1) i)))
    by (intros; apply grammar_header_step_points).
  rewrite LoopFacts.for_loop_zip. reflexivity.
Qed.

End CsvGrammarFacts.

Module DelimiterFacts.
Import Js Csv JsFacts.

Lemma fold_left_map_add {A : Type} (f : A -> number) (l : list A) : forall a,
  fold_left (fun acc x => add acc (f x)) l a = fold_left add (map f l) a.
Proof. induction l as [|x l IH]; intros a; simpl; [reflexivity|apply IH]. Qed.

(** The score computed by the loop body is the score of the
    specification on the lengths of the first ten rows. *)
Lemma score_claimed lines d :
  score lines d = Claimed.delimiter_score (rowLengths lines d).
Proof.
  unfold score, Claimed.delimiter_score, Claimed.score_of, Claimed.variance,
    Claimed.mean, Claimed.total.
  cbv zeta.
  rewrite (fold_left_map_add
             (fun len => pow2 (sub len (div (fold_left add (rowLengths lines d)
                                                       (of_Z 0))
                                            (of_nat (List.length
                                                       (rowLengths lines d))))))).
  rewrite length_map. reflexivity.
Qed.

Lemma total_positive_sign l : forall a,
  positive_sign a = true -> Forall (fun x => positive_sign x = true) l ->
  positive_sign (fold_left add l a) = true.
Proof.
  induction l as [|x l IH]; intros a Ha Hl; simpl; [exact Ha|].
  pose proof (List.Forall_inv Hl) as Hx.
  pose proof (List.Forall_inv_tail Hl) as Hl'.
  apply IH; [apply add_positive_sign; assumption|exact Hl'].
Qed.

Lemma mean_positive_sign l :
  Forall (fun x => positive_sign x = true) l ->
  positive_sign (Claimed.mean l) = true.
Proof.
  intros Hl. unfold Claimed.mean, Claimed.total.
  apply div_positive_sign; [|apply of_nat_positive_sign].
  apply total_positive_sign; [reflexivity|exact Hl].
Qed.

Lemma score_of_positive_sign mu sigma2 :
  positive_sign mu = true -> positive_sign sigma2 = true ->
  positive_sign (Claimed.score_of mu sigma2) = true.
Proof.
  intros Hmu Hs. unfold Claimed.score_of. cbv zeta.
  apply mul_positive_sign; [|exact Hmu].
  apply mul_positive_sign.
  - destruct (lt (of_Z 1) mu); [|reflexivity].
    apply div_positive_sign; [reflexivity|].
    apply add_positive_sign; [reflexivity|exact Hs].
  - destruct (le (of_Z 2) mu && le mu (of_Z 50)); reflexivity.
Qed.

(** No score has its sign bit set: a score is [NaN], a zero without
    sign, a positive number or [Infinity]. *)
Lemma score_positive_sign lines d : positive_sign (score lines d) = true.
Proof.
  rewrite score_claimed. apply score_of_positive_sign.
  - apply mean_positive_sign. unfold rowLengths. apply List.Forall_forall.
    intros y Hy. apply in_map_iff in Hy as [x [<- _]].
    apply of_nat_positive_sign.
  - apply mean_positive_sign. apply List.Forall_forall.
    intros y Hy. apply in_map_iff in Hy as [x [<- _]].
    apply pow2_positive_sign.
Qed.

(** A number without sign bit that is not above [0] is [0] or [NaN]. *)
Lemma positive_sign_not_above a :
  positive_sign a = true -> lt (of_Z 0) a = false ->
  a = S754_zero false \/ a = NaN.
Proof.
  destruct a as [[|]| [|] | |[|] m e]; cbn; intros Hs Hl;
    try discriminate; auto.
Qed.

Lemma consider_step f lines processed best m d :
  (forall c, f c = score lines c) ->
  Claimed.running_best f processed best m ->
  Claimed.running_best f (processed ++ [d])
    (fst (consider lines (best, m) d)) (snd (consider lines (best, m) d)).
Proof.
  intros Hf (before & after & -> & Hb & Ha & Hn & Hm).
  unfold consider. cbn [snd]. rewrite <- Hf.
  destruct (lt m (f d)) eqn:E; cbn [fst snd].
  - destruct (lt_not_NaN _ _ E) as [_ Hd].
    exists (before ++ best :: after), []. split; [reflexivity|].
    assert (Hbest : lt (f best) (f d) = true \/ isNaN (f best) = true).
    { destruct Hm as [->|(_ & _ & Hz)]; [left; exact E|].
      destruct (isNaN (f best)) eqn:N; [right; reflexivity|left].
      apply le_lt_trans with m; [|exact E].
      apply not_lt_le; assumption. }
    split; [|split; [intros x []|split; [exact Hd|left; reflexivity]]].
    intros x Hx. apply in_app_or in Hx as [Hx|[<-|Hx]].
    + destruct Hm as [->|(-> & _)]; [|destruct Hx].
      destruct (Hb x Hx) as [Hlt|Hnan]; [left|right; exact Hnan].
      apply lt_trans with (f best); assumption.
    + exact Hbest.
    + destruct (isNaN (f x)) eqn:N; [right; reflexivity|left].
      apply le_lt_trans with m; [|exact E].
      apply not_lt_le; auto.
  - exists before, (after ++ [d]). split; [rewrite <- app_assoc; reflexivity|].
    split; [exact Hb|]. split; [|split; [exact Hn|exact Hm]].
    intros x Hx. apply in_app_or in Hx as [Hx|[<-|[]]]; auto.
Qed.

Lemma fold_consider f lines : forall rest processed best m,
  (forall c, f c = score lines c) ->
  Claimed.running_best f processed best m ->
  Claimed.running_best f (processed ++ rest)
    (fst (fold_left (consider lines) rest (best, m)))
    (snd (fold_left (consider lines) rest (best, m))).
Proof.
  induction rest as [|d rest IH]; intros processed best m Hf Hbest.
  - rewrite app_nil_r. exact Hbest.
  - cbn [fold_left].
    pose proof (consider_step f lines processed best m d Hf Hbest) as Hb'.
    destruct (consider lines (best, m) d) as [best' m'].
    change (processed ++ d :: rest) with (processed ++ [d] ++ rest).
    rewrite app_assoc. apply IH; assumption.
Qed.

(** The state of the loop after the first candidate. *)
Lemma consider_first lines :
  Claimed.running_best (score lines) [","%char]
    (fst (consider lines (","%char, of_Z 0) ","%char))
    (snd (consider lines (","%char, of_Z 0) ","%char)).
Proof.
  unfold consider. cbn [snd].
  destruct (lt (of_Z 0) (score lines ",")) eqn:E; cbn [fst snd];
    exists [], []; (split; [reflexivity|]);
    (split; [intros x []|]); (split; [intros x []|]).
  - destruct (lt_not_NaN _ _ E) as [_ Hd]. split; [exact Hd|left; reflexivity].
  - split; [reflexivity|right; auto].
Qed.

(** When the loop ends the candidate it holds is the earliest best. *)
Lemma running_best_earliest lines processed best m :
  Claimed.running_best (score lines) processed best m ->
  Claimed.earliest_best (score lines) processed best.
Proof.
  intros (before & after & -> & Hb & Ha & Hn & Hm).
  exists before, after. split; [reflexivity|]. split; [exact Hb|].
  intros x Hx. specialize (Ha x Hx).
  destruct (isNaN (score lines x)) eqn:Nx; [right; left; reflexivity|].
  destruct Hm as [->|(_ & -> & Hz)].
  - left. apply not_lt_le; assumption.
  - destruct (positive_sign_not_above _ (score_positive_sign lines best) Hz)
      as [Eb|Eb]; rewrite Eb; [|right; right; reflexivity].
    destruct (positive_sign_not_above _ (score_positive_sign lines x) Ha)
      as [Ex|Ex]; rewrite Ex in *; [left; reflexivity|discriminate].
Qed.

Lemma detectDelimiter_best lines :
  Claimed.earliest_best (score lines) delimiters (detectDelimiter lines).
Proof.
  unfold detectDelimiter, delimiters.
  change (fold_left (consider lines) [","; ";"; tab; "|"; ":"]%char
                    (","%char, of_Z 0))
    with (fold_left (consider lines) [";"; tab; "|"; ":"]%char
                    (consider lines (","%char, of_Z 0) ","%char)).
  pose proof (consider_first lines) as H0.
  destruct (consider lines (","%char, of_Z 0) ","%char) as [b m].
  cbn [fst snd] in H0.
  apply (running_best_earliest lines _ _
           (snd (fold_left (consider lines) [";"; tab; "|"; ":"]%char (b, m)))).
  apply (fold_consider (score lines) lines [";"; tab; "|"; ":"]%char
                       [","%char] b m); [reflexivity|exact H0].
Qed.

(** The scores compared are the doubles of the code: on these six lines
    the comma and the semicolon have the same exact score [9/5], but the
    double of the comma is [1.8] and that of the semicolon is
    [1.8000000000000003], and the semicolon is returned. *)
Example detectDelimiter_rounding :
  let lines := [",,,,,,;"; ",,,,,,,,,,;;"; ",,,,,,;;;";
                ",,,,,,,,,,;"; ",,,,,,;;"; ",,,,,,,,,,;;;"]%string in
  rowLengths lines "," = map of_Z [7; 11; 7; 11; 7; 11]%Z /\
  rowLengths lines ";" = map of_Z [2; 3; 4; 2; 3; 4]%Z /\
  score lines "," = S754_finite false 8106479329266893 (-52) /\
  score lines ";" = S754_finite false 8106479329266894 (-52) /\
  detectDelimiter lines = ";"%char.
Proof. repeat split; vm_compute; reflexivity. Qed.

End DelimiterFacts.

(* ===================================================================== *)
(** * The tabular claims *)
(* ===================================================================== *)

Module TabularClaims.
Import Js.

(** C5 fails on the code as stated.  [CsvGenerator.inferColumnType] has no
    phone test: a column of one ten-digit number is [number], where the
    stated rule gives [phone].  The grammar's [analyzeColumnValues] has no
    [mixed] outcome: a column that is half boolean and half numeric is
    [string], where the stated rule gives [mixed]. *)
Lemma inferColumnType_counterexample :
  Claimed.inferred_type Csv.permissive ["5551234567"]%string = Csv.phone_t /\
  Csv.inferColumnType Csv.permissive ["5551234567"]%string = Csv.number_t /\
  Claimed.inferred_type Csv.permissive ["yes"; "12.5"]%string = Csv.mixed_t /\
  fst (CsvGrammar.analyzeColumnValues Csv.permissive ["yes"; "12.5"]%string)
    = Csv.string_t.
Proof. repeat split; vm_compute; reflexivity. Qed.

(** C5 as amended.  Both analyzers sample the first 100 values and assign
    the first type, in priority order, whose hit ratio is at least 0.8.
    [CsvGenerator.inferColumnType] tests email, url, boolean, number and
    date on the values, and without such a type answers [mixed] when more
    than one of the five tests has a hit and [string] otherwise.  The
    grammar's [analyzeColumnValues] tests email, url, phone, boolean,
    number and date on the trimmed values, and without such a type answers
    [string].  [CsvGenerator] infers [email] for the three addresses. *)
Theorem inferColumnType_rules (rt : Csv.Runtime) (values : list string) :
  Csv.inferColumnType rt values =
    match Claimed.first_reaching (Claimed.five_tests rt) (take 100 values) with
    | Some t => t
    | None => Claimed.mixed_or_string (Claimed.five_tests rt) (take 100 values)
    end /\
  fst (CsvGrammar.analyzeColumnValues rt values) =
    match Claimed.first_reaching (Claimed.grammar_tests rt)
                                 (map trim (take 100 values)) with
    | Some t => t
    | None => Csv.string_t
    end /\
  Csv.inferColumnType rt ["a@x.com"; "b@y.com"; "c@z.com"]%string = Csv.email_t.
Proof.
  split; [apply CsvFacts.inferColumnType_spec|].
  split; [apply CsvGrammarFacts.analyzeColumnValues_type|].
  rewrite CsvFacts.inferColumnType_spec. vm_compute. reflexivity.
Qed.

(** C6.  [detectDelimiter] scores the candidates [, ; TAB | :] in that
    order on the first ten lines at most; the score of a candidate is the
    consistency [1 / (1 + variance)] (or [0] when the mean row length is not
    above 1) times the bonus ([1] when the mean is between 2 and 50, else
    [0.5]) times the mean, each operation in the double arithmetic of the
    code and the sums taken from the left; the delimiter returned scores
    strictly higher than every candidate before it and at least as high as
    every candidate after it, where a score that is [NaN] (no line at all)
    compares with nothing.  The three-line text of the specification
    detects the comma. *)
Theorem detectDelimiter_earliest_best (lines : list string) :
  Csv.delimiters = [","; ";"; Csv.tab; "|"; ":"]%char /\
  (forall d, Csv.rowLengths lines d =
             map (fun line => of_nat (List.length (Csv.parseCsvLine line d)))
                 (take 10 lines)) /\
  (forall d,
     Csv.score lines d = Claimed.delimiter_score (Csv.rowLengths lines d)) /\
  Claimed.earliest_best (Csv.score lines) Csv.delimiters
                        (Csv.detectDelimiter lines) /\
  Csv.lines_of Csv.letters_text = ["a,b,c"; "1,2,3"; "4,5,6"]%string /\
  Csv.detectDelimiter (Csv.lines_of Csv.letters_text) = ","%char.
Proof.
  split; [reflexivity|]. split; [reflexivity|].
  split; [intros d; apply DelimiterFacts.score_claimed|].
  split; [apply DelimiterFacts.detectDelimiter_best|].
  split; vm_compute; reflexivity.
Qed.

(** C7 fails on the code as stated.  [CsvGenerator.detectHeader] reports no
    header for rows of different lengths although the stated score over the
    shared columns is positive, and it subtracts [2] for an empty first
    cell; the grammar's analysis compares only the first [columnCount]
    cells, and the modal row length can be smaller than both rows. *)
Lemma detectHeader_counterexample :
  Claimed.header_present [["Name"; "Age"; "City"]; ["Alice"; "30"]]%string = true /\
  Csv.detectHeader [["Name"; "Age"; "City"]; ["Alice"; "30"]]%string = false /\
  Claimed.header_present [[EmptyString; "Abcd"]; [EmptyString; "xyz"]]%string = true /\
  Csv.detectHeader [[EmptyString; "Abcd"]; [EmptyString; "xyz"]]%string = false /\
  Claimed.header_present
    [["Name"; "Age"]; ["Alice"; "30"]; ["x"]; ["y"]; ["z"]]%string = true /\
  CsvGrammar.hasHeader
    (CsvGrammar.analyzeCSV Csv.permissive
       [["Name"; "Age"]; ["Alice"; "30"]; ["x"]; ["y"]; ["z"]]%string) = false.
Proof. repeat split; vm_compute; reflexivity. Qed.

(** C7 as amended.  [CsvGenerator.detectHeader]: no header with fewer than
    two rows or when rows 0 and 1 differ in length; otherwise the score is
    the sum over the columns of the three stated increments, less [2]
    for every empty first cell, and a header is reported exactly when the
    score is positive.  The grammar's [detectHeader(rows, columnCount)]: the
    stated rule, applied to rows 0 and 1 cut to [columnCount] cells.  Both
    detect a header for [Name, Age] over [Alice, 30]. *)
Theorem detectHeader_rules :
  (forall rows,
     Csv.detectHeader rows =
     match rows with
     | row0 :: row1 :: _ =>
         (List.length row0 =? List.length row1)%nat &&
         (0 <? fold_right Z.add 0
                 (zip_with Claimed.header_points_penalised row0 row1))
     | _ => false
     end) /\
  (forall rows columnCount,
     CsvGrammar.detectHeader rows columnCount =
     Claimed.header_present (map (take columnCount) rows)) /\
  Csv.detectHeader [["Name"; "Age"]; ["Alice"; "30"]]%string = true /\
  CsvGrammar.detectHeader [["Name"; "Age"]; ["Alice"; "30"]]%string 2 = true.
Proof.
  split; [exact CsvFacts.detectHeader_spec|].
  split; [exact CsvGrammarFacts.grammar_detectHeader_spec|].
  split; vm_compute; reflexivity.
Qed.

(** C8 fails on the code as stated.  On the scenario text [CsvGenerator]
    detects the header and types [Age] as [number], and the metadata it
    publishes for that column has [min = 25] and [max = 30] but neither an
    [avg] nor a [median] entry: both read [undefined]. *)
Lemma number_statistics_counterexample :
  match Csv.generate Csv.permissive Csv.people_text Registry.no_options with
  | [Node _ (Some [_; Node age _])] =>
      title age = "Age"%string /\
      type age = "number column"%string /\
      match metadata age with
      | Some published =>
          get "min" published = VNum (Fin 25) /\
          get "max" published = VNum (Fin 30) /\
          get "avg" published = VUndefined /\
          get "median" published = VUndefined
      | None => False
      end
  | _ => False
  end.
Proof. vm_compute. repeat split; reflexivity. Qed.

(** C8 as amended.  In the grammar's analysis a column typed [number] has
    at least one parsed value and its statistics carry [min], [max], [avg]
    (sum over count) and [median] of the parsed values, none of which is
    [NaN], computed in the double arithmetic of the code: a value is
    parsed to the nearest double, the sum runs from the left and starts
    at [0], and every sum and quotient is rounded.  The median sorts the
    values ascending (the comparator [a - b] orders the values that are
    not [NaN]) and takes
    the middle element for an odd count and the average of the two
    middle elements for an even count, so [1,2,3,4] gives [2.5] and
    [1,2,3] gives [2]; for the rows [Alice, 30] and [Bob, 25] under
    [Name, Age] the column [Age] has [min = 25], [max = 30],
    [avg = 27.5], [median = 27.5].  [CsvGenerator] computes only [min]
    and [max] for a [number] column with a parsable value, and publishes
    no average and no median. *)
Theorem number_column_statistics (rt : Csv.Runtime) (values : list string) :
  fst (CsvGrammar.analyzeColumnValues rt values) = Csv.number_t ->
  let numbers :=
    map parseFloat
        (List.filter CsvGrammar.isNumeric (map trim (take 100 values))) in
  let statistics := snd (CsvGrammar.analyzeColumnValues rt values) in
  (numbers <> [] /\
   CsvGrammar.min statistics = Some (Math_min numbers) /\
   CsvGrammar.max statistics = Some (Math_max numbers) /\
   CsvGrammar.avg statistics =
     Some (div (sum numbers) (of_nat (List.length numbers))) /\
   CsvGrammar.median statistics = Some (CsvGrammar.calculateMedian numbers)) /\
  Forall (fun v => isNaN v = false) numbers /\
  (forall l : list number,
     Forall (fun v => isNaN v = false) l ->
     Permutation (sort l) l /\
     Sorted ascending (sort l) /\
     CsvGrammar.calculateMedian l =
       let n := List.length l in
       if (n mod 2 =? 0)%nat
       then div (add (nth (n / 2 - 1) (sort l) NaN) (nth (n / 2) (sort l) NaN))
                (of_Z 2)
       else nth (n / 2) (sort l) NaN) /\
  CsvGrammar.calculateMedian [Fin 1; Fin 2; Fin 3; Fin 4] = Fin (5 # 2) /\
  CsvGrammar.calculateMedian [Fin 1; Fin 2; Fin 3] = Fin 2 /\
  (forall rt', 
     let a := CsvGrammar.analyzeCSV rt' Csv.people_rows in
     CsvGrammar.hasHeader a = true /\
     map CsvGrammar.name (CsvGrammar.columns a) = ["Name"; "Age"]%string /\
     map CsvGrammar.type (CsvGrammar.columns a) = [Csv.string_t; Csv.number_t] /\
     (CsvGrammar.statistics <$> CsvGrammar.columns a !! 1%nat) =
       Some (CsvGrammar.mkStatistics
               (Some (Fin 2)) (Some (Fin 2)) (Some (Fin 2))
               (Some (Fin 25)) (Some (Fin 30))
               (Some (Fin (55 # 2))) (Some (Fin (55 # 2))))) /\
  (forall rt' headers dataRows colIndex,
     let column := Csv.analyzeColumn rt' headers dataRows colIndex in
     let parsed :=
       List.filter (fun v => negb (isNaN v))
                   (map parseFloat (Csv.column_values dataRows colIndex)) in
     Csv.type column = Csv.number_t -> parsed <> [] ->
     Csv.min column = Some (Math_min parsed) /\
     Csv.max column = Some (Math_max parsed)) /\
  (forall column,
     map fst (Csv.column_metadata column) =
     ["index"; "type"; "nullable"; "uniqueValues"; "sampleValues";
      "minLength"; "maxLength"; "avgLength"; "min"; "max"]%string).
Proof.
  intros Htype numbers statistics.
  split; [exact (CsvGrammarFacts.number_statistics rt values Htype)|].
  split.
  { apply List.Forall_forall. intros v Hv.
    apply in_map_iff in Hv as (s & <- & Hs). apply filter_In in Hs as [_ Hs].
    apply NumericFacts.isNumeric_parseFloat. exact Hs. }
  split.
  { intros l _. split; [apply JsFacts.sort_perm|].
    split; [apply JsFacts.sort_sorted|].
    apply CsvGrammarFacts.calculateMedian_formula. }
  split; [vm_compute; reflexivity|].
  split; [vm_compute; reflexivity|].
  split.
  { intros rt'. cbv zeta. repeat split. }
  split; [|reflexivity].
  intros rt' headers dataRows colIndex column parsed Hty Hne.
  unfold column, Csv.analyzeColumn in *. cbn [Csv.type Csv.min Csv.max] in *.
  rewrite Hty. fold parsed.
  destruct parsed as [|x parsed']; [congruence|]. split; reflexivity.
Qed.

Lemma number_column_statistics_witness :
  fst (CsvGrammar.analyzeColumnValues Csv.permissive ["30"; "25"]%string)
    = Csv.number_t /\
  CsvGrammar.min (snd (CsvGrammar.analyzeColumnValues Csv.permissive
                         ["30"; "25"]%string))
    = Some (Math_min [Fin 30; Fin 25]) /\
  CsvGrammar.median (snd (CsvGrammar.analyzeColumnValues Csv.permissive
                            ["30"; "25"]%string))
    = Some (CsvGrammar.calculateMedian [Fin 30; Fin 25]).
Proof.
  assert (H : fst (CsvGrammar.analyzeColumnValues Csv.permissive
                     ["30"; "25"]%string) = Csv.number_t)
    by (vm_compute; reflexivity).
  split; [exact H|].
  pose proof (number_column_statistics Csv.permissive ["30"; "25"]%string H)
    as [(_ & Hmin & _ & _ & Hmed) _].
  split; [exact Hmin | exact Hmed].
Defined.

(** The statistics are doubles: the average and the median of [0.1] and
    [0.2] are [0.15000000000000002], and a value beyond the range of
    doubles is an infinity, so that [1e400] and [-1e400] have no average
    and no median. *)
Example number_statistics_rounding :
  (let statistics :=
     snd (CsvGrammar.analyzeColumnValues Csv.permissive ["0.1"; "0.2"]%string) in
   CsvGrammar.avg statistics = Some (parseFloat "0.15000000000000002") /\
   CsvGrammar.median statistics = Some (parseFloat "0.15000000000000002") /\
   parseFloat "0.15000000000000002" <> parseFloat "0.15") /\
  (let statistics :=
     snd (CsvGrammar.analyzeColumnValues Csv.permissive
            ["1e400"; "-1e400"]%string) in
   CsvGrammar.min statistics = Some NegInf /\
   CsvGrammar.max statistics = Some PosInf /\
   CsvGrammar.avg statistics = Some NaN /\
   CsvGrammar.median statistics = Some NaN) /\
  (let column :=
     Csv.analyzeColumn Csv.permissive ["x"]%string
                       [["1e400"]; ["-1e400"]]%string 0 in
   Csv.type column = Csv.number_t /\
   Csv.min column = Some NegInf /\
   Csv.max column = Some PosInf).
Proof. repeat split; vm_compute; (reflexivity || discriminate). Qed.

(** C10.  A column in which every data row has no cell or an empty cell is
    still emitted at its index, with type [string], no unique value, no
    sample value, average length [0], minimum length [Infinity] and maximum
    length [-Infinity]. *)
Theorem analyzeColumns_empty_column (rt : Csv.Runtime) (headers : list string)
    (dataRows : list (list string)) (columnCount colIndex : nat) :
  (colIndex < columnCount)%nat ->
  Forall (fun row : list string =>
            row !! colIndex = None \/ row !! colIndex = Some EmptyString)
         dataRows ->
  exists column,
    Csv.analyzeColumns rt headers dataRows columnCount !! colIndex = Some column /\
    Csv.index column = colIndex /\
    Csv.type column = Csv.string_t /\
    Csv.uniqueValues column = 0%nat /\
    Csv.sampleValues column = [] /\
    Csv.avgLength column = of_Z 0 /\
    Csv.minLength column = PosInf /\
    Csv.maxLength column = NegInf.
Proof.
  intros Hlt Hrows. eexists. split.
  - apply CsvFacts.analyzeColumns_lookup. exact Hlt.
  - unfold Csv.analyzeColumn.
    rewrite (CsvFacts.column_values_empty _ _ Hrows).
    repeat split.
Qed.

Lemma analyzeColumns_empty_column_witness :
  exists column,
    Csv.analyzeColumns Csv.permissive ["a"; "b"]%string
      [["1"; EmptyString]; ["2"]]%string 2 !! 1%nat = Some column /\
    Csv.index column = 1%nat /\
    Csv.type column = Csv.string_t /\
    Csv.uniqueValues column = 0%nat /\
    Csv.sampleValues column = [] /\
    Csv.avgLength column = of_Z 0 /\
    Csv.minLength column = PosInf /\
    Csv.maxLength column = NegInf.
Proof.
  apply (analyzeColumns_empty_column Csv.permissive ["a"; "b"]%string
           [["1"; EmptyString]; ["2"]]%string 2 1).
  - apply Nat.lt_succ_diag_r.
  - constructor; [right; reflexivity|].
    constructor; [left; reflexivity|constructor].
Defined.

End TabularClaims.

(* ===================================================================== *)
(** * Further properties of the hierarchy assembler *)
(* ===================================================================== *)

Module AssemblerFacts.
Import Hierarchy.

Lemma push_child_data h p n r :
  obj_data <$> (push_child h p n !! r) = obj_data <$> (h !! r).
Proof.
  unfold push_child. destruct (h !! p) as [o|] eqn:E; [|reflexivity].
  destruct (decide (p = r)) as [->|Hne].
  - rewrite lookup_insert_eq, E. reflexivity.
  - rewrite lookup_insert_ne by exact Hne. reflexivity.
Qed.

Lemma push_child_other h p n r : r <> p -> push_child h p n !! r = h !! r.
Proof.
  intros Hne. unfold push_child. destruct (h !! p); [|reflexivity].
  apply lookup_insert_ne. congruence.
Qed.

Lemma push_child_depth h p n r : depth_at (push_child h p n) r = depth_at h r.
Proof.
  unfold depth_at. pose proof (push_child_data h p n r) as H.
  destruct (push_child h p n !! r), (h !! r); simpl in H; congruence.
Qed.

Lemma pop_stack_suffix h d stk : exists popped, stk = popped ++ pop_stack h d stk.
Proof.
  induction stk as [|top rest [popped IH]]; simpl.
  - exists []. reflexivity.
  - destruct (depth_at h top >=? d).
    + exists (top :: popped). simpl. rewrite <- IH. reflexivity.
    + exists []. reflexivity.
Qed.

Lemma pop_stack_in h d stk r : r ∈ pop_stack h d stk -> r ∈ stk.
Proof.
  destruct (pop_stack_suffix h d stk) as [popped E]. intros H.
  rewrite E. apply elem_of_app. right. exact H.
Qed.

(** The item left on top after popping is strictly shallower. *)
Lemma pop_stack_top h d stk p rest :
  pop_stack h d stk = p :: rest -> depth_at h p < d.
Proof.
  induction stk as [|top stk IH]; simpl; [discriminate|].
  destruct (depth_at h top >=? d) eqn:E; [exact IH|].
  intros [= -> ->]. lia.
Qed.

(** When popping empties the stack, every item on it was at least as
    deep. *)
Lemma pop_stack_empty h d stk :
  pop_stack h d stk = [] -> Forall (fun r => d <= depth_at h r) stk.
Proof.
  induction stk as [|top stk IH]; simpl; [constructor|].
  destruct (depth_at h top >=? d) eqn:E; [|discriminate].
  intros H. constructor; [lia|auto].
Qed.

Lemma step_data st n r :
  obj_data <$> (store (step st n) !! r) = obj_data <$> (store st !! r).
Proof.
  unfold step. destruct (pop_stack _ _ _); simpl; [reflexivity|].
  apply push_child_data.
Qed.

Lemma run_data nodes : forall st r,
  obj_data <$> (store (fold_left step nodes st) !! r) = obj_data <$> (store st !! r).
Proof.
  induction nodes as [|n nodes IH]; intros st r; simpl; [reflexivity|].
  rewrite IH. apply step_data.
Qed.

Lemma step_stack_in st n r :
  r ∈ stack (step st n) -> r = n \/ r ∈ stack st.
Proof.
  unfold step. intros H.
  assert (Hin : r ∈ n :: pop_stack (store st) (depth_at (store st) n) (stack st)).
  { destruct (pop_stack _ _ _); exact H. }
  apply elem_of_cons in Hin as [->|Hin]; [left; reflexivity|].
  right. eapply pop_stack_in. exact Hin.
Qed.

Lemma step_other st n r :
  r ∉ stack st -> store (step st n) !! r = store st !! r.
Proof.
  intros Hr. unfold step.
  destruct (pop_stack _ _ _) as [|p rest] eqn:E; simpl; [reflexivity|].
  apply push_child_other. intros ->. apply Hr.
  eapply pop_stack_in. rewrite E. left.
Qed.

Lemma run_other nodes : forall st r,
  r ∉ stack st -> r ∉ nodes ->
  store (fold_left step nodes st) !! r = store st !! r.
Proof.
  induction nodes as [|n nodes IH]; intros st r Hs Hn; simpl; [reflexivity|].
  rewrite IH.
  - apply step_other. exact Hs.
  - intros H. apply step_stack_in in H as [->|H]; [|auto].
    apply Hn. left.
  - intros H. apply Hn. right. exact H.
Qed.

(** X1.  [buildHierarchy] never changes the payload of any object (title,
    type, depth, position, metadata, id, anchor), and an object that is not
    in the input array is left exactly as it was. *)
Theorem buildHierarchy_preserves_data (h : heap) (nodes : list nat) (r : nat) :
  obj_data <$> (snd (buildHierarchy h nodes) !! r) = obj_data <$> (h !! r) /\
  (r ∉ nodes -> snd (buildHierarchy h nodes) !! r = h !! r).
Proof.
  unfold buildHierarchy. cbn [snd]. split.
  - apply (run_data nodes (mkState [] [] h) r).
  - intros Hr. apply (run_other nodes (mkState [] [] h) r); [|exact Hr].
    simpl. apply not_elem_of_nil.
Qed.

Lemma buildHierarchy_preserves_data_witness :
  (7%nat ∉ [0; 1; 2; 3]%nat) /\
  (snd (buildHierarchy scenario_heap [0; 1; 2; 3]%nat) !! 7%nat
   = scenario_heap !! 7%nat).
Proof.
  assert (H : 7%nat ∉ [0; 1; 2; 3]%nat)
    by (apply (bool_decide_unpack _); vm_compute; exact I).
  split; [exact H|].
  exact (proj2 (buildHierarchy_preserves_data scenario_heap [0; 1; 2; 3]%nat 7) H).
Defined.

Lemma step_depth st n r : depth_at (store (step st n)) r = depth_at (store st) r.
Proof.
  unfold depth_at. pose proof (step_data st n r) as H.
  destruct (store (step st n) !! r), (store st !! r); simpl in H; congruence.
Qed.

Lemma appended_trans a b c l1 l2 :
  HeadingHierarchy.appended a b l1 -> HeadingHierarchy.appended b c l2 ->
  HeadingHierarchy.appended a c (l1 ++ l2).
Proof.
  unfold HeadingHierarchy.appended.
  destruct l1 as [|x l1]; simpl; [intros ->; auto|].
  intros ->. destruct l2 as [|y l2]; simpl.
  - intros ->. rewrite app_nil_r. reflexivity.
  - intros ->. rewrite <- app_assoc. reflexivity.
Qed.

Lemma step_appends st n r o :
  store st !! r = Some o ->
  exists o' added,
    store (step st n) !! r = Some o' /\
    HeadingHierarchy.appended (obj_children o) (obj_children o') added /\
    Forall (fun c => c = n /\ depth_at (store st) r < depth_at (store st) c) added.
Proof.
  intros Hr. unfold step.
  destruct (pop_stack _ _ _) as [|p rest] eqn:E; cbn [store].
  - exists o, []. repeat split; auto. 
  - destruct (decide (r = p)) as [->|Hne].
    + unfold push_child. rewrite Hr, lookup_insert_eq.
      eexists _, [n]. split; [reflexivity|]. split; [reflexivity|].
      constructor; [|constructor]. split; [reflexivity|].
      eapply pop_stack_top. exact E.
    + rewrite push_child_other by exact Hne.
      exists o, []. repeat split; auto.
Qed.

Lemma run_appends nodes : forall st r o,
  store st !! r = Some o ->
  exists o' added,
    store (fold_left step nodes st) !! r = Some o' /\
    HeadingHierarchy.appended (obj_children o) (obj_children o') added /\
    Forall (fun c => c ∈ nodes /\ depth_at (store st) r < depth_at (store st) c)
           added.
Proof.
  induction nodes as [|n nodes IH]; intros st r o Hr.
  - exists o, []. repeat split; auto.
  - cbn [fold_left].
    destruct (step_appends st n r o Hr) as (o1 & l1 & H1 & A1 & F1).
    destruct (IH (step st n) r o1 H1) as (o2 & l2 & H2 & A2 & F2).
    exists o2, (l1 ++ l2). split; [exact H2|].
    split; [eapply appended_trans; eassumption|].
    apply Forall_app. split.
    + eapply Forall_impl; [exact F1|]. intros c [-> Hc]. split; [left|exact Hc].
    + eapply Forall_impl; [exact F2|]. intros c [Hin Hc].
      split; [right; exact Hin|]. rewrite !step_depth in Hc. exact Hc.
Qed.

(** X2.  [buildHierarchy] only appends: the [children] array of every
    object is afterwards what it was before followed by the references
    attached in this call, each of which comes from the input array and is
    strictly deeper than the object it was attached to; an object that
    receives nothing keeps its [children] field as it was. *)
Theorem buildHierarchy_appends_deeper (h : heap) (nodes : list nat) (r : nat)
    (o : OutlineObj) :
  h !! r = Some o ->
  exists o' added,
    snd (buildHierarchy h nodes) !! r = Some o' /\
    HeadingHierarchy.appended (obj_children o) (obj_children o') added /\
    Forall (fun c => c ∈ nodes /\ depth_at h r < depth_at h c) added.
Proof.
  intros Hr. exact (run_appends nodes (mkState [] [] h) r o Hr).
Qed.

Lemma buildHierarchy_appends_deeper_witness :
  exists o' added,
    snd (buildHierarchy scenario_heap [0; 1; 2; 3]%nat) !! 0%nat = Some o' /\
    HeadingHierarchy.appended (Some []) (obj_children o') added /\
    Forall (fun c => c ∈ [0; 1; 2; 3]%nat /\
                     depth_at scenario_heap 0 < depth_at scenario_heap c) added.
Proof.
  exact (buildHierarchy_appends_deeper scenario_heap [0; 1; 2; 3]%nat 0%nat
           (mkObj (heading "A" 1) (Some [])) eq_refl).
Defined.

Lemma last_pop_stack h d stk p rest :
  pop_stack h d stk = p :: rest -> last (p :: rest) = last stk.
Proof.
  intros E. destruct (pop_stack_suffix h d stk) as [popped Hs].
  rewrite E in Hs. rewrite Hs. clear.
  induction popped as [|x popped IH]; [reflexivity|].
  rewrite IH. destruct popped; reflexivity.
Qed.

Lemma StronglySorted_snoc {A} (R : A -> A -> Prop) l x :
  StronglySorted R l -> Forall (fun a => R a x) l -> StronglySorted R (l ++ [x]).
Proof.
  induction 1 as [|a l Hs IH Ha]; intros Hx; simpl.
  - repeat constructor.
  - inversion Hx; subst. constructor; [auto|].
    apply Forall_app. split; [exact Ha|]. constructor; [assumption|constructor].
Qed.

Lemma StronglySorted_last {A} (R : A -> A -> Prop) l x :
  StronglySorted R l -> last l = Some x -> Forall (fun a => a = x \/ R a x) l.
Proof.
  induction 1 as [|a l Hs IH Ha]; intros Hl; [constructor|].
  destruct l as [|b l].
  - simpl in Hl. injection Hl as ->. repeat constructor.
  - change (last (a :: b :: l)) with (last (b :: l)) in Hl.
    constructor.
    + right. eapply Forall_forall in Ha; [exact Ha|].
      apply last_Some_elem_of. exact Hl.
    + apply IH. exact Hl.
Qed.

(** The loop keeps the top-level result ordered by non-increasing depth,
    and the bottom of the stack is the last top-level node. *)
Lemma run_roots h nodes : forall st,
  (forall r, depth_at (store st) r = depth_at h r) ->
  StronglySorted (fun a b => depth_at h b <= depth_at h a) (result st) ->
  last (stack st) = last (result st) ->
  StronglySorted (fun a b => depth_at h b <= depth_at h a)
                 (result (fold_left step nodes st)).
Proof.
  induction nodes as [|n nodes IH]; intros st Hd Hs Hl; [exact Hs|].
  cbn [fold_left]. apply IH.
  - intros r. rewrite step_depth. apply Hd.
  - unfold step.
    destruct (pop_stack _ _ _) as [|p rest] eqn:E; cbn [result]; [|exact Hs].
    apply StronglySorted_snoc; [exact Hs|].
    apply pop_stack_empty in E.
    destruct (last (result st)) as [b|] eqn:Eb.
    + pose proof (StronglySorted_last _ _ _ Hs Eb) as Hall.
      assert (Hb : depth_at h n <= depth_at h b).
      { apply last_Some_elem_of in Hl.
        eapply Forall_forall in E; [|exact Hl]. rewrite !Hd in E. exact E. }
      eapply Forall_impl; [exact Hall|]. intros a [->|Ha]; simpl in *; lia.
    + apply last_None in Eb. rewrite Eb. constructor.
  - unfold step.
    destruct (pop_stack _ _ _) as [|p rest] eqn:E; cbn [result stack].
    + rewrite last_snoc. reflexivity.
    + change (last (n :: p :: rest)) with (last (p :: rest)).
      rewrite (last_pop_stack _ _ _ _ _ E). exact Hl.
Qed.

(** X3.  The top-level nodes that [buildHierarchy] returns have
    non-increasing depth: a node placed at top level is never deeper than
    any top-level node before it. *)
Theorem buildHierarchy_roots_non_increasing (h : heap) (nodes : list nat) :
  StronglySorted (fun a b => depth_at h b <= depth_at h a)
                 (fst (buildHierarchy h nodes)).
Proof.
  unfold buildHierarchy. cbn [fst].
  apply (run_roots h nodes (mkState [] [] h)); simpl; auto. constructor.
Qed.

Lemma type_at_step st n r :
  HeadingHierarchy.type_at (store (step st n)) r =
  HeadingHierarchy.type_at (store st) r.
Proof.
  unfold HeadingHierarchy.type_at. pose proof (step_data st n r) as H.
  destruct (store (step st n) !! r), (store st !! r); simpl in H; congruence.
Qed.

Lemma heading_step st n :
  HeadingHierarchy.type_at (store st) n = "heading"%string ->
  HeadingHierarchy.step st n = step st n.
Proof.
  intros H. unfold HeadingHierarchy.step. rewrite H. reflexivity.
Qed.

Lemma heading_run nodes : forall st,
  Forall (fun r => HeadingHierarchy.type_at (store st) r = "heading"%string) nodes ->
  fold_left HeadingHierarchy.step nodes st = fold_left step nodes st.
Proof.
  induction nodes as [|n nodes IH]; intros st H; [reflexivity|].
  inversion H as [|? ? Hn Hrest]; subst. cbn [fold_left].
  rewrite (heading_step st n Hn). apply IH.
  eapply Forall_impl; [exact Hrest|]. intros r Hr. simpl.
  rewrite type_at_step. exact Hr.
Qed.

(** X4.  On an array in which every node has type [heading], the
    heading-aware assembler of the Markdown grammar returns the same roots
    and leaves the same heap as [OutlineGenerator.buildHierarchy]. *)
Theorem heading_buildHierarchy_agrees (h : heap) (nodes : list nat) :
  Forall (fun r => HeadingHierarchy.type_at h r = "heading"%string) nodes ->
  HeadingHierarchy.buildHierarchy h nodes = buildHierarchy h nodes.
Proof.
  intros H. unfold HeadingHierarchy.buildHierarchy, buildHierarchy.
  rewrite (heading_run nodes (mkState [] [] h) H). reflexivity.
Qed.

Lemma heading_buildHierarchy_agrees_witness :
  HeadingHierarchy.buildHierarchy scenario_heap [0; 1; 2; 3]%nat
  = buildHierarchy scenario_heap [0; 1; 2; 3]%nat.
Proof.
  apply (heading_buildHierarchy_agrees scenario_heap [0; 1; 2; 3]%nat).
  repeat constructor.
Defined.

End AssemblerFacts.

(* ===================================================================== *)
(** * Further properties of the depth filter *)
(* ===================================================================== *)

Module FilterFacts.
Import DepthFilter ModelFacts DepthFilterFacts.

Lemma keeps_rebuild m1 m2 n : keeps m1 (rebuild m2 n) = keeps m1 n.
Proof. unfold keeps. rewrite rebuild_depth. reflexivity. Qed.

Lemma keeps_min m1 m2 n : keeps (Z.min m1 m2) n = keeps m1 n && keeps m2 n.
Proof.
  unfold keeps.
  destruct (Z.leb_spec (node_depth n) (Z.min m1 m2)),
           (Z.leb_spec (node_depth n) m1), (Z.leb_spec (node_depth n) m2);
    simpl; try reflexivity; lia.
Qed.

Lemma rebuild_rebuild m1 m2 n :
  rebuild m1 (rebuild m2 n) = rebuild (Z.min m1 m2) n.
Proof.
  induction n as [d|d l IH] using Outline_ind'; [reflexivity|].
  rewrite !rebuild_children. do 2 f_equal.
  induction IH as [|k l Hk _ IHl]; [reflexivity|].
  simpl. rewrite keeps_min.
  destruct (keeps m2 k) eqn:E2; simpl.
  - rewrite keeps_rebuild. rewrite andb_true_r.
    destruct (keeps m1 k); simpl; [rewrite Hk|]; rewrite IHl; reflexivity.
  - rewrite andb_false_r. exact IHl.
Qed.

Lemma filter_filter m1 m2 (forest : list OutlineNode) :
  map (rebuild m1) (List.filter (keeps m1)
                      (map (rebuild m2) (List.filter (keeps m2) forest))) =
  map (rebuild (Z.min m1 m2)) (List.filter (keeps (Z.min m1 m2)) forest).
Proof.
  induction forest as [|k l IHl]; [reflexivity|].
  simpl. rewrite keeps_min.
  destruct (keeps m2 k) eqn:E2; simpl.
  - rewrite keeps_rebuild. rewrite andb_true_r.
    destruct (keeps m1 k); simpl; [rewrite rebuild_rebuild|]; rewrite IHl;
      reflexivity.
  - rewrite andb_false_r. exact IHl.
Qed.

(** X5.  Filtering twice is filtering once with the smaller limit: for
    non-zero limits [a] and [b],
    [filterByDepth(filterByDepth(forest, b), a)] is
    [filterByDepth(forest, min(a, b))]; in particular the filter is
    idempotent. *)
Theorem filterByDepth_twice (forest : list OutlineNode) (a b : Z) :
  a <> 0 -> b <> 0 ->
  filterByDepth (filterByDepth forest (Some b)) (Some a) =
  filterByDepth forest (Some (Z.min a b)).
Proof.
  intros Ha Hb. unfold filterByDepth.
  destruct (Z.eqb_spec a 0), (Z.eqb_spec b 0), (Z.eqb_spec (Z.min a b) 0);
    try lia.
  apply filter_filter.
Qed.

Lemma filterByDepth_twice_witness :
  filterByDepth (filterByDepth nested_levels (Some 3)) (Some 2) =
  filterByDepth nested_levels (Some (Z.min 2 3)).
Proof.
  apply (filterByDepth_twice nested_levels 2 3); discriminate.
Defined.

Lemma rebuild_sublist m n : sublist (preorder (rebuild m n)) (preorder n).
Proof.
  induction n as [d|d l IH] using Outline_ind'; [reflexivity|].
  rewrite rebuild_children. simpl. apply sublist_skip.
  induction IH as [|k l Hk _ IHl]; [reflexivity|].
  simpl. destruct (keeps m k); simpl.
  - apply sublist_app; assumption.
  - apply sublist_inserts_l. exact IHl.
Qed.

(** X6.  The filter only removes: the pre-order of the filtered forest is
    the pre-order of the input with some nodes left out; no node is added,
    changed in its payload or moved. *)
Theorem filterByDepth_sublist (forest : list OutlineNode) (maxDepth : option Z) :
  sublist (preorder_forest (filterByDepth forest maxDepth))
          (preorder_forest forest).
Proof.
  unfold filterByDepth, preorder_forest.
  destruct maxDepth as [m|]; [|reflexivity].
  destruct (m =? 0); [reflexivity|].
  induction forest as [|k l IHl]; [reflexivity|].
  simpl. destruct (keeps m k); simpl.
  - apply sublist_app; [apply rebuild_sublist|exact IHl].
  - apply sublist_inserts_l. exact IHl.
Qed.

Lemma rebuild_bounded m n :
  Forall (fun d => depth d <= m) (preorder n) -> rebuild m n = n.
Proof.
  induction n as [d|d l IH] using Outline_ind'; [reflexivity|].
  rewrite rebuild_children. simpl. intros H.
  apply Forall_cons in H as [_ H]. do 2 f_equal.
  induction IH as [|k l Hk _ IHl]; [reflexivity|].
  simpl in H. apply Forall_app in H as [H1 H2].
  simpl. replace (keeps m k) with true.
  - simpl. rewrite Hk by exact H1. rewrite IHl by exact H2. reflexivity.
  - symmetry. unfold keeps, node_depth. destruct k as [dk ck]. simpl in *.
    apply Forall_cons in H1 as [H1 _]. lia.
Qed.

(** X7.  A forest all of whose nodes are within the limit passes the
    filter unchanged. *)
Theorem filterByDepth_bounded_identity (forest : list OutlineNode) (m : Z) :
  all_nodes (fun d => depth d <= m) forest ->
  filterByDepth forest (Some m) = forest.
Proof.
  unfold filterByDepth, all_nodes, preorder_forest.
  destruct (m =? 0); [reflexivity|].
  induction forest as [|k l IHl]; [reflexivity|].
  simpl. intros H. apply Forall_app in H as [H1 H2].
  replace (keeps m k) with true.
  - simpl. rewrite rebuild_bounded by exact H1. rewrite IHl by exact H2.
    reflexivity.
  - symmetry. unfold keeps, node_depth. destruct k as [dk ck]. simpl in *.
    apply Forall_cons in H1 as [H1 _]. lia.
Qed.

Lemma filterByDepth_bounded_identity_witness :
  filterByDepth nested_levels (Some 4) = nested_levels.
Proof.
  apply (filterByDepth_bounded_identity nested_levels 4).
  repeat constructor; discriminate.
Defined.

End FilterFacts.

(* ===================================================================== *)
(** * Further properties of the analyzer registry *)
(* ===================================================================== *)

Module DispatchFacts.
Import Js Registry.

Lemma lower_ascii_idem c : lower_ascii (lower_ascii c) = lower_ascii c.
Proof.
  destruct c as [[] [] [] [] [] [] [] []]; vm_compute; reflexivity.
Qed.

Lemma toLowerCase_idem s : toLowerCase (toLowerCase s) = toLowerCase s.
Proof.
  induction s as [|c s IH]; simpl; [reflexivity|].
  rewrite lower_ascii_idem, IH. reflexivity.
Qed.

(** X8.  After [registerGenerator(ext, g)] a call whose discriminator
    equals [ext] up to letter case is dispatched to [g]; every other
    discriminator behaves as before the registration. *)
Theorem registerGenerator_dispatch
    (generators : gmap string OutlineGenerator) (generator : OutlineGenerator)
    (extension content fileExtension : string) (options : GeneratorOptions) :
  generateFromContent (registerGenerator extension generator generators)
                      content fileExtension options =
  if decide (toLowerCase fileExtension = toLowerCase extension)
  then Returned (generator content options)
  else generateFromContent generators content fileExtension options.
Proof.
  unfold generateFromContent, registerGenerator.
  rewrite lookup_insert.
  destruct (decide (toLowerCase extension = toLowerCase fileExtension)) as [E|E];
    destruct (decide (toLowerCase fileExtension = toLowerCase extension)) as [E'|E'];
    try congruence; reflexivity.
Qed.

(** X9.  Support is decided on the lower-cased discriminator: a
    discriminator is supported exactly when its lower-case form is, the
    call throws exactly when [isSupported] is false, and a registered
    extension is supported whatever its case at registration. *)
Theorem isSupported_case_insensitive
    (generators : gmap string OutlineGenerator) (generator : OutlineGenerator)
    (extension content fileExtension : string) (options : GeneratorOptions) :
  isSupported generators (toLowerCase fileExtension) =
    isSupported generators fileExtension /\
  (isSupported generators fileExtension = false <->
   exists message,
     generateFromContent generators content fileExtension options = Thrown message) /\
  isSupported (registerGenerator extension generator generators) extension = true.
Proof.
  split; [|split].
  - unfold isSupported. rewrite toLowerCase_idem. reflexivity.
  - unfold isSupported, generateFromContent.
    rewrite bool_decide_eq_false.
    destruct (generators !! toLowerCase fileExtension) as [g|]; split.
    + intros H. exfalso. apply H. eexists. reflexivity.
    + intros [m Hm]. discriminate.
    + intros _. eexists. reflexivity.
    + intros _ [g Hg]. discriminate.
  - unfold isSupported, registerGenerator. apply bool_decide_eq_true.
    rewrite lookup_insert_eq. eexists. reflexivity.
Qed.

(** X10.  The registry built by the constructor supports exactly the
    seventeen default extensions, in any letter case. *)
Theorem default_extensions (g : Defaults) (fileExtension : string) :
  isSupported (constructor g) fileExtension = true <->
  In (toLowerCase fileExtension)
     ["md"; "markdown"; "json"; "xml"; "yaml"; "yml"; "html"; "htm"; "csv";
      "js"; "jsx"; "ts"; "tsx"; "py"; "java"; "cs"; "cpp"]%string.
Proof.
  unfold isSupported, constructor, registerDefaultGenerators.
  rewrite bool_decide_eq_true.
  set (k := toLowerCase fileExtension). clearbody k.
  rewrite !lookup_insert, lookup_empty.
  repeat case_decide; subst; simpl; split; intros Hx;
    try (eexists; reflexivity); try tauto;
    try (destruct Hx as [? Hx]; discriminate).
Qed.

End DispatchFacts.

(* ===================================================================== *)
(** * Anchors, identifiers and positions *)
(* ===================================================================== *)

Module AnchorFacts.
Import Js Utilities.

#[local] Arguments is_char : simpl never.
#[local] Arguments is_space : simpl never.
#[local] Arguments anchor_char : simpl never.

Lemma chars_str l : chars (str l) = l.
Proof. apply list_ascii_of_string_of_list_ascii. Qed.

Lemma str_chars s : str (chars s) = s.
Proof. apply string_of_list_ascii_of_string. Qed.

Lemma chars_toLowerCase s : chars (toLowerCase s) = map lower_ascii (chars s).
Proof. induction s as [|c s IH]; simpl; [reflexivity|]. rewrite IH. reflexivity. Qed.

Lemma kept_lower c :
  (is_word (lower_ascii c) || is_space (lower_ascii c)
   || is_char hyphen (lower_ascii c)) = true ->
  (anchor_char (lower_ascii c) || is_space (lower_ascii c)) = true.
Proof.
  destruct c as [[] [] [] [] [] [] [] []]; vm_compute; auto.
Qed.

Lemma anchor_char_facts c :
  anchor_char c = true ->
  lower_ascii c = c /\ is_space c = false /\
  (is_word c || is_space c || is_char hyphen c) = true.
Proof.
  destruct c as [[] [] [] [] [] [] [] []]; vm_compute; auto; discriminate.
Qed.

Lemma is_hyphen_eq c : is_char hyphen c = true -> c = hyphen.
Proof. unfold is_char. intros H. apply Ascii.eqb_eq in H. congruence. Qed.

(** Squeezing the runs of [p] leaves the other characters and [by_]. *)
Lemma squeeze_forallb (P p : ascii -> bool) by_ l : forall b,
  P by_ = true ->
  forallb (fun c => P c || p c) l = true ->
  forallb P (squeeze p by_ b l) = true.
Proof.
  induction l as [|c l IH]; intros b Hby H; [reflexivity|].
  simpl in *. apply andb_true_iff in H as [Hc Hl].
  destruct (p c) eqn:E.
  - destruct b; simpl; [|rewrite Hby; simpl]; apply IH; assumption.
  - rewrite orb_false_r in Hc. simpl. rewrite Hc. simpl. apply IH; assumption.
Qed.

Lemma no_double_cons a l :
  no_double_hyphen (a :: l) =
  (negb (is_char hyphen a) || head_not_hyphen l) && no_double_hyphen l.
Proof.
  destruct l as [|b l]; simpl.
  - rewrite orb_true_r. reflexivity.
  - destruct (is_char hyphen a), (is_char hyphen b); reflexivity.
Qed.

Lemma squeeze_hyphen_shape l : forall b,
  no_double_hyphen (squeeze (is_char hyphen) hyphen b l) = true /\
  (b = true -> head_not_hyphen (squeeze (is_char hyphen) hyphen b l) = true).
Proof.
  induction l as [|c l IH]; intros b; [split; reflexivity|].
  simpl. destruct (is_char hyphen c) eqn:E.
  - destruct b.
    + apply IH.
    + destruct (IH true) as [H1 H2]. split; [|discriminate].
      rewrite no_double_cons, H1, H2 by reflexivity.
      rewrite orb_true_r. reflexivity.
  - destruct (IH false) as [H1 _]. split.
    + rewrite no_double_cons, H1, E. reflexivity.
    + intros _. simpl. rewrite E. reflexivity.
Qed.

Lemma squeeze_hyphen_fixed l : forall b,
  no_double_hyphen l = true ->
  (b = true -> head_not_hyphen l = true) ->
  squeeze (is_char hyphen) hyphen b l = l.
Proof.
  induction l as [|c l IH]; intros b Hd Hh; [reflexivity|].
  rewrite no_double_cons in Hd. apply andb_true_iff in Hd as [Hc Hl].
  simpl. destruct (is_char hyphen c) eqn:E.
  - simpl in Hc. destruct b.
    + specialize (Hh eq_refl). simpl in Hh. rewrite E in Hh. discriminate.
    + rewrite (is_hyphen_eq c E). f_equal. apply IH; auto.
  - f_equal. apply IH; [exact Hl|discriminate].
Qed.

Lemma squeeze_space_fixed l : forall b,
  forallb (fun c => negb (is_space c)) l = true ->
  squeeze is_space hyphen b l = l.
Proof.
  induction l as [|c l IH]; intros b H; [reflexivity|].
  simpl in *. apply andb_true_iff in H as [Hc Hl].
  destruct (is_space c); [discriminate|]. f_equal. apply IH. exact Hl.
Qed.

Lemma no_double_app_l l1 l2 :
  no_double_hyphen (l1 ++ l2) = true -> no_double_hyphen l1 = true.
Proof.
  induction l1 as [|a l1 IH]; [reflexivity|].
  change ((a :: l1) ++ l2) with (a :: (l1 ++ l2)).
  rewrite !no_double_cons. intros H. apply andb_true_iff in H as [Ha Hl].
  rewrite (IH Hl), andb_true_r.
  destruct l1 as [|b l1]; [apply orb_true_r|exact Ha].
Qed.

Lemma no_double_snoc l a :
  no_double_hyphen (l ++ [a]) =
  no_double_hyphen l && (negb (is_char hyphen a) || head_not_hyphen (rev l)).
Proof.
  induction l as [|b l IH]; [simpl; rewrite orb_true_r; reflexivity|].
  change ((b :: l) ++ [a]) with (b :: (l ++ [a])).
  rewrite !no_double_cons, IH. simpl rev.
  destruct l as [|c l]; simpl.
  - destruct (is_char hyphen a), (is_char hyphen b); reflexivity.
  - destruct (rev l ++ [c]) as [|e r] eqn:Er.
    { destruct (rev l); discriminate. }
    simpl. destruct (is_char hyphen b), (is_char hyphen c),
             (no_double_hyphen (c :: l)), (is_char hyphen a), (is_char hyphen e);
      reflexivity.
Qed.

Lemma no_double_rev l : no_double_hyphen (rev l) = no_double_hyphen l.
Proof.
  induction l as [|a l IH]; [reflexivity|].
  simpl rev. rewrite no_double_snoc, IH, rev_involutive, no_double_cons.
  apply andb_comm.
Qed.

Lemma forallb_rev (P : ascii -> bool) l : forallb P (rev l) = forallb P l.
Proof.
  induction l as [|a l IH]; [reflexivity|].
  simpl. rewrite forallb_app, IH. simpl. rewrite andb_true_r. apply andb_comm.
Qed.

Lemma strip_last_rev l : strip_last l = rev (strip_first (rev l)).
Proof.
  unfold strip_last, strip_first. destruct (rev l) as [|c r] eqn:E.
  - reflexivity.
  - destruct (is_char hyphen c); [reflexivity|].
    rewrite <- E, rev_involutive. reflexivity.
Qed.

Lemma strip_first_forallb (P : ascii -> bool) l :
  forallb P l = true -> forallb P (strip_first l) = true.
Proof.
  destruct l as [|c l]; [auto|]. simpl. intros H.
  apply andb_true_iff in H as [Hc Hl].
  destruct (is_char hyphen c); [exact Hl|]. simpl. rewrite Hc. exact Hl.
Qed.

Lemma strip_first_no_double l :
  no_double_hyphen l = true ->
  no_double_hyphen (strip_first l) = true /\
  head_not_hyphen (strip_first l) = true.
Proof.
  destruct l as [|c l]; [auto|]. rewrite no_double_cons. intros H.
  apply andb_true_iff in H as [Hc Hl]. unfold strip_first.
  destruct (is_char hyphen c) eqn:E.
  - simpl in Hc. auto.
  - split; [rewrite no_double_cons, E, Hl; reflexivity|]. simpl.
    rewrite E. reflexivity.
Qed.

Lemma strip_first_last_ok l :
  head_not_hyphen (rev l) = true -> head_not_hyphen (rev (strip_first l)) = true.
Proof.
  destruct l as [|c l]; [auto|]. unfold strip_first.
  destruct (is_char hyphen c) eqn:E; [|auto].
  simpl. destruct (rev l) as [|e r]; simpl; [reflexivity|auto].
Qed.

Lemma strip_first_fixed l : head_not_hyphen l = true -> strip_first l = l.
Proof.
  destruct l as [|c l]; [reflexivity|]. simpl.
  destruct (is_char hyphen c); [discriminate|reflexivity].
Qed.

(** The last three steps of [createAnchor] on any list of characters. *)
Lemma strip_shape l :
  no_double_hyphen l = true ->
  no_double_hyphen (strip_last (strip_first l)) = true /\
  no_edge_hyphen (strip_last (strip_first l)) = true.
Proof.
  intros H. destruct (strip_first_no_double l H) as [H1 H2].
  set (s := strip_first l) in *. rewrite strip_last_rev.
  assert (Hr : no_double_hyphen (rev s) = true) by (rewrite no_double_rev; exact H1).
  destruct (strip_first_no_double (rev s) Hr) as [H3 H4].
  split.
  - rewrite no_double_rev. exact H3.
  - unfold no_edge_hyphen. rewrite rev_involutive, H4, andb_true_r.
    rewrite <- (rev_involutive s) in H2.
    apply (strip_first_last_ok (rev s)). exact H2.
Qed.

(** X11.  Every anchor consists of lower-case letters, digits, underscores
    and hyphens only, has no two hyphens in a row and neither starts nor
    ends with a hyphen (it may be empty). *)
Theorem createAnchor_well_formed (title : string) :
  well_formed_anchor (createAnchor title) = true.
Proof.
  unfold well_formed_anchor, createAnchor. rewrite chars_str.
  set (kept := List.filter _ _).
  set (dashed := squeeze is_space hyphen false kept).
  set (single := squeeze (is_char hyphen) hyphen false dashed).
  assert (Hk : forallb (fun c => anchor_char c || is_space c) kept = true).
  { unfold kept. rewrite chars_toLowerCase.
    induction (chars title) as [|c l IH]; [reflexivity|].
    simpl. destruct (is_word (lower_ascii c) || is_space (lower_ascii c)
                     || is_char hyphen (lower_ascii c)) eqn:E; [|exact IH].
    simpl. rewrite (kept_lower c E). exact IH. }
  assert (Hd : forallb anchor_char dashed = true).
  { apply squeeze_forallb; [reflexivity|exact Hk]. }
  assert (Hs : forallb anchor_char single = true).
  { apply squeeze_forallb; [reflexivity|].
    rewrite forallb_forall in *. intros c Hc. rewrite (Hd c Hc). reflexivity. }
  destruct (strip_shape single (proj1 (squeeze_hyphen_shape dashed false)))
    as [H1 H2].
  rewrite H1, H2, !andb_true_r.
  rewrite strip_last_rev, forallb_rev.
  apply strip_first_forallb. rewrite forallb_rev.
  apply strip_first_forallb. exact Hs.
Qed.

Lemma well_formed_fixed s : well_formed_anchor s = true -> createAnchor s = s.
Proof.
  unfold well_formed_anchor, createAnchor, no_edge_hyphen. intros H.
  apply andb_true_iff in H as [H He]. apply andb_true_iff in H as [Hc Hd].
  apply andb_true_iff in He as [He1 He2].
  rewrite chars_toLowerCase.
  assert (Hl : map lower_ascii (chars s) = chars s).
  { clear -Hc. induction (chars s) as [|c l IH]; [reflexivity|].
    simpl in Hc. apply andb_true_iff in Hc as [Hc1 Hc2].
    simpl. rewrite (proj1 (anchor_char_facts c Hc1)), (IH Hc2). reflexivity. }
  rewrite Hl.
  assert (Hf : List.filter (fun c => is_word c || is_space c || is_char hyphen c)
                           (chars s) = chars s).
  { clear -Hc. induction (chars s) as [|c l IH]; [reflexivity|].
    simpl in Hc. apply andb_true_iff in Hc as [Hc1 Hc2].
    simpl. rewrite (proj2 (proj2 (anchor_char_facts c Hc1))), (IH Hc2).
    reflexivity. }
  rewrite Hf.
  rewrite squeeze_space_fixed.
  - rewrite squeeze_hyphen_fixed by (auto; discriminate).
    rewrite strip_first_fixed by exact He1.
    rewrite strip_last_rev, strip_first_fixed by exact He2.
    rewrite rev_involutive. apply str_chars.
  - clear -Hc. induction (chars s) as [|c l IH]; [reflexivity|].
    simpl in Hc. apply andb_true_iff in Hc as [Hc1 Hc2].
    simpl. rewrite (proj1 (proj2 (anchor_char_facts c Hc1))), (IH Hc2).
    reflexivity.
Qed.

(** X12.  [createAnchor] is idempotent: an anchor is its own anchor. *)
Theorem createAnchor_idempotent (title : string) :
  createAnchor (createAnchor title) = createAnchor title.
Proof. apply well_formed_fixed, createAnchor_well_formed. Qed.

End AnchorFacts.

Module PositionFacts.
Import Js Utilities.

Lemma length_str l : Js.length (str l) = Z.of_nat (List.length l).
Proof.
  unfold Js.length, str. f_equal.
  induction l as [|c l IH]; simpl; [reflexivity|]. rewrite IH. reflexivity.
Qed.

Lemma length_chars s : List.length (chars s) = String.length s.
Proof. induction s as [|c s IH]; simpl; [reflexivity|]. rewrite IH. reflexivity. Qed.

Lemma split_lines_nonempty l : forall cur, Csv.split_lines l cur <> [].
Proof.
  induction l as [|c l IH]; intros cur; simpl; [discriminate|].
  destruct (code c =? 10)%nat; [discriminate|apply IH].
Qed.

(** Splitting a prefix gives the full lines before the cut and the part
    of the line that the cut falls in; their lengths add up to the cut. *)
Lemma split_prefix l : forall cur i,
  (i <= List.length l)%nat ->
  let lp := Csv.split_lines (take i l) cur in
  let lf := Csv.split_lines l cur in
  take (List.length lp - 1) lf = take (List.length lp - 1) lp /\
  fold_right Z.add 0
    (map (fun x => Js.length x + 1) (take (List.length lp - 1) lp)) +
  Js.length (List.last lp EmptyString) =
  Z.of_nat (List.length cur) + Z.of_nat i.
Proof.
  induction l as [|c l IH]; intros cur i Hi; cbv zeta.
  - destruct i; simpl in *; [|lia]. rewrite length_str. split; [reflexivity|lia].
  - destruct i as [|i].
    + simpl. rewrite length_str. split; (reflexivity || lia).
    + simpl in Hi. cbn [take Csv.split_lines].
      destruct (code c =? 10)%nat.
      * specialize (IH [] i ltac:(lia)). cbv zeta in IH.
        pose proof (split_lines_nonempty (take i l) []) as Hne.
        destruct (Csv.split_lines (take i l) []) as [|x lp'] eqn:E; [congruence|].
        destruct IH as [IH1 IH2].
        cbn [List.length] in *.
        replace (Datatypes.S (Datatypes.S (List.length lp')) - 1)%nat
          with (Datatypes.S (List.length lp')) by lia.
        replace (Datatypes.S (List.length lp') - 1)%nat
          with (List.length lp') in IH1, IH2 by lia.
        split.
        -- change (str cur :: take (List.length lp') (Csv.split_lines l []) =
                   str cur :: take (List.length lp') (x :: lp')).
           rewrite IH1. reflexivity.
        -- change (take (Datatypes.S (List.length lp')) (str cur :: x :: lp'))
             with (str cur :: take (List.length lp') (x :: lp')).
           cbn [map fold_right].
           change (List.last (str cur :: x :: lp') EmptyString)
             with (List.last (x :: lp') EmptyString).
           rewrite length_str. lia.
      * specialize (IH (cur ++ [c]) i ltac:(lia)). cbv zeta in IH.
        destruct IH as [IH1 IH2]. split; [exact IH1|].
        rewrite IH2, length_app. simpl. lia.
Qed.

(** X13.  [getPosition] is inverted by adding up line lengths: for an
    index inside the content, the lengths of the lines before the reported
    line, each with its line break, plus the reported column less one give
    back the index; line and column are at least 1. *)
Theorem getPosition_offset (content : string) (index : Z) :
  0 <= index <= Js.length content ->
  offset_of content (getPosition content index) = index /\
  1 <= pos_line (getPosition content index) /\
  1 <= pos_column (getPosition content index).
Proof.
  intros [H0 H1]. unfold offset_of, getPosition, prefix. cbn [pos_line pos_column].
  assert (Hi : (Z.to_nat index <= List.length (chars content))%nat).
  { rewrite length_chars. unfold Js.length in H1. lia. }
  pose proof (split_prefix (chars content) [] (Z.to_nat index) Hi) as Hsp.
  cbv zeta in Hsp. destruct Hsp as [E1 E2].
  pose proof (split_lines_nonempty (take (Z.to_nat index) (chars content)) [])
    as Hne.
  set (lp := Csv.split_lines (take (Z.to_nat index) (chars content)) []) in *.
  assert (Hlen : (1 <= List.length lp)%nat).
  { destruct lp; [congruence|simpl; lia]. }
  replace (Z.to_nat (Z.of_nat (List.length lp) - 1))
    with (List.length lp - 1)%nat by lia.
  rewrite E1. simpl in E2. split; [lia|]. split; [lia|].
  unfold Js.length. lia.
Qed.

Lemma getPosition_offset_witness :
  offset_of Csv.people_text (getPosition Csv.people_text 12) = 12 /\
  1 <= pos_line (getPosition Csv.people_text 12) /\
  1 <= pos_column (getPosition Csv.people_text 12).
Proof.
  apply (getPosition_offset Csv.people_text 12).
  split; [discriminate|]. vm_compute. discriminate.
Defined.

End PositionFacts.

Module IdFacts.
Import Js Utilities.

#[local] Arguments is_char : simpl never.
#[local] Arguments between : simpl never.
#[local] Arguments is_digit : simpl never.

Lemma cleaned_chars s :
  forallb id_char
    (map (fun c => if between 97 122 c || is_digit c then c else hyphen) s) = true.
Proof.
  induction s as [|c s IH]; [reflexivity|]. simpl. rewrite IH, andb_true_r.
  unfold id_char. destruct (between 97 122 c || is_digit c) eqn:E.
  - rewrite E. reflexivity.
  - rewrite orb_true_r. reflexivity.
Qed.

Lemma append_empty s : String.append s EmptyString = s.
Proof.
  induction s as [|c s IH]; [reflexivity|].
  change (String c (String.append s EmptyString) = String c s).
  f_equal. exact IH.
Qed.

(** X14.  For a title of ASCII characters an identifier is the type, a
    hyphen, the cleaned title and the line suffix.  The cleaned title has
    the length of the title and consists of lower-case letters, digits
    and hyphens, so titles that differ only in letter case or in other
    characters at the same places get the same identifier; a line number
    of [0] gives the same identifier as no line number. *)
Theorem generateId_shape (title type : string) (line : option nat) :
  forallb is_ascii (chars title) = true ->
  (exists clean,
     Csv.generateId title type None
       = String.append type (String.append "-" clean) /\
     String.length clean = String.length title /\
     forallb id_char (chars clean) = true) /\
  Csv.generateId (toLowerCase title) type line = Csv.generateId title type line /\
  Csv.generateId title type (Some 0%nat) = Csv.generateId title type None.
Proof.
  intros _. split; [|split; [|reflexivity]].
  - unfold Csv.generateId, Csv.replace_chars.
    eexists (str _). split; [|split].
    + f_equal. f_equal. apply append_empty.
    + rewrite <- !PositionFacts.length_chars, AnchorFacts.chars_str, length_map.
      rewrite AnchorFacts.chars_toLowerCase, length_map. reflexivity.
    + rewrite AnchorFacts.chars_str. apply cleaned_chars.
  - unfold Csv.generateId. rewrite DispatchFacts.toLowerCase_idem. reflexivity.
Qed.

Lemma generateId_shape_witness :
  forallb is_ascii (chars "Full Name") = true /\
  Csv.generateId (toLowerCase "Full Name") "column" (Some 3%nat)
  = Csv.generateId "Full Name" "column" (Some 3%nat).
Proof.
  split; [reflexivity|].
  exact (proj1 (proj2 (generateId_shape "Full Name" "column" (Some 3%nat)
                                        eq_refl))).
Defined.

End IdFacts.

Module ParseFacts.
Import Js Csv.

#[local] Arguments is_char : simpl never.
#[local] Arguments is_space : simpl never.

Lemma drop_space_head l :
  match drop_space l with
  | c :: _ => is_space c = false
  | [] => True
  end.
Proof.
  induction l as [|c l IH]; simpl; [exact I|].
  destruct (is_space c) eqn:E; [exact IH|exact E].
Qed.

Lemma drop_space_fixed l :
  match l with c :: _ => is_space c = false | [] => True end ->
  drop_space l = l.
Proof.
  destruct l as [|c l]; simpl; [reflexivity|]. intros ->. reflexivity.
Qed.

Lemma drop_space_suffix l : exists p, l = p ++ drop_space l.
Proof.
  induction l as [|c l [p Hp]]; simpl.
  - exists []. reflexivity.
  - destruct (is_space c).
    + exists (c :: p). simpl. f_equal. exact Hp.
    + exists []. reflexivity.
Qed.

Lemma trimmed_fixed l (t := rev (drop_space (rev (drop_space l)))) :
  rev (drop_space (rev (drop_space t))) = t.
Proof.
  assert (Hhead : match t with c :: _ => is_space c = false | [] => True end).
  { subst t. set (m := drop_space l).
    pose proof (drop_space_head l) as Hm. fold m in Hm.
    destruct (drop_space_suffix (rev m)) as [p Hp].
    apply (f_equal (@rev ascii)) in Hp.
    rewrite rev_involutive, rev_app_distr in Hp.
    destruct (rev (drop_space (rev m))) as [|c r]; [exact I|].
    rewrite Hp in Hm. exact Hm. }
  rewrite (drop_space_fixed t Hhead).
  subst t. rewrite rev_involutive.
  rewrite (drop_space_fixed _ (drop_space_head _)). reflexivity.
Qed.

Lemma trim_idempotent s : trim (trim s) = trim s.
Proof.
  unfold trim. rewrite AnchorFacts.chars_str. f_equal. apply trimmed_fixed.
Qed.

(** How often [delimiter] occurs in a line. *)
Lemma parse_loop_fields delimiter : forall n line current inQuotes result,
  (List.length line <= n)%nat ->
  (List.length result + 1 <= List.length (parse_loop delimiter line current inQuotes result)
   <= List.length result + 1 + List.length (List.filter (is_char delimiter) line))%nat /\
  (Forall (fun f => trim f = f) result ->
   Forall (fun f => trim f = f) (parse_loop delimiter line current inQuotes result)).
Proof.
  induction n as [|n IH]; intros line current inQuotes result Hn.
  - destruct line; [|simpl in Hn; lia]. simpl. rewrite length_app. simpl.
    split; [lia|]. intros H. apply Forall_app. split; [exact H|].
    constructor; [apply trim_idempotent|constructor].
  - destruct line as [|char rest].
    { simpl. rewrite length_app. simpl.
      split; [lia|]. intros H. apply Forall_app. split; [exact H|].
      constructor; [apply trim_idempotent|constructor]. }
    simpl in Hn. cbn [parse_loop List.filter].
    destruct (is_char quote char) eqn:Eq.
    + destruct rest as [|nextChar rest'].
      * destruct (IH [] current (negb inQuotes) result) as [H1 H2]; [simpl; lia|].
        split; [|exact H2].
        destruct (is_char delimiter char); simpl in *; lia.
      * destruct (inQuotes && is_char quote nextChar).
        -- destruct (IH rest' (current ++ [quote]) inQuotes result) as [H1 H2];
             [simpl in Hn; lia|].
           split; [|exact H2].
           cbn [List.filter].
           destruct (is_char delimiter char), (is_char delimiter nextChar);
             simpl in *; lia.
        -- destruct (IH (nextChar :: rest') current (negb inQuotes) result)
             as [H1 H2]; [lia|].
           split; [|exact H2].
           destruct (is_char delimiter char); simpl in *; lia.
    + destruct (is_char delimiter char) eqn:Ed; cbn [andb].
      * destruct (negb inQuotes).
        -- destruct (IH rest [] inQuotes (result ++ [trim (str current)]))
             as [H1 H2]; [lia|].
           rewrite length_app in H1. simpl in *.
           split; [lia|]. intros H. apply H2. apply Forall_app.
           split; [exact H|]. constructor; [apply trim_idempotent|constructor].
        -- destruct (IH rest (current ++ [char]) inQuotes result) as [H1 H2]; [lia|].
           split; [|exact H2]. simpl. lia.
      * destruct (IH rest (current ++ [char]) inQuotes result) as [H1 H2]; [lia|].
        split; [|exact H2]. lia.
Qed.

Lemma parse_loop_unquoted delimiter : forall line current result,
  forallb (fun c => negb (is_char quote c)) line = true ->
  List.length (parse_loop delimiter line current false result)
  = (List.length result + 1 + List.length (List.filter (is_char delimiter) line))%nat.
Proof.
  intros l. induction l as [|char rest IH]; intros current result Hq.
  - simpl. rewrite length_app. simpl. lia.
  - simpl in Hq. apply andb_true_iff in Hq as [Hc Hq].
    apply negb_true_iff in Hc.
    cbn [parse_loop List.filter]. rewrite Hc.
    destruct (is_char delimiter char); cbn [andb negb].
    + rewrite IH by exact Hq. rewrite length_app. simpl. lia.
    + rewrite IH by exact Hq. lia.
Qed.

Lemma parseCsvLine_length (line : string) (delimiter : ascii) :
  (1 <= List.length (parseCsvLine line delimiter)
   <= 1 + List.length (List.filter (is_char delimiter) (chars line)))%nat.
Proof.
  unfold parseCsvLine.
  destruct (parse_loop_fields delimiter (List.length (chars line)) (chars line)
              [] false []) as [H1 _]; [lia|].
  simpl in H1. lia.
Qed.

(** X15.  [parseCsvLine] never returns an empty array: a line gives at
    least one field and at most one more than it has delimiter
    characters, and every field is trimmed. *)
Theorem parseCsvLine_fields (line : string) (delimiter : ascii) :
  (1 <= List.length (parseCsvLine line delimiter)
   <= 1 + List.length (List.filter (is_char delimiter) (chars line)))%nat /\
  Forall (fun field => trim field = field) (parseCsvLine line delimiter).
Proof.
  split; [apply parseCsvLine_length|].
  unfold parseCsvLine.
  destruct (parse_loop_fields delimiter (List.length (chars line)) (chars line)
              [] false []) as [_ H2]; [lia|].
  apply H2. constructor.
Qed.

(** X16.  On a line without a double quote every delimiter character
    separates two fields: the number of fields is one more than the number
    of delimiter characters. *)
Theorem parseCsvLine_unquoted (line : string) (delimiter : ascii) :
  forallb (fun c => negb (is_char quote c)) (chars line) = true ->
  List.length (parseCsvLine line delimiter)
  = (1 + List.length (List.filter (is_char delimiter) (chars line)))%nat.
Proof.
  intros Hq. unfold parseCsvLine. rewrite parse_loop_unquoted by exact Hq.
  reflexivity.
Qed.

Lemma parseCsvLine_unquoted_witness :
  List.length (parseCsvLine "Alice, 30 ,x" ","%char) = 3%nat.
Proof.
  exact (parseCsvLine_unquoted "Alice, 30 ,x" ","%char eq_refl).
Defined.

End ParseFacts.

Module DefaultDelimiterFacts.
Import Js Csv JsFacts DelimiterFacts.

#[local] Arguments is_char : simpl never.

(** The score of at most ten rows of one field each: the mean is exactly
    [1], not above [1], and the score is [0]; without any row it is
    [NaN]. *)
Lemma score_ones (k : nat) :
  (k <= 10)%nat ->
  Claimed.delimiter_score (repeat (of_nat 1) k) = S754_zero false \/
  Claimed.delimiter_score (repeat (of_nat 1) k) = NaN.
Proof.
  intros Hk.
  do 11 (destruct k as [|k]; [vm_compute; auto|]).
  exfalso. lia.
Qed.

Lemma map_constant {A B : Type} (f : A -> B) (b : B) (l : list A) :
  (forall x, In x l -> f x = b) -> map f l = repeat b (List.length l).
Proof.
  induction l as [|x l IH]; intros H; simpl; [reflexivity|].
  rewrite (H x) by (left; reflexivity).
  rewrite IH by (intros y Hy; apply H; right; exact Hy). reflexivity.
Qed.

(** A candidate that occurs in none of the first ten lines gives one field
    per line and scores zero. *)
Lemma score_absent lines d :
  (forall line, In line (take 10 lines) ->
     List.filter (is_char d) (chars line) = []) ->
  score lines d = S754_zero false \/ score lines d = NaN.
Proof.
  intros H. rewrite score_claimed. unfold rowLengths.
  rewrite (map_constant _ (of_nat 1)).
  - apply score_ones. apply firstn_le_length.
  - intros line Hline.
    destruct (ParseFacts.parseCsvLine_length line d) as [H1 H2].
    rewrite (H line Hline) in H2. simpl in H2.
    replace (List.length (parseCsvLine line d)) with 1%nat by lia.
    reflexivity.
Qed.

Lemma consider_keeps lines st d :
  positive_sign (snd st) = true ->
  score lines d = S754_zero false \/ score lines d = NaN ->
  consider lines st d = st.
Proof.
  intros Hst Hd. unfold consider.
  destruct Hd as [-> | ->].
  - change (S754_zero false) with (of_Z 0).
    rewrite (positive_sign_zero _ Hst). reflexivity.
  - destruct (snd st) as [[|]| [|] | |[|] m e]; reflexivity.
Qed.

(** X17.  The comma is the default: when none of the first ten lines
    contains a semicolon, a tab, a vertical bar or a colon, the detected
    delimiter is the comma, whatever the comma's own score. *)
Theorem detectDelimiter_default (lines : list string) :
  (forall line d, In line (take 10 lines) -> In d [";"%char; tab; "|"%char; ":"%char] ->
     List.filter (is_char d) (chars line) = []) ->
  detectDelimiter lines = ","%char.
Proof.
  intros H. unfold detectDelimiter, delimiters.
  change (fold_left (consider lines) [","; ";"; tab; "|"; ":"]%char
                    (","%char, of_Z 0))
    with (fold_left (consider lines) [";"; tab; "|"; ":"]%char
                    (consider lines (","%char, of_Z 0) ","%char)).
  assert (Hst : fst (consider lines (","%char, of_Z 0) ","%char) = ","%char /\
                positive_sign
                  (snd (consider lines (","%char, of_Z 0) ","%char)) = true).
  { unfold consider. cbn [snd].
    destruct (lt (of_Z 0) (score lines ",")); cbn [fst snd].
    - split; [reflexivity|apply score_positive_sign].
    - split; reflexivity. }
  destruct Hst as [Hfst Hsnd].
  set (st := consider lines (","%char, of_Z 0) ","%char) in *.
  cbn [fold_left].
  rewrite (consider_keeps lines st ";"%char Hsnd)
    by (apply score_absent; intros line Hl; apply H; simpl; auto).
  rewrite (consider_keeps lines st tab Hsnd)
    by (apply score_absent; intros line Hl; apply H; simpl; auto).
  rewrite (consider_keeps lines st "|"%char Hsnd)
    by (apply score_absent; intros line Hl; apply H; simpl; auto).
  rewrite (consider_keeps lines st ":"%char Hsnd)
    by (apply score_absent; intros line Hl; apply H; simpl; auto).
  exact Hfst.
Qed.

Lemma detectDelimiter_default_witness :
  detectDelimiter ["Name Age"; "Alice 30"; "Bob 25"]%string = ","%char.
Proof.
  apply detectDelimiter_default.
  intros line d Hl Hd. simpl in Hl, Hd.
  destruct Hl as [<-|[<-|[<-|[]]]];
    destruct Hd as [<-|[<-|[<-|[<-|[]]]]]; reflexivity.
Defined.

End DefaultDelimiterFacts.

Module ColumnCountFacts.
Import Csv RowLengths.

Lemma existsb_eqb n keys : existsb (Nat.eqb n) keys = true <-> In n keys.
Proof.
  rewrite existsb_exists. split.
  - intros [x [Hx E]]. apply Nat.eqb_eq in E. subst. exact Hx.
  - intros H. exists n. split; [exact H|apply Nat.eqb_refl].
Qed.

Lemma first_seen_snoc l n :
  first_seen (l ++ [n])
  = if existsb (Nat.eqb n) (first_seen l) then first_seen l
    else first_seen l ++ [n].
Proof. unfold first_seen. rewrite fold_left_app. reflexivity. Qed.

Lemma first_seen_In l : forall n, In n (first_seen l) <-> In n l.
Proof.
  induction l as [|c l IH] using rev_ind; intros n; [reflexivity|].
  rewrite first_seen_snoc, in_app_iff.
  destruct (existsb (Nat.eqb c) (first_seen l)) eqn:E.
  - rewrite IH. apply existsb_eqb in E. apply IH in E.
    simpl. split; [tauto|]. intros [H|[<-|[]]]; [exact H|exact E].
  - rewrite in_app_iff, IH. reflexivity.
Qed.

Lemma first_seen_NoDup l : List.NoDup (first_seen l).
Proof.
  induction l as [|c l IH] using rev_ind; [constructor|].
  rewrite first_seen_snoc.
  destruct (existsb (Nat.eqb c) (first_seen l)) eqn:E; [exact IH|].
  apply List.NoDup_app; [exact IH|repeat constructor; intros []|].
  intros x Hx [<-|[]]. apply existsb_eqb in Hx. congruence.
Qed.

Lemma occurrences_snoc n l c :
  occurrences n (l ++ [c]) = (occurrences n l + if (n =? c)%nat then 1 else 0)%nat.
Proof.
  unfold occurrences. rewrite List.filter_app, length_app. simpl.
  destruct (n =? c)%nat; reflexivity.
Qed.

Lemma occurrences_absent n l : ~ In n l -> occurrences n l = 0%nat.
Proof.
  unfold occurrences. induction l as [|c l IH]; intros H; [reflexivity|].
  simpl. destruct (n =? c)%nat eqn:E.
  - apply Nat.eqb_eq in E. subst. exfalso. apply H. left. reflexivity.
  - apply IH. intros Hn. apply H. right. exact Hn.
Qed.

Lemma occurrences_present n l : In n l -> (0 < occurrences n l)%nat.
Proof.
  unfold occurrences. induction l as [|c l IH]; intros H; [destruct H|].
  simpl. destruct (n =? c)%nat eqn:E; [simpl; lia|].
  apply IH. destruct H as [->|H]; [|exact H].
  rewrite Nat.eqb_refl in E. discriminate.
Qed.

(** [bump] on a table of counts without the key appends it with count
    one; with the key it adds one to its count. *)
Lemma bump_absent (f g : nat -> nat) c : forall keys,
  ~ In c keys ->
  (forall k, k <> c -> g k = f k) -> g c = 1%nat ->
  bump c (map (fun k => (k, f k)) keys) = map (fun k => (k, g k)) (keys ++ [c]).
Proof.
  induction keys as [|k keys IH]; intros Hc Hg Hgc.
  - simpl. rewrite Hgc. reflexivity.
  - simpl. destruct (k =? c)%nat eqn:E.
    + apply Nat.eqb_eq in E. subst. exfalso. apply Hc. left. reflexivity.
    + apply Nat.eqb_neq in E. rewrite (Hg k E). f_equal.
      apply IH; [|exact Hg|exact Hgc]. intros H. apply Hc. right. exact H.
Qed.

Lemma bump_present (f g : nat -> nat) c : forall keys,
  In c keys -> List.NoDup keys ->
  (forall k, k <> c -> g k = f k) -> g c = Datatypes.S (f c) ->
  bump c (map (fun k => (k, f k)) keys) = map (fun k => (k, g k)) keys.
Proof.
  induction keys as [|k keys IH]; intros Hc Hnd Hg Hgc; [destruct Hc|].
  apply List.NoDup_cons_iff in Hnd as [Hk Hnd].
  simpl. destruct (k =? c)%nat eqn:E.
  - apply Nat.eqb_eq in E. subst k. rewrite Hgc. f_equal.
    apply map_ext_in. intros k Hin. rewrite Hg; [reflexivity|].
    intros ->. exact (Hk Hin).
  - apply Nat.eqb_neq in E. rewrite (Hg k E). f_equal.
    apply IH; [|exact Hnd|exact Hg|exact Hgc].
    destruct Hc as [Hc|Hc]; [congruence|exact Hc].
Qed.

(** The table built by the first loop: one entry per distinct row length,
    in the order of first occurrence, with its number of occurrences. *)
Lemma counts_spec l :
  fold_left (fun m n => bump n m) l [] = map (entry l) (first_seen l).
Proof.
  induction l as [|c l IH] using rev_ind; [reflexivity|].
  rewrite fold_left_app. cbn [fold_left]. rewrite IH, first_seen_snoc.
  unfold entry.
  destruct (existsb (Nat.eqb c) (first_seen l)) eqn:E.
  - apply bump_present.
    + apply existsb_eqb. exact E.
    + apply first_seen_NoDup.
    + intros k Hk. rewrite occurrences_snoc.
      apply Nat.eqb_neq in Hk. rewrite Hk. lia.
    + rewrite occurrences_snoc, Nat.eqb_refl. lia.
  - apply bump_absent.
    + intros H. apply existsb_eqb in H. congruence.
    + intros k Hk. rewrite occurrences_snoc.
      apply Nat.eqb_neq in Hk. rewrite Hk. lia.
    + rewrite occurrences_snoc, Nat.eqb_refl.
      rewrite occurrences_absent; [reflexivity|].
      intros H. apply first_seen_In, existsb_eqb in H. congruence.
Qed.

(** The second loop keeps the first entry with the highest count. *)
Lemma pick_spec (cnt : nat -> nat) : forall rest K1 k K2,
  (forall n, In n K1 -> (cnt n < cnt k)%nat) ->
  (forall n, In n K2 -> (cnt n <= cnt k)%nat) ->
  exists K1' k' K2',
    K1 ++ k :: K2 ++ rest = K1' ++ k' :: K2' /\
    fold_left (fun (st : nat * nat) (e : nat * nat) =>
                 if (fst st <? snd e)%nat then (snd e, fst e) else st)
              (map (fun n => (n, cnt n)) rest) (cnt k, k) = (cnt k', k') /\
    (forall n, In n K1' -> (cnt n < cnt k')%nat) /\
    (forall n, In n K2' -> (cnt n <= cnt k')%nat).
Proof.
  induction rest as [|c rest IH]; intros K1 k K2 H1 H2.
  - exists K1, k, K2. rewrite app_nil_r. auto.
  - cbn [map fold_left fst snd].
    destruct (cnt k <? cnt c)%nat eqn:E.
    + apply Nat.ltb_lt in E.
      destruct (IH (K1 ++ k :: K2) c []) as (K1' & k' & K2' & Heq & Hf & Ha & Hb).
      * intros n Hn. apply in_app_iff in Hn as [Hn|[<-|Hn]].
        -- specialize (H1 n Hn). lia.
        -- exact E.
        -- specialize (H2 n Hn). lia.
      * intros n [].
      * exists K1', k', K2'. split; [|auto].
        rewrite <- Heq, <- app_assoc. reflexivity.
    + apply Nat.ltb_ge in E.
      destruct (IH K1 k (K2 ++ [c])) as (K1' & k' & K2' & Heq & Hf & Ha & Hb).
      * exact H1.
      * intros n Hn. apply in_app_iff in Hn as [Hn|[<-|[]]]; [auto|exact E].
      * exists K1', k', K2'. split; [|auto].
        rewrite <- Heq, <- app_assoc. reflexivity.
Qed.

(** Where a key stands in the order of first occurrence, its first
    occurrence stands in the list. *)
Lemma first_seen_split l : forall K1 k K2,
  first_seen l = K1 ++ k :: K2 ->
  exists l1 l2, l = l1 ++ k :: l2 /\ ~ In k l1 /\ forall n, In n l1 -> In n K1.
Proof.
  induction l as [|c l IH] using rev_ind; intros K1 k K2 H.
  - destruct K1; discriminate.
  - rewrite first_seen_snoc in H.
    destruct (existsb (Nat.eqb c) (first_seen l)) eqn:E.
    + destruct (IH K1 k K2 H) as (l1 & l2 & -> & Hk & Hn).
      exists l1, (l2 ++ [c]). rewrite <- app_assoc. auto.
    + induction K2 as [|c' K2' _] using rev_ind.
      * apply app_inj_tail in H as [HK ->].
        exists l, []. split; [reflexivity|]. split.
        -- intros Hin. apply first_seen_In, existsb_eqb in Hin. congruence.
        -- intros n Hn. rewrite <- HK. apply first_seen_In. exact Hn.
      * rewrite app_comm_cons, app_assoc in H.
        apply app_inj_tail in H as [HK ->].
        destruct (IH K1 k K2' HK) as (l1 & l2 & -> & Hk & Hn).
        exists l1, (l2 ++ [c']). rewrite <- app_assoc. auto.
Qed.

Lemma getColumnCount_first_mode (rows : list (list string))
    (lens := map (@List.length string) rows) (r := getColumnCount rows) :
  rows <> [] ->
  (forall n, occurrences n lens <= occurrences r lens)%nat /\
  exists l1 l2,
    lens = l1 ++ r :: l2 /\ ~ In r l1 /\
    forall n, In n l1 -> (occurrences n lens < occurrences r lens)%nat.
Proof.
  intros Hrows.
  assert (Hfold : forall (m : list (nat * nat)) (l : list (list string)),
            fold_left (fun m row => bump (List.length row) m) l m
            = fold_left (fun m n => bump n m) (map (@List.length string) l) m).
  { intros m l. revert m. induction l as [|x l IH]; intros m; [reflexivity|].
    simpl. apply IH. }
  subst r. unfold getColumnCount. cbv zeta. rewrite Hfold. fold lens.
  rewrite counts_spec. unfold entry.
  destruct (first_seen lens) as [|k0 keys] eqn:Ekeys.
  { exfalso. destruct rows as [|row rows]; [congruence|].
    assert (Hin : In (List.length row) (first_seen lens))
      by (apply first_seen_In; left; reflexivity).
    rewrite Ekeys in Hin. destruct Hin. }
  cbn [map fold_left fst snd].
  assert (Hk0 : (0 < occurrences k0 lens)%nat).
  { apply occurrences_present, first_seen_In. rewrite Ekeys. left. reflexivity. }
  replace (0 <? occurrences k0 lens)%nat with true
    by (symmetry; apply Nat.ltb_lt; exact Hk0).
  destruct (pick_spec (fun n => occurrences n lens) keys [] k0 [])
    as (K1 & k & K2 & Heq & -> & Ha & Hb); [intros n []|intros n []|].
  cbn [snd]. simpl in Heq. rewrite Heq in Ekeys.
  split.
  - intros n. destruct (in_dec Nat.eq_dec n lens) as [Hin|Hin].
    + apply first_seen_In in Hin. rewrite Ekeys in Hin.
      apply in_app_iff in Hin as [Hin|[<-|Hin]].
      * specialize (Ha n Hin). simpl in Ha. lia.
      * lia.
      * exact (Hb n Hin).
    + rewrite occurrences_absent by exact Hin. lia.
  - destruct (first_seen_split lens K1 k K2 Ekeys) as (l1 & l2 & Hl & Hk & Hn).
    exists l1, l2. split; [exact Hl|]. split; [exact Hk|].
    intros n Hin. exact (Ha n (Hn n Hin)).
Qed.

(** X18.  [getColumnCount] returns the most common row length, and among
    equally common lengths the one met first: no length occurs more often
    than the result, and every length met before the first row of the
    result's length occurs strictly less often. *)
Theorem getColumnCount_modal (rows : list (list string))
    (lens := map (@List.length string) rows) (r := getColumnCount rows) :
  rows <> [] ->
  (forall n, occurrences n lens <= occurrences r lens)%nat /\
  exists l1 l2,
    lens = l1 ++ r :: l2 /\ ~ In r l1 /\
    forall n, In n l1 -> (occurrences n lens < occurrences r lens)%nat.
Proof. exact (getColumnCount_first_mode rows). Qed.

Lemma getColumnCount_modal_witness :
  people_rows <> [] /\
  (occurrences 3 (map (@List.length string) people_rows)
   <= occurrences (getColumnCount people_rows)
                  (map (@List.length string) people_rows))%nat.
Proof.
  split; [discriminate|].
  apply (getColumnCount_modal people_rows). discriminate.
Defined.

End ColumnCountFacts.

Module ColumnFacts.
Import Js Csv.

Lemma existsb_String_eqb x seen : existsb (String.eqb x) seen = true <-> In x seen.
Proof.
  rewrite existsb_exists. split.
  - intros [y [Hy E]]. apply String.eqb_eq in E. subst. exact Hy.
  - intros H. exists x. split; [exact H|apply String.eqb_refl].
Qed.

Lemma unique_from_In x : forall l seen,
  In x (unique_from seen l) <-> In x l /\ ~ In x seen.
Proof.
  induction l as [|y l IH]; intros seen; simpl; [tauto|].
  destruct (existsb (String.eqb y) seen) eqn:E.
  - rewrite IH. apply existsb_String_eqb in E. split.
    + intros [H1 H2]. auto.
    + intros [[->|H1] H2]; [contradiction|auto].
  - assert (Hy : ~ In y seen).
    { intros H. apply existsb_String_eqb in H. congruence. }
    simpl. rewrite IH. simpl. split.
    + intros [->|[H1 H2]]; [auto|]. split; [auto|]. intros H. apply H2. auto.
    + intros [[->|H1] H2]; [auto|].
      destruct (String.eqb_spec y x) as [->|Hne]; [auto|].
      right. split; [exact H1|]. intros [H|H]; [exact (Hne H)|exact (H2 H)].
Qed.

Lemma unique_from_NoDup : forall l seen, List.NoDup (unique_from seen l).
Proof.
  induction l as [|y l IH]; intros seen; simpl; [constructor|].
  destruct (existsb (String.eqb y) seen); [apply IH|].
  constructor; [|apply IH].
  rewrite unique_from_In. intros [_ H]. apply H. left. reflexivity.
Qed.

Lemma unique_from_length : forall l seen,
  (List.length (unique_from seen l) <= List.length l)%nat.
Proof.
  induction l as [|y l IH]; intros seen; simpl; [lia|].
  destruct (existsb (String.eqb y) seen); simpl.
  - specialize (IH seen). lia.
  - specialize (IH (y :: seen)). lia.
Qed.

Lemma take_In {A} (x : A) n l : In x (take n l) -> In x l.
Proof.
  intros H. rewrite <- (firstn_skipn n l). apply in_or_app. left. exact H.
Qed.

Lemma take_NoDup {A} n (l : list A) : List.NoDup l -> List.NoDup (take n l).
Proof.
  intros H. rewrite <- (firstn_skipn n l) in H.
  exact (List.NoDup_app_remove_r _ _ H).
Qed.

Lemma filter_length_le {A} (f : A -> bool) l :
  (List.length (List.filter f l) <= List.length l)%nat.
Proof.
  induction l as [|x l IH]; simpl; [lia|]. destruct (f x); simpl; lia.
Qed.

Lemma inferColumnType_not_phone rt values : inferColumnType rt values <> phone_t.
Proof.
  unfold inferColumnType. destruct values as [|v values]; [discriminate|].
  cbv zeta.
  repeat match goal with
         | |- (if ?b then _ else _) <> _ => destruct b; try discriminate
         end.
Qed.

Lemma default_name_nonempty colIndex : nonempty (default_name colIndex) = true.
Proof.
  unfold nonempty, default_name, length.
  change (String.append "Column_" (decimal (colIndex + 1)))
    with (String "C" (String.append "olumn_" (decimal (colIndex + 1)))).
  cbn [String.length]. apply Z.ltb_lt. lia.
Qed.

Lemma analyzeColumn_index rt headers dataRows colIndex :
  Csv.index (analyzeColumn rt headers dataRows colIndex) = colIndex.
Proof. reflexivity. Qed.

(** X19.  Every analysed column carries its own index and a non-empty
    name, never has the type [phone], and reports [min] and [max] only
    when its type is [number].  Its sample holds at most five values,
    pairwise distinct, each a non-empty cell of that column in some data
    row; the number of unique values lies between the size of the sample
    and the number of data rows. *)
Theorem analyzeColumn_invariants (rt : Runtime) (headers : list string)
    (dataRows : list (list string)) (colIndex : nat)
    (c := analyzeColumn rt headers dataRows colIndex) :
  Csv.index c = colIndex /\
  nonempty (Csv.name c) = true /\
  Csv.type c <> phone_t /\
  (Csv.type c <> number_t -> Csv.min c = None /\ Csv.max c = None) /\
  (List.length (sampleValues c) <= 5)%nat /\
  List.NoDup (sampleValues c) /\
  Forall (fun v => nonempty v = true /\
                   exists row, In row dataRows /\ cell row colIndex = v)
         (sampleValues c) /\
  (List.length (sampleValues c) <= uniqueValues c <= List.length dataRows)%nat.
Proof.
  subst c. unfold analyzeColumn. cbv zeta. cbn [Csv.index Csv.name Csv.type
    Csv.min Csv.max sampleValues uniqueValues].
  split; [reflexivity|].
  split.
  { destruct (headers !! colIndex) as [h|]; [|apply default_name_nonempty].
    destruct (nonempty h) eqn:E; [exact E|apply default_name_nonempty]. }
  split; [apply inferColumnType_not_phone|].
  split.
  { intros H.
    destruct (inferColumnType rt (column_values dataRows colIndex));
      try (split; reflexivity). congruence. }
  unfold getSampleValues, unique.
  set (values := column_values dataRows colIndex).
  split; [rewrite length_take; lia|].
  split; [apply take_NoDup, unique_from_NoDup|].
  split.
  { apply List.Forall_forall. intros v Hv.
    apply take_In, unique_from_In in Hv as [Hv _].
    unfold values, column_values in Hv.
    apply filter_In in Hv as [Hv Hne]. split; [exact Hne|].
    apply in_map_iff in Hv as [row [Hrow Hin]]. exists row. auto. }
  split.
  - rewrite length_take. lia.
  - etransitivity; [apply unique_from_length|].
    unfold values, column_values.
    etransitivity; [apply filter_length_le|]. rewrite length_map. lia.
Qed.

Lemma analyzeColumn_invariants_witness :
  Csv.type (analyzeColumn permissive ["Name"; "Age"]%string
                          (drop 1 people_rows) 0) <> number_t /\
  Csv.min (analyzeColumn permissive ["Name"; "Age"]%string
                         (drop 1 people_rows) 0) = None.
Proof.
  assert (H : Csv.type (analyzeColumn permissive ["Name"; "Age"]%string
                                      (drop 1 people_rows) 0) <> number_t)
    by (vm_compute; discriminate).
  split; [exact H|].
  destruct (analyzeColumn_invariants permissive ["Name"; "Age"]%string
              (drop 1 people_rows) 0) as (_ & _ & _ & Hmin & _).
  exact (proj1 (Hmin H)).
Defined.

End ColumnFacts.

Module StatsFacts.
Import Js Model Csv.

Lemma analyzeColumns_shape rt headers dataRows columnCount :
  analyzeColumns rt headers dataRows columnCount
  = map (analyzeColumn rt headers dataRows) (seq 0 columnCount).
Proof. unfold analyzeColumns. apply (LoopFacts.for_loop_snoc _ _ 0%nat []). Qed.

Lemma detectHeader_two_rows rows :
  detectHeader rows = true -> (2 <= List.length rows)%nat.
Proof.
  destruct rows as [|r0 [|r1 rows]]; simpl; try discriminate. intros _. lia.
Qed.

Lemma getColumnCount_positive (lines : list string) delimiter :
  lines <> [] ->
  (1 <= getColumnCount (map (fun line => parseCsvLine line delimiter) lines))%nat.
Proof.
  intros H.
  destruct (ColumnCountFacts.getColumnCount_first_mode
              (map (fun line => parseCsvLine line delimiter) lines))
    as [_ (l1 & l2 & Hl & _)].
  { destruct lines; [congruence|discriminate]. }
  set (r := getColumnCount _) in *.
  assert (Hin : In r (map (@List.length string)
                          (map (fun line => parseCsvLine line delimiter) lines))).
  { rewrite Hl. apply in_or_app. right. left. reflexivity. }
  apply in_map_iff in Hin as [row [<- Hrow]].
  apply in_map_iff in Hrow as [line [<- _]].
  apply ParseFacts.parseCsvLine_length.
Qed.

Lemma detectDelimiter_candidate lines : In (detectDelimiter lines) delimiters.
Proof.
  destruct (DelimiterFacts.detectDelimiter_best lines) as (b & a & -> & _).
  apply in_or_app. right. left. reflexivity.
Qed.

Lemma analyzeCsv_no_columns rt content :
  columns (analyzeCsv rt content) = [] <-> lines_of content = [].
Proof.
  unfold analyzeCsv. cbv zeta.
  destruct (lines_of content) as [|line0 lines]; [cbn; tauto|].
  cbn [columns]. split; [|discriminate]. intros H. exfalso.
  rewrite analyzeColumns_shape in H.
  apply (f_equal (@List.length _)) in H. rewrite length_map, length_seq in H.
  set (rows := map _ _) in H.
  assert (Hp : (1 <= getColumnCount rows)%nat)
    by (apply getColumnCount_positive; discriminate).
  simpl in H. lia.
Qed.

(** X20.  The statistics of a text are consistent: the total is the
    number of non-blank lines and is the data rows plus the header row; a
    header is only reported with at least two rows; the delimiter is one
    of the five candidates; the column at position [i] has index [i]; and
    there are no columns exactly when there is no non-blank line.  With a
    non-blank line, total and empty rows add up to the lines of the text;
    without one, the empty rows are reported as [0]. *)
Theorem analyzeCsv_invariants (rt : Runtime) (content : string)
    (stats := analyzeCsv rt content) :
  totalRows stats = List.length (lines_of content) /\
  totalRows stats = (dataRows stats + if hasHeader stats then 1 else 0)%nat /\
  (hasHeader stats = true -> (2 <= totalRows stats)%nat) /\
  In (delimiter stats) delimiters /\
  (forall i c, columns stats !! i = Some c -> Csv.index c = i) /\
  (columns stats = [] <-> lines_of content = []) /\
  (emptyRows stats
   = match lines_of content with
     | [] => 0%nat
     | _ => (List.length (split_lines (chars content) []) - totalRows stats)%nat
     end) /\
  (totalRows stats <= List.length (split_lines (chars content) []))%nat.
Proof.
  subst stats. pose proof (analyzeCsv_no_columns rt content) as Hcols.
  revert Hcols. unfold analyzeCsv. cbv zeta. intros Hcols.
  assert (Hle : (List.length (lines_of content)
                 <= List.length (split_lines (chars content) []))%nat).
  { unfold lines_of. etransitivity; [apply ColumnFacts.filter_length_le|].
    rewrite length_map. lia. }
  destruct (lines_of content) as [|line0 lines] eqn:El.
  { cbn. repeat split; try tauto; try lia; discriminate. }
  set (all := line0 :: lines) in *.
  set (d := detectDelimiter all).
  set (rows := map (fun line => parseCsvLine line d) all).
  cbn [totalRows dataRows hasHeader delimiter columns emptyRows].
  assert (Hrows : List.length rows = List.length all)
    by (unfold rows; apply length_map).
  split; [reflexivity|]. split.
  { destruct (detectHeader rows) eqn:Eh.
    - apply detectHeader_two_rows in Eh. rewrite length_drop. lia.
    - lia. }
  split.
  { intros Eh. apply detectHeader_two_rows in Eh. lia. }
  split; [apply detectDelimiter_candidate|].
  split.
  { intros i c. rewrite analyzeColumns_shape. intros H.
    apply list_lookup_fmap_Some in H as (k & -> & Hk).
    apply lookup_seq in Hk as [-> _].
    apply ColumnFacts.analyzeColumn_index. }
  split; [exact Hcols|].
  split; [reflexivity|exact Hle].
Qed.

Lemma analyzeCsv_invariants_witness :
  hasHeader (analyzeCsv permissive people_text) = true /\
  (2 <= totalRows (analyzeCsv permissive people_text))%nat.
Proof.
  assert (H : hasHeader (analyzeCsv permissive people_text) = true)
    by (vm_compute; reflexivity).
  split; [exact H|].
  destruct (analyzeCsv_invariants permissive people_text) as (_ & _ & Hh & _).
  exact (Hh H).
Defined.

End StatsFacts.

Module OutlineFacts.
Import Js Model Csv.



End OutlineFacts.

Module SwitchFacts.
Import Js Registry PeggySwitch.

Lemma registerDefaultGenerators_other g (m : gmap string OutlineGenerator) k :
  ~ In k default_extension_names ->
  registerDefaultGenerators g m !! k = m !! k.
Proof.
  intros H. unfold registerDefaultGenerators.
  repeat (rewrite lookup_insert_ne;
          [|intros <-; apply H; unfold default_extension_names; simpl; tauto]).
  reflexivity.
Qed.

Lemma registerDefaultGenerators_default g (m : gmap string OutlineGenerator) k :
  In k default_extension_names ->
  registerDefaultGenerators g m !! k = registerDefaultGenerators g ∅ !! k.
Proof.
  intros H. unfold registerDefaultGenerators.
  unfold default_extension_names in H. simpl in H.
  repeat (destruct H as [<-|H];
          [rewrite !lookup_insert; vm_compute; reflexivity|]).
  destruct H.
Qed.

(** X22.  [setPeggyGenerators] registers the defaults again over the
    current map: afterwards a default extension is served as in a fresh
    instance created with that flag, so a custom generator registered for
    it is lost, while every other extension is served as before. *)
Theorem setPeggyGenerators_resets_defaults (classes : Classes) (enabled : bool)
    (this : Instance) (content fileExtension : string)
    (options : GeneratorOptions) :
  usePeggyGenerators (setPeggyGenerators classes enabled this) = enabled /\
  generateFromContent (generators (setPeggyGenerators classes enabled this))
                      content fileExtension options =
  if bool_decide (In (toLowerCase fileExtension) default_extension_names)
  then generateFromContent (generators (create classes (Some enabled)))
                           content fileExtension options
  else generateFromContent (generators this) content fileExtension options.
Proof.
  split; [reflexivity|].
  unfold generateFromContent.
  change (generators (setPeggyGenerators classes enabled this))
    with (registerDefaultGenerators (defaults_for classes enabled) (generators this)).
  change (generators (create classes (Some enabled)))
    with (registerDefaultGenerators (defaults_for classes enabled) ∅).
  case_bool_decide as H.
  - rewrite (registerDefaultGenerators_default _ (generators this) _ H).
    reflexivity.
  - rewrite (registerDefaultGenerators_other _ (generators this) _ H).
    reflexivity.
Qed.

Lemma registerDefaultGenerators_again g g' (m : gmap string OutlineGenerator) :
  registerDefaultGenerators g (registerDefaultGenerators g' m)
  = registerDefaultGenerators g m.
Proof.
  apply map_eq. intros k.
  destruct (decide (In k default_extension_names)) as [H|H].
  - rewrite (registerDefaultGenerators_default g m k H).
    apply registerDefaultGenerators_default. exact H.
  - rewrite (registerDefaultGenerators_other g m k H).
    rewrite (registerDefaultGenerators_other g _ k H).
    apply registerDefaultGenerators_other. exact H.
Qed.

(** X23.  Switching twice is switching once with the last flag, and
    switching a fresh instance to its own flag changes nothing. *)
Theorem setPeggyGenerators_last_wins (classes : Classes) (first last : bool)
    (this : Instance) :
  setPeggyGenerators classes last (setPeggyGenerators classes first this)
  = setPeggyGenerators classes last this /\
  setPeggyGenerators classes last (create classes (Some last))
  = create classes (Some last).
Proof.
  unfold setPeggyGenerators, create. cbn [generators default].
  split; f_equal; apply registerDefaultGenerators_again.
Qed.

End SwitchFacts.

Module HeadingFacts.
Import Js Model Markdown.

#[local] Arguments is_char : simpl never.
#[local] Arguments is_space : simpl never.
#[local] Arguments is_dot : simpl never.
#[local] Arguments is_hash : simpl never.

Lemma first_some_Some {A B} (f : A -> option B) l y :
  first_some f l = Some y -> exists x, In x l /\ f x = Some y.
Proof.
  induction l as [|x l IH]; simpl; [discriminate|].
  destruct (f x) as [y'|] eqn:E.
  - intros [= <-]. exists x. auto.
  - intros H. destruct (IH H) as [x' [Hin Hx]]. exists x'. auto.
Qed.

Lemma first_some_is_Some {A B} (f : A -> option B) l x :
  In x l -> is_Some (f x) -> is_Some (first_some f l).
Proof.
  induction l as [|x' l IH]; simpl; [intros []|].
  intros [->|Hin] Hx.
  - destruct (f x); [eexists; reflexivity|destruct Hx; discriminate].
  - destruct (f x'); [eexists; reflexivity|]. apply IH; assumption.
Qed.

Lemma greedy_In p lo hi l n :
  In n (greedy p lo hi l) <->
  (lo <= n <= match hi with
              | Some hi => Nat.min hi (leading p l)
              | None => leading p l
              end)%nat.
Proof.
  unfold greedy. rewrite <- in_rev, in_seq. lia.
Qed.

Lemma leading_take p : forall l n,
  (n <= leading p l)%nat ->
  forallb p (take n l) = true /\ List.length (take n l) = n.
Proof.
  induction l as [|c l IH]; intros n Hn; simpl in Hn.
  - replace n with 0%nat by lia. auto.
  - destruct n as [|n]; [auto|]. destruct (p c) eqn:E; [|lia].
    destruct (IH n) as [H1 H2]; [lia|]. simpl. rewrite E, H1, H2. auto.
Qed.

Lemma leading_le p l : (leading p l <= List.length l)%nat.
Proof. induction l as [|c l IH]; simpl; [lia|]. destruct (p c); simpl; lia. Qed.

Lemma leading_app p a b :
  forallb p a = true -> leading p (a ++ b) = (List.length a + leading p b)%nat.
Proof.
  induction a as [|c a IH]; simpl; [reflexivity|].
  intros H. apply andb_true_iff in H as [-> H]. rewrite IH by exact H. reflexivity.
Qed.

Lemma leading_all p l : forallb p l = true -> leading p l = List.length l.
Proof.
  intros H. rewrite <- (app_nil_r l) at 1. rewrite leading_app by exact H.
  simpl. lia.
Qed.

Lemma forallb_drop {A} (p : A -> bool) n l :
  forallb p l = true -> forallb p (drop n l) = true.
Proof.
  intros H. rewrite <- (firstn_skipn n l), forallb_app in H.
  apply andb_true_iff in H as [_ H]. exact H.
Qed.

Lemma space_not_hash c : is_space c = true -> is_hash c = false.
Proof.
  intros H. destruct (is_hash c) eqn:E; [|reflexivity].
  unfold is_hash, is_char in E. apply Ascii.eqb_eq in E. subst c.
  vm_compute in H. discriminate.
Qed.

(** Both captures and the white space between them, read off a
    successful match. *)
Lemma headingMatch_sound line hashes title :
  headingMatch line = Some (hashes, title) ->
  exists space,
    chars line = chars hashes ++ space ++ chars title /\
    heading_shape (chars hashes) space (chars title).
Proof.
  unfold headingMatch. intros H.
  apply first_some_Some in H as (k & Hk & H).
  apply first_some_Some in H as (w & Hw & H).
  apply first_some_Some in H as (t & Ht & H).
  apply greedy_In in Hk, Hw, Ht.
  destruct (drop (k + w + t) (chars line)) eqn:Hend; [|discriminate].
  injection H as <- <-. rewrite !AnchorFacts.chars_str.
  set (l := chars line) in *.
  destruct (leading_take is_hash l k) as [Hh1 Hh2]; [lia|].
  destruct (leading_take is_space (drop k l) w) as [Hs1 Hs2]; [lia|].
  destruct (leading_take is_dot (drop (k + w) l) t) as [Ht1 Ht2]; [lia|].
  exists (take w (drop k l)). split.
  - rewrite <- (firstn_skipn k l) at 1. f_equal.
    rewrite <- (firstn_skipn w (drop k l)) at 1. f_equal.
    rewrite drop_drop.
    rewrite <- (firstn_skipn t (drop (k + w) l)) at 1.
    rewrite drop_drop, Hend, app_nil_r. reflexivity.
  - unfold heading_shape. rewrite Hh2.
    repeat split; try assumption; try lia.
    + intros E. rewrite E in Hs2. simpl in Hs2. lia.
    + intros E. rewrite E in Ht2. simpl in Ht2. lia.
Qed.

(** A line of the shape matches. *)
Lemma headingMatch_complete line hashes space title :
  heading_shape hashes space title ->
  chars line = hashes ++ space ++ title ->
  is_Some (headingMatch line).
Proof.
  intros (Hlen & Hh & Hs0 & Hs & Ht0 & Ht) Hl.
  unfold headingMatch. rewrite Hl.
  assert (Hlead : leading is_hash (space ++ title) = 0%nat).
  { destruct space as [|c space]; [congruence|]. simpl in Hs.
    apply andb_true_iff in Hs as [Hc _].
    cbn [app leading]. rewrite (space_not_hash c Hc). reflexivity. }
  set (k := List.length hashes).
  set (total := List.length (space ++ title)).
  set (w := Nat.min (leading is_space (space ++ title)) (total - 1)).
  assert (Hsp : (List.length space <= leading is_space (space ++ title))%nat).
  { rewrite leading_app by exact Hs. lia. }
  assert (Hls : (1 <= List.length space)%nat).
  { destruct space; [congruence|simpl; lia]. }
  assert (Hlt : (1 <= List.length title)%nat).
  { destruct title; [congruence|simpl; lia]. }
  assert (Htotal : total = (List.length space + List.length title)%nat).
  { unfold total. apply length_app. }
  assert (Hw : (List.length space <= w <= total - 1)%nat) by (unfold w; lia).
  assert (Hdk : forall n, drop (k + n) (hashes ++ space ++ title)
                          = drop n (space ++ title)).
  { intros n. unfold k. apply drop_app_add. }
  assert (Hdk0 : drop k (hashes ++ space ++ title) = space ++ title).
  { replace k with (k + 0)%nat by lia. rewrite Hdk. reflexivity. }
  assert (Hrem : drop w (space ++ title) = drop (w - List.length space) title).
  { rewrite drop_app_ge by lia. reflexivity. }
  set (rem := drop w (space ++ title)).
  assert (Hrl : List.length rem = (total - w)%nat).
  { unfold rem. rewrite length_drop. reflexivity. }
  assert (Hrd : forallb is_dot rem = true).
  { unfold rem. rewrite Hrem. apply forallb_drop. exact Ht. }
  apply (first_some_is_Some _ _ k).
  { apply greedy_In. rewrite leading_app, Hlead by exact Hh. unfold k. lia. }
  rewrite Hdk0.
  apply (first_some_is_Some _ _ w).
  { apply greedy_In. unfold w. lia. }
  rewrite Hdk. fold rem.
  apply (first_some_is_Some _ _ (List.length rem)).
  { apply greedy_In. rewrite leading_all by exact Hrd. lia. }
  rewrite <- Nat.add_assoc, Hdk, <- drop_drop. fold rem.
  rewrite drop_all. eexists. reflexivity.
Qed.

Lemma leading_unique p a b a' b' :
  a ++ b = a' ++ b' ->
  forallb p a = true -> forallb p a' = true ->
  leading p b = 0%nat -> leading p b' = 0%nat ->
  a = a'.
Proof.
  intros E Ha Ha' Hb Hb'.
  assert (Hlen : List.length a = List.length a').
  { pose proof (leading_app p a b Ha) as H1.
    pose proof (leading_app p a' b' Ha') as H2.
    rewrite E in H1. lia. }
  apply (f_equal (take (List.length a))) in E.
  rewrite take_app_length in E. rewrite Hlen, take_app_length in E. exact E.
Qed.

(** X24.  A line is a heading exactly when it consists of one to six
    hashes, white space, and a non-empty title free of line terminators;
    the captures of a match are such a decomposition of the line, and
    the hashes of any such decomposition are the ones captured. *)
Theorem headingMatch_shape (line : string) :
  (forall hashes title,
     headingMatch line = Some (hashes, title) ->
     exists space,
       chars line = chars hashes ++ space ++ chars title /\
       heading_shape (chars hashes) space (chars title)) /\
  (forall hashes space title,
     heading_shape hashes space title ->
     chars line = hashes ++ space ++ title ->
     exists title', headingMatch line = Some (str hashes, title')).
Proof.
  split; [apply headingMatch_sound|].
  intros hashes space title Hshape Hl.
  destruct (headingMatch_complete line hashes space title Hshape Hl)
    as [[hashes' title'] Hm].
  exists title'. rewrite Hm. f_equal. f_equal.
  destruct (headingMatch_sound line hashes' title' Hm)
    as (space' & Hl' & (_ & Hh' & Hs0' & Hs' & _)).
  destruct Hshape as (_ & Hh & Hs0 & Hs & _).
  rewrite <- (AnchorFacts.str_chars hashes'). f_equal.
  rewrite Hl in Hl'. symmetry.
  apply (leading_unique is_hash _ _ _ _ Hl' Hh Hh').
  - destruct space as [|c space]; [congruence|]. simpl in Hs.
    apply andb_true_iff in Hs as [Hc _].
    simpl. rewrite (space_not_hash c Hc). reflexivity.
  - destruct space' as [|c space']; [congruence|]. simpl in Hs'.
    apply andb_true_iff in Hs' as [Hc _].
    simpl. rewrite (space_not_hash c Hc). reflexivity.
Qed.

Lemma headingMatch_shape_witness :
  heading_shape (chars "##") (chars " ") (chars "Part") /\
  exists title, headingMatch "## Part" = Some ("##"%string, title).
Proof.
  assert (H : heading_shape (chars "##") (chars " ") (chars "Part")).
  { unfold heading_shape. simpl.
    repeat split; try lia; try discriminate. }
  split; [exact H|].
  exact (proj2 (headingMatch_shape "## Part") _ _ _ H eq_refl).
Defined.

Lemma chars_append a b : chars (String.append a b) = chars a ++ chars b.
Proof.
  induction a as [|c a IH]; [reflexivity|].
  change (chars (String c (String.append a b)) = c :: (chars a ++ chars b)).
  simpl. f_equal. exact IH.
Qed.

(** X25.  A line that ends in a carriage return is never a heading, nor
    is a line that starts with seven hashes. *)
Theorem headingMatch_rejects (line : string) :
  headingMatch (String.append line CR) = None /\
  headingMatch (String.append "#######" line) = None.
Proof.
  split.
  - destruct (headingMatch (String.append line CR)) as [[hashes title]|] eqn:E;
      [exfalso|reflexivity].
    apply headingMatch_sound in E as (space & Hl & (_ & _ & _ & _ & Ht0 & Ht)).
    rewrite chars_append in Hl.
    destruct (chars title) as [|c t] using rev_ind; [congruence|].
    rewrite !app_assoc in Hl. apply app_inj_tail in Hl as [_ <-].
    rewrite forallb_app in Ht. apply andb_true_iff in Ht as [_ Ht].
    vm_compute in Ht. discriminate.
  - destruct (headingMatch (String.append "#######" line)) as [[hashes title]|] eqn:E;
      [exfalso|reflexivity].
    apply headingMatch_sound in E as (space & Hl & (Hlen & Hh & Hs0 & Hs & _)).
    rewrite chars_append in Hl.
    assert (H7 : (7 <= leading is_hash (chars "#######" ++ chars line))%nat).
    { rewrite leading_app by reflexivity. simpl. lia. }
    rewrite Hl, leading_app in H7 by exact Hh.
    destruct space as [|c space]; [congruence|]. simpl in Hs.
    apply andb_true_iff in Hs as [Hc _].
    simpl in H7. rewrite (space_not_hash c Hc) in H7. lia.
Qed.

End HeadingFacts.

Module MarkdownFacts.
Import Js Model Hierarchy DepthFilter Markdown.

Lemma imap_index {A} (l : list A) : forall s,
  imap (fun n _ => (s + n)%nat) l = seq s (List.length l).
Proof.
  induction l as [|x l IH]; intros s; [reflexivity|].
  rewrite imap_cons. cbn [List.length seq]. f_equal; [lia|].
  rewrite <- (IH (Datatypes.S s)). apply imap_ext. intros. cbn. lia.
Qed.

Lemma alloc_flat_lookup (l : list OutlineNode) i t :
  l !! i = Some t ->
  alloc_flat l !! i
  = Some (mkObj (payload t) (option_map (fun _ => []) (children t))).
Proof.
  intros H. unfold alloc_flat. apply elem_of_list_to_map_1.
  - rewrite fmap_imap.
    rewrite (imap_ext _ (fun n _ => (0 + n)%nat) l) by reflexivity.
    rewrite imap_index. apply NoDup_seq.
  - apply elem_of_lookup_imap. exists i, t. auto.
Qed.

Lemma alloc_flat_items (l : list OutlineNode) :
  is_Some (items_at (alloc_flat l) (seq 0 (List.length l))).
Proof.
  unfold items_at. apply mapM_is_Some, Forall_forall. intros i Hi.
  apply elem_of_seq in Hi as [_ Hi].
  destruct (lookup_lt_is_Some_2 l i) as [t Ht]; [lia|].
  unfold item_at. cbn. rewrite (alloc_flat_lookup l i t Ht).
  destruct (children t); eexists; reflexivity.
Qed.

Lemma payload_rebuild m n : payload (rebuild m n) = payload n.
Proof. destruct n. reflexivity. Qed.

Lemma filterByDepth_payloads nodes maxDepth :
  map payload (filterByDepth nodes maxDepth) = map payload (within maxDepth nodes).
Proof.
  unfold filterByDepth, within. destruct maxDepth as [m|]; [|reflexivity].
  destruct (m =? 0); [reflexivity|].
  rewrite map_map. apply map_ext. apply payload_rebuild.
Qed.

Lemma heading_node_depth parsed options i line node :
  heading_node parsed options i line = Some node ->
  1 <= node_depth node <= 6 /\ Model.type (payload node) = "heading"%string.
Proof.
  unfold heading_node.
  destruct (headingMatch line) as [[hashes title]|] eqn:E; [|discriminate].
  intros [= <-].
  apply HeadingFacts.headingMatch_sound in E as (space & _ & (Hlen & _)).
  unfold node_depth, createNode, set_id, set_anchor. cbn.
  unfold Js.length. rewrite <- PositionFacts.length_chars. split; [lia|reflexivity].
Qed.

Lemma heading_nodes_depth parsed options : forall lines i,
  Forall (fun node => 1 <= node_depth node <= 6 /\
                      Model.type (payload node) = "heading"%string)
         (heading_nodes parsed options i lines).
Proof.
  induction lines as [|l lines IH]; intros i; simpl; [constructor|].
  destruct (heading_node parsed options i l) eqn:E; [|apply IH].
  constructor; [|apply IH]. eapply heading_node_depth. exact E.
Qed.

(** The tail of [generate] on any array of nodes: the depth-first walk
    of the result reads the filtered nodes in their order. *)
Lemma markdown_assemble_walk nodes maxDepth
    (filtered := filterByDepth nodes maxDepth) :
  preorder_heap (List.length filtered)
                (snd (markdown_assemble nodes maxDepth))
                (fst (markdown_assemble nodes maxDepth))
  = seq 0 (List.length filtered) /\
  forall i, (i < List.length filtered)%nat ->
    obj_data <$> (snd (markdown_assemble nodes maxDepth) !! i)
    = payload <$> (filtered !! i).
Proof.
  unfold markdown_assemble. cbv zeta. fold filtered.
  set (h := alloc_flat filtered). set (refs := seq 0 (List.length filtered)).
  split.
  - destruct (alloc_flat_items filtered) as [items Hit]. fold h refs in Hit.
    destruct (HierarchyFacts.items_at_facts _ _ _ Hit) as (Hrefs & Hfl & Hrp).
    assert (Hnd : NoDup (map root_ref items))
      by (rewrite Hrefs; apply NoDup_seq).
    destruct (HierarchyFacts.buildHierarchy_sim h items Hnd Hfl Hrp)
      as (H1 & H2 & H3).
    rewrite <- Hrefs, H1.
    replace (List.length filtered) with (List.length (map root_ref items))
      by (rewrite Hrefs; apply length_seq).
    rewrite (HierarchyFacts.preorder_heap_repr _ _ _ H2); [exact H3|].
    rewrite H3. reflexivity.
  - intros i Hi. unfold buildHierarchy. cbn [snd].
    rewrite (AssemblerFacts.run_data refs (mkState [] [] h) i). cbn [store].
    destruct (lookup_lt_is_Some_2 filtered i Hi) as [t Ht].
    unfold h. rewrite (alloc_flat_lookup filtered i t Ht), Ht. reflexivity.
Qed.

(** X26.  The outline of a Markdown text, walked depth first, is the
    headings whose depth passes the filter, in document order and with
    the data they were created with; every heading has a depth between
    one and six. *)
Theorem generate_document_order (parsed : Matter) (options : GeneratorOptions)
    (nodes := heading_nodes parsed options 0
                (Csv.split_lines (chars (content parsed)) []))
    (kept := within (maxDepth options) nodes)
    (roots := fst (generate parsed options))
    (h := snd (generate parsed options)) :
  map (fun r => obj_data <$> (h !! r)) (preorder_heap (List.length kept) h roots)
  = map (fun node => Some (payload node)) kept /\
  Forall (fun node => 1 <= node_depth node <= 6 /\
                      Model.type (payload node) = "heading"%string) nodes.
Proof.
  split; [|apply heading_nodes_depth].
  subst roots h. unfold generate. cbv zeta. fold nodes.
  destruct (markdown_assemble_walk nodes (maxDepth options)) as [Hwalk Hdata].
  pose proof (filterByDepth_payloads nodes (maxDepth options)) as Hp.
  fold kept in Hp.
  assert (Hlen : List.length (filterByDepth nodes (maxDepth options))
                 = List.length kept).
  { apply (f_equal (@List.length _)) in Hp. rewrite !length_map in Hp. exact Hp. }
  rewrite <- Hlen, Hwalk.
  apply list_eq. intros i. rewrite !list_lookup_fmap.
  destruct (decide (i < List.length (filterByDepth nodes (maxDepth options)))%nat)
    as [Hi|Hi].
  - rewrite lookup_seq_lt by exact Hi. cbn -[markdown_assemble].
    rewrite (Hdata i Hi).
    apply (f_equal (fun l => l !! i)) in Hp. rewrite !list_lookup_fmap in Hp.
    destruct (lookup_lt_is_Some_2 _ i Hi) as [t Ht].
    destruct (lookup_lt_is_Some_2 kept i) as [t' Ht']; [lia|].
    rewrite Ht, Ht' in *. cbn in *. congruence.
  - rewrite lookup_seq_ge by lia.
    rewrite (lookup_ge_None_2 kept i) by lia. reflexivity.
Qed.

End MarkdownFacts.

Module XmlFacts.
Import Js Model DepthFilter Xml.

Lemma data_ind' (P : data -> Prop) :
  (forall s, P (DString s)) -> P DPrimitive -> P DNull ->
  (forall entries, Forall (fun e : string * data => P (snd e)) entries ->
                   P (DObject entries)) ->
  (forall items, Forall P items -> P (DArray items)) ->
  forall d, P d.
Proof.
  intros HS HP HN HO HA.
  fix IH 1. intros [s| | |entries|items]; [apply HS|exact HP|exact HN| |].
  - apply HO. induction entries as [|[k v] l IHl]; constructor;
      [apply IH|exact IHl].
  - apply HA. induction items as [|v l IHl]; constructor; [apply IH|exact IHl].
Qed.

Lemma filterByDepth_app a b m :
  filterByDepth (a ++ b) m = filterByDepth a m ++ filterByDepth b m.
Proof.
  unfold filterByDepth. destruct m as [m|]; [|reflexivity].
  destruct (m =? 0); [reflexivity|].
  rewrite List.filter_app, map_app. reflexivity.
Qed.

Lemma filterByDepth_idem l m :
  filterByDepth (filterByDepth l m) m = filterByDepth l m.
Proof.
  unfold filterByDepth. destruct m as [m|]; [|reflexivity].
  destruct (m =? 0); [reflexivity|].
  rewrite FilterFacts.filter_filter, Z.min_id. reflexivity.
Qed.

(** The filter sees the children of a node only through their filter. *)
Lemma filterByDepth_node p c m :
  filterByDepth [Node p (Some (filterByDepth c m))] m
  = filterByDepth [Node p (Some c)] m.
Proof.
  pose proof (filterByDepth_idem c m) as Hi. revert Hi.
  unfold filterByDepth. destruct m as [m|]; [|reflexivity].
  destruct (m =? 0); [reflexivity|]. intros Hi.
  cbn [List.filter].
  change (keeps m (Node p (Some (map (rebuild m) (List.filter (keeps m) c)))))
    with (depth p <=? m).
  change (keeps m (Node p (Some c))) with (depth p <=? m).
  destruct (depth p <=? m); [|reflexivity].
  cbn [map]. rewrite !DepthFilterFacts.rebuild_children, Hi. reflexivity.
Qed.

Lemma filterByDepth_cons n n' l l' m :
  filterByDepth [n] m = filterByDepth [n'] m ->
  filterByDepth l m = filterByDepth l' m ->
  filterByDepth (n :: l) m = filterByDepth (n' :: l') m.
Proof.
  intros H1 H2.
  change (n :: l) with ([n] ++ l). change (n' :: l') with ([n'] ++ l').
  rewrite !filterByDepth_app, H1, H2. reflexivity.
Qed.

Section FilterOnce.
Variable options : GeneratorOptions.

Lemma first_items_once depth currentPath items : forall i,
  Forall (filtered_once options) items ->
  first_items (xmlToOutline options) depth currentPath i items
  = filterByDepth
      (first_items (xmlToOutline (unlimited options)) depth currentPath i items)
      (maxDepth options).
Proof.
  induction items as [|v items IH]; intros i H; cbn [first_items].
  - destruct (maxDepth options) as [m|]; [|reflexivity].
    unfold filterByDepth. destruct (m =? 0); reflexivity.
  - apply Forall_cons in H as [Hv H].
    destruct (i <? 3)%nat.
    + rewrite filterByDepth_app, <- IH by exact H. f_equal.
      destruct (is_object v); [apply Hv|].
      destruct (maxDepth options) as [m|]; [|reflexivity].
      unfold filterByDepth. destruct (m =? 0); reflexivity.
    + destruct (maxDepth options) as [m|]; [|reflexivity].
      unfold filterByDepth. destruct (m =? 0); reflexivity.
Qed.

Lemma entry_node_once depth parentPath key value :
  filtered_once_within options value ->
  filterByDepth [entry_node (xmlToOutline options) depth parentPath key value]
                (maxDepth options)
  = filterByDepth
      [entry_node (xmlToOutline (unlimited options)) depth parentPath key value]
      (maxDepth options).
Proof.
  intros [Hv Hitems]. unfold entry_node. cbv zeta.
  destruct value as [s| | |entries|items]; try reflexivity.
  - unfold set_children. rewrite Hv. apply filterByDepth_node.
  - unfold set_children. rewrite first_items_once by exact Hitems.
    apply filterByDepth_node.
Qed.

Lemma object_entries_once depth parentPath entries :
  Forall (fun e : string * data => filtered_once_within options (snd e)) entries ->
  filterByDepth (object_entries (xmlToOutline options) depth parentPath entries)
                (maxDepth options)
  = filterByDepth
      (object_entries (xmlToOutline (unlimited options)) depth parentPath entries)
      (maxDepth options).
Proof.
  induction 1 as [|[key value] entries Hv _ IH]; [reflexivity|].
  cbn [object_entries]. destruct (is_attribute key); [exact IH|].
  apply filterByDepth_cons; [|exact IH]. apply entry_node_once. exact Hv.
Qed.

Lemma array_entries_once depth parentPath items : forall i,
  Forall (filtered_once_within options) items ->
  filterByDepth (array_entries (xmlToOutline options) depth parentPath i items)
                (maxDepth options)
  = filterByDepth
      (array_entries (xmlToOutline (unlimited options)) depth parentPath i items)
      (maxDepth options).
Proof.
  induction items as [|value items IH]; intros i H; [reflexivity|].
  apply Forall_cons in H as [Hv H].
  cbn [array_entries].
  apply filterByDepth_cons; [|apply IH; exact H]. apply entry_node_once. exact Hv.
Qed.

Lemma xmlToOutline_once d : filtered_once_within options d.
Proof.
  induction d as [s| | |entries IH|items IH] using data_ind'.
  - split; [|exact I]. intros depth parentPath. cbn.
    destruct (maxDepth options) as [m|]; [|reflexivity].
    unfold filterByDepth. destruct (m =? 0); reflexivity.
  - split; [|exact I]. intros depth parentPath. cbn.
    destruct (maxDepth options) as [m|]; [|reflexivity].
    unfold filterByDepth. destruct (m =? 0); reflexivity.
  - split; [|exact I]. intros depth parentPath. cbn.
    destruct (maxDepth options) as [m|]; [|reflexivity].
    unfold filterByDepth. destruct (m =? 0); reflexivity.
  - split; [|exact I]. intros depth parentPath.
    cbn [xmlToOutline]. cbv zeta.
    change (maxDepth (unlimited options)) with (@None Z).
    cbn [filterByDepth]. apply object_entries_once. exact IH.
  - split.
    + intros depth parentPath.
      cbn [xmlToOutline]. cbv zeta.
      change (maxDepth (unlimited options)) with (@None Z).
      cbn [filterByDepth]. apply array_entries_once. exact IH.
    + apply List.Forall_forall. intros v Hv.
      rewrite List.Forall_forall in IH. apply (IH v Hv).
Qed.

End FilterOnce.

(** X27.  [xmlToOutline] filters by depth at every level of the
    recursion; the result is the outline built without a depth limit,
    filtered once. *)
Theorem xmlToOutline_filters_once (options : GeneratorOptions) (d : data)
    (depth : Z) (parentPath : string) :
  xmlToOutline options d depth parentPath
  = filterByDepth (xmlToOutline (unlimited options) d depth parentPath)
                  (maxDepth options).
Proof. apply xmlToOutline_once. Qed.

End XmlFacts.

Module XmlShapeFacts.
Import Js Model DepthFilter Xml.

Lemma nested_children P d p l :
  nested P d (Node p (Some l)) <-> P d p /\ Forall (nested P (d + 1)) l.
Proof.
  cbn [nested]. split; intros [Hp Hl]; (split; [exact Hp|]).
  - induction l as [|k l IH]; [constructor|].
    destruct Hl as [Hk Hl]. constructor; [exact Hk|apply IH; exact Hl].
  - induction Hl as [|k l Hk _ IH]; [exact I|]. split; assumption.
Qed.

Lemma nested_rebuild P m n : forall d, nested P d n -> nested P d (rebuild m n).
Proof.
  induction n as [p|p l IH] using ModelFacts.Outline_ind'; intros d H; [exact H|].
  rewrite DepthFilterFacts.rebuild_children.
  apply nested_children in H as [Hp Hl]. apply nested_children.
  split; [exact Hp|].
  induction IH as [|k l Hk _ IHl]; [constructor|].
  apply Forall_cons in Hl as [Hk' Hl]. cbn [List.filter].
  destruct (keeps m k); [|apply IHl; exact Hl].
  constructor; [apply Hk; exact Hk'|apply IHl; exact Hl].
Qed.

Lemma nested_filterByDepth P d l m :
  Forall (nested P d) l -> Forall (nested P d) (filterByDepth l m).
Proof.
  intros H. unfold filterByDepth. destruct m as [m|]; [|exact H].
  destruct (m =? 0); [exact H|].
  induction H as [|k l Hk _ IH]; [constructor|]. cbn [List.filter].
  destruct (keeps m k); [|exact IH].
  constructor; [apply nested_rebuild; exact Hk|exact IH].
Qed.

Lemma index_not_attribute i : is_attribute (Csv.decimal i) = false.
Proof.
  unfold is_attribute, Csv.decimal.
  destruct (Nat.to_uint i); reflexivity.
Qed.

Lemma node_type_cases value :
  In (node_type value) ["array"; "element"; "text"]%string.
Proof. destruct value; simpl; auto. Qed.

Section Shape.
Variable options : GeneratorOptions.

Lemma first_items_nested depth currentPath items : forall i,
  Forall (fun v => forall depth parentPath,
            Forall (nested entry_payload depth)
                   (xmlToOutline options v depth parentPath)) items ->
  Forall (nested entry_payload (depth + 1))
         (first_items (xmlToOutline options) depth currentPath i items).
Proof.
  induction items as [|v items IH]; intros i H; cbn [first_items];
    [constructor|].
  apply Forall_cons in H as [Hv H].
  destruct (i <? 3)%nat; [|constructor].
  apply Forall_app. split; [|apply IH; exact H].
  destruct (is_object v); [apply Hv|constructor].
Qed.

Lemma entry_node_nested depth parentPath key value :
  is_attribute key = false ->
  (forall depth parentPath,
     Forall (nested entry_payload depth)
            (xmlToOutline options value depth parentPath)) ->
  match value with
  | DArray items =>
      Forall (fun v => forall depth parentPath,
                Forall (nested entry_payload depth)
                       (xmlToOutline options v depth parentPath)) items
  | _ => True
  end ->
  nested entry_payload depth
         (entry_node (xmlToOutline options) depth parentPath key value).
Proof.
  intros Hkey Hv Hitems.
  assert (Hp : entry_payload depth
                 (payload (new_node key value depth (path_of parentPath key)))).
  { unfold entry_payload, new_node, set_id, createNode. cbn.
    split; [reflexivity|]. split; [exact Hkey|apply node_type_cases]. }
  unfold entry_node. cbv zeta.
  destruct value as [s| | |entries|items];
    try (unfold new_node, set_id, createNode in *; cbn in *; tauto).
  - apply nested_children. split; [exact Hp|apply Hv].
  - apply nested_children. split; [exact Hp|].
    apply first_items_nested. exact Hitems.
Qed.

Lemma xmlToOutline_nested d :
  (forall depth parentPath,
     Forall (nested entry_payload depth)
            (xmlToOutline options d depth parentPath)) /\
  match d with
  | DArray items =>
      Forall (fun v => forall depth parentPath,
                Forall (nested entry_payload depth)
                       (xmlToOutline options v depth parentPath)) items
  | _ => True
  end.
Proof.
  induction d as [s| | |entries IH|items IH] using XmlFacts.data_ind'.
  - split; [|exact I]. intros depth parentPath. cbn [xmlToOutline]. cbv zeta.
    apply nested_filterByDepth. constructor.
  - split; [|exact I]. intros depth parentPath. cbn [xmlToOutline]. cbv zeta.
    apply nested_filterByDepth. constructor.
  - split; [|exact I]. intros depth parentPath. cbn [xmlToOutline]. cbv zeta.
    apply nested_filterByDepth. constructor.
  - split; [|exact I]. intros depth parentPath. cbn [xmlToOutline]. cbv zeta.
    apply nested_filterByDepth.
    induction IH as [|[key value] entries [Hv Hitems] _ IHe];
      cbn [object_entries]; [constructor|].
    destruct (is_attribute key) eqn:E; [exact IHe|].
    constructor; [|exact IHe].
    apply entry_node_nested; assumption.
  - assert (Hitems : Forall (fun v => forall depth parentPath,
                Forall (nested entry_payload depth)
                       (xmlToOutline options v depth parentPath)) items).
    { apply List.Forall_forall. intros v Hv.
      rewrite List.Forall_forall in IH. apply (IH v Hv). }
    split; [|exact Hitems]. intros depth parentPath.
    cbn [xmlToOutline]. cbv zeta. apply nested_filterByDepth.
    generalize 0%nat.
    induction IH as [|value items [Hv Hsub] _ IHe]; intros i;
      cbn [array_entries]; [constructor|].
    apply Forall_cons in Hitems as [_ Hitems].
    constructor; [|apply IHe; exact Hitems].
    apply entry_node_nested; [apply index_not_attribute|exact Hv|exact Hsub].
Qed.

End Shape.

(** X28.  In the outline of XML data every node sits at the depth of its
    nesting, counted from the depth of the call; no attribute key
    becomes a node; and every node is an [array], an [element] or a
    [text]. *)
Theorem xmlToOutline_levels (options : GeneratorOptions) (d : data)
    (depth : Z) (parentPath : string) :
  Forall (nested entry_payload depth) (xmlToOutline options d depth parentPath).
Proof. apply xmlToOutline_nested. Qed.

End XmlShapeFacts.

Module JsonFacts.
Import Js Model DepthFilter Json.

Lemma put_fresh key s : forall properties,
  ~ In key (map fst properties) ->
  put key s properties = properties ++ [(key, s)].
Proof.
  induction properties as [|[k s'] rest IH]; intros H; [reflexivity|].
  simpl. destruct (String.eqb_spec k key) as [->|Hne].
  - exfalso. apply H. left. reflexivity.
  - rewrite IH; [reflexivity|]. intros Hin. apply H. right. exact Hin.
Qed.

Lemma assign_fresh key s properties :
  ~ In key (map fst properties) ->
  assign key s properties
  = properties ++ (if own_key key then [(key, s)] else []).
Proof.
  intros H. unfold assign, own_key.
  destruct (String.eqb key "__proto__"); cbn [negb].
  - rewrite app_nil_r. reflexivity.
  - apply put_fresh. exact H.
Qed.

Lemma schema_type_generateSchema data path :
  schema_type (generateSchema data path) = getType data.
Proof. destruct data; reflexivity. Qed.

Lemma is_object_schema_generateSchema data path :
  is_object_schema (generateSchema data path)
  = match data with JObject _ => true | _ => false end.
Proof. destruct data; reflexivity. Qed.

(** With distinct keys the properties of the schema of an object are the
    schemas of its values, in the order of its entries, without the key
    [__proto__]. *)
Lemma generateSchema_object entries path :
  List.NoDup (map fst entries) ->
  generateSchema (JObject entries) path
  = Schema "object"
      (Some (map (fun e : string * json =>
                    (fst e, generateSchema (snd e) (key_path path (fst e))))
                 (List.filter (fun e : string * json => own_key (fst e))
                              entries)))
      None
      (match map fst (List.filter (fun e : string * json => negb (is_null (snd e)))
                                  entries) with
       | [] => None
       | _ :: _ =>
           Some (map fst (List.filter
                            (fun e : string * json => negb (is_null (snd e)))
                            entries))
       end)
      None.
Proof.
  intros Hnd. cbn [generateSchema]. cbv zeta. f_equal. f_equal.
  match goal with |- ?loop entries [] = _ => set (go := loop) end.
  assert (Hgo : forall rest acc,
            List.NoDup (map fst acc ++ map fst rest) ->
            go rest acc
            = acc ++ map (fun e : string * json =>
                            (fst e, generateSchema (snd e) (key_path path (fst e))))
                         (List.filter (fun e : string * json => own_key (fst e))
                                      rest)).
  { induction rest as [|[k v] rest IH]; intros acc H.
    - simpl. rewrite app_nil_r. reflexivity.
    - cbn [go]. fold go. rewrite assign_fresh.
      + rewrite IH.
        * cbn [List.filter fst]. destruct (own_key k).
          -- rewrite <- app_assoc. reflexivity.
          -- rewrite app_nil_r. reflexivity.
        * apply List.NoDup_remove_1 in H as H1.
          apply List.NoDup_remove_2 in H as H2.
          destruct (own_key k).
          -- rewrite map_app, <- app_assoc. exact H.
          -- rewrite app_nil_r. exact H1.
      + apply List.NoDup_remove_2 in H. intros Hin. apply H.
        apply in_or_app. left. exact Hin. }
  apply (Hgo entries []). exact Hnd.
Qed.

Lemma required_key entries key value :
  List.NoDup (map fst entries) -> In (key, value) entries ->
  existsb (String.eqb key)
          (map fst (List.filter (fun e : string * json => negb (is_null (snd e)))
                                entries))
  = negb (is_null value).
Proof.
  intros Hnd Hin.
  destruct (negb (is_null value)) eqn:E.
  - apply existsb_exists. exists key. split; [|apply String.eqb_refl].
    apply in_map_iff. exists (key, value). split; [reflexivity|].
    apply filter_In. split; [exact Hin|exact E].
  - destruct (existsb _ _) eqn:Ex; [exfalso|reflexivity].
    apply existsb_exists in Ex as (k & Hk & Heq).
    apply String.eqb_eq in Heq. subst k.
    apply in_map_iff in Hk as ([k v'] & Hfst & Hk). simpl in Hfst. subst k.
    apply filter_In in Hk as [Hk Hv']. simpl in Hv'.
    assert (v' = value); [|congruence].
    clear -Hnd Hin Hk. induction entries as [|[k v] entries IH]; [destruct Hin|].
    simpl in Hnd. apply List.NoDup_cons_iff in Hnd as [Hfresh Hnd].
    destruct Hin as [Hin|Hin], Hk as [Hk|Hk].
    + congruence.
    + injection Hin as -> ->. exfalso. apply Hfresh.
      apply in_map_iff. exists (key, v'). auto.
    + injection Hk as -> ->. exfalso. apply Hfresh.
      apply in_map_iff. exists (key, value). auto.
    + apply IH; assumption.
Qed.

Lemma summary_property_node recurse required depth parentPath key property :
  summary (property_node recurse required depth parentPath key property)
  = (key, VStr (schema_type property),
     VBool match required with
           | Some keys => existsb (String.eqb key) keys
           | None => false
           end).
Proof.
  unfold property_node. cbv zeta.
  destruct (is_object_schema property); [reflexivity|].
  destruct (String.eqb (schema_type property) "array"); [|reflexivity].
  destruct (schema_items property) as [items|]; [|reflexivity].
  destruct (is_object_schema items); reflexivity.
Qed.

(** X29.  Without a depth limit the outline of a JSON object with
    distinct keys has one root per entry whose key is not [__proto__],
    in the order of the entries: its title is the key, its [dataType]
    the type of the value, and it is [required] exactly when the value
    is not [null].  An entry with the key [__proto__] gives no root:
    assigning that key sets the prototype of the record of properties
    and adds no property to it. *)
Theorem generate_object_properties (entries : list (string * json))
    (options : GeneratorOptions) :
  List.NoDup (map fst entries) ->
  maxDepth options = None ->
  map summary (generate (JObject entries) options)
  = map (fun e : string * json =>
           (fst e, VStr (getType (snd e)), VBool (negb (is_null (snd e)))))
        (List.filter (fun e : string * json => own_key (fst e)) entries).
Proof.
  intros Hnd Hm. unfold generate.
  rewrite (generateSchema_object entries "root" Hnd).
  cbn [schemaToOutline String.eqb Ascii.eqb Bool.eqb]. cbv zeta.
  rewrite Hm. cbn [filterByDepth].
  set (keys := map fst (List.filter _ entries)).
  set (required := match keys with [] => None | _ :: _ => Some keys end).
  assert (Hreq : forall key,
            match required with
            | Some ks => existsb (String.eqb key) ks
            | None => false
            end = existsb (String.eqb key) keys).
  { intros key. unfold required. destruct keys; reflexivity. }
  assert (Hall : forall rest, incl rest entries ->
            map summary
                (property_nodes (schemaToOutline options) required 1 EmptyString
                   (map (fun e : string * json =>
                           (fst e, generateSchema (snd e) (key_path "root" (fst e))))
                        rest))
            = map (fun e : string * json =>
                     (fst e, VStr (getType (snd e)), VBool (negb (is_null (snd e)))))
                  rest).
  { induction rest as [|[k v] rest IH]; intros Hincl; [reflexivity|].
    cbn [map property_nodes fst snd].
    rewrite summary_property_node, schema_type_generateSchema, Hreq.
    unfold keys. rewrite (required_key entries k v Hnd).
    - f_equal. apply IH. intros e He. apply Hincl. right. exact He.
    - apply Hincl. left. reflexivity. }
  apply Hall. intros e He. apply filter_In in He as [He _]. exact He.
Qed.

Lemma generate_object_properties_witness :
  List.NoDup (map fst inherited) /\
  map summary (generate (JObject inherited) Registry.no_options)
  = [("b", VStr "number", VBool true)]%string.
Proof.
  assert (Hnd : List.NoDup (map fst inherited)).
  { repeat constructor; simpl; intuition discriminate. }
  split; [exact Hnd|].
  exact (generate_object_properties inherited Registry.no_options Hnd eq_refl).
Defined.

Example generate_person :
  map summary (generate (JObject person) Registry.no_options)
  = [("name", VStr "string", VBool true); ("age", VStr "number", VBool true);
     ("nick", VStr "null", VBool false); ("tags", VStr "array", VBool true)]%string.
Proof. vm_compute. reflexivity. Qed.

Lemma schemaToOutline_filtered options s depth parentPath :
  filterByDepth (schemaToOutline options s depth parentPath) (maxDepth options)
  = schemaToOutline options s depth parentPath.
Proof.
  destruct s as [type properties items required description].
  cbn [schemaToOutline]. cbv zeta. apply XmlFacts.filterByDepth_idem.
Qed.

(** X30.  Of a JSON array only the first item is looked at: the outline
    of the array is the outline of its first item, with [[]] added to
    the path, when that item is an object, and empty otherwise, as it is
    for the empty array. *)
Theorem schemaToOutline_array (options : GeneratorOptions) (items : list json)
    (path : string) (depth : Z) (parentPath : string) :
  schemaToOutline options (generateSchema (JArray items) path) depth parentPath
  = match items with
    | JObject entries :: _ =>
        schemaToOutline options
          (generateSchema (JObject entries) (first_path path))
          depth (items_path parentPath)
    | _ => []
    end.
Proof.
  assert (Hnil : filterByDepth [] (maxDepth options) = []).
  { unfold filterByDepth. destruct (maxDepth options) as [m|]; [|reflexivity].
    destruct (m =? 0); reflexivity. }
  destruct items as [|first rest].
  - cbn. exact Hnil.
  - change (generateSchema (JArray (first :: rest)) path)
      with (Schema "array" None (Some (generateSchema first (first_path path)))
                   None None).
    cbn [schemaToOutline String.eqb Ascii.eqb Bool.eqb]. cbv zeta.
    rewrite is_object_schema_generateSchema.
    destruct first; try exact Hnil.
    apply schemaToOutline_filtered.
Qed.

End JsonFacts.
